(** * custom-qmood: CSV merge with overrides and QMOOD metric recalculation

    A shallow embedding of [custom-qmood.py]: the row matcher
    ([extract_class_name], [match_files]), the merge engine ([merge_csvs])
    and the metric recalculator ([recalculate_qmood_metrics]) together with
    the pieces of the Python runtime they rely on (substring test,
    [re.sub] with word boundaries on a literal pattern, and [eval] on the
    expression fragment the formulas live in); and of [main], the reading
    of the [--add-columns] option and the merge followed by the
    recalculation ([main_core]).  Reading and writing the CSV files and
    [argparse] are not modelled.

    Modelling conventions.
    - A pandas [DataFrame] as produced by [pd.read_csv]: a [RangeIndex]
      (rows are identified by their position [0 .. nrows-1]) and an ordered
      list of named columns.
      Column names are strings and are taken to be distinct, as
      [read_csv] makes them; where a definition meets a repeated name it
      takes the first column of that name.
    - A cell is missing ([NaN] of [read_csv], [pd.NA] of [merge_csvs]), a
      number or a string.  Numbers are binary64 floating-point numbers
      ([float], the primitive IEEE 754 doubles), computed with as numpy
      computes with [float64]: every operation rounds to nearest, ties to
      even.  An integer cell stands for the double of the same value,
      which is what pandas makes of it when the column meets a
      coefficient of a formula.  Arithmetic on a string cell raises.
      Columns carry no dtype: a cell takes any value.
    - A Python exception is [None]; the code has a single handler
      ([except Exception]) so the kind of the exception is not kept.
    - Strings are byte strings; case mapping, white space and word
      characters are the ASCII ones, so [PyStr.lower], [strip] and the
      word boundary of [PyRe] are those of Python on ASCII text.  The
      statements that depend on the letters or the blanks of a name say
      that the name is ASCII ([is_ascii]). *)

From Stdlib Require Import List String Ascii Bool Arith Lia ZArith Floats.
Import ListNotations.
Local Open Scope string_scope.
Local Open Scope nat_scope.

Set Implicit Arguments.
Set Warnings "-inexact-float".

(* ================================================================== *)
(** ** Strings: the Python string operations used by the program *)

Module PyStr.

(** [s.lower()] on ASCII text: the letters [A-Z] are folded, every other
    byte is kept. *)
Definition lower_ascii (a : ascii) : ascii :=
  let n := nat_of_ascii a in
  if andb (65 <=? n) (n <=? 90) then ascii_of_nat (n + 32) else a.

Fixpoint lower (s : string) : string :=
  match s with
  | EmptyString => EmptyString
  | String a r => String (lower_ascii a) (lower r)
  end.

(** [p] is a prefix of [s]. *)
Fixpoint startswith (p s : string) : bool :=
  match p, s with
  | EmptyString, _ => true
  | String a p', String b s' => andb (Ascii.eqb a b) (startswith p' s')
  | String _ _, EmptyString => false
  end.

(** [sub in s]. *)
Fixpoint contains (sub s : string) : bool :=
  match s with
  | EmptyString => startswith sub EmptyString
  | String _ r => orb (startswith sub s) (contains sub r)
  end.

Fixpoint rev_acc (s acc : string) : string :=
  match s with
  | EmptyString => acc
  | String a r => rev_acc r (String a acc)
  end.

Definition rev (s : string) : string := rev_acc s EmptyString.

(** [s.endswith(p)]. *)
Definition endswith (p s : string) : bool := startswith (rev p) (rev s).

(** [s[:-n]] for [n <= len(s)]. *)
Definition drop_last (n : nat) (s : string) : string :=
  substring 0 (length s - n) s.

(** [os.path.basename] (posix): what follows the last slash. *)
Fixpoint basename_acc (s cur : string) : string :=
  match s with
  | EmptyString => rev cur
  | String a r =>
      if Ascii.eqb a "/"%char then basename_acc r EmptyString
      else basename_acc r (String a cur)
  end.

Definition basename (s : string) : string := basename_acc s EmptyString.

End PyStr.

(* ================================================================== *)
(** ** Cells, rows and frames *)

Inductive value : Type :=
| VNaN                    (* float nan: an empty cell read by read_csv *)
| VNA                     (* pd.NA *)
| VNum (q : float)
| VStr (s : string).

(** [a == b] followed by its use as a condition: [nan] is unequal to
    everything, a comparison with [pd.NA] is [pd.NA], whose truth value
    raises. *)
Definition py_eq (a b : value) : option bool :=
  match a, b with
  | VNA, _ | _, VNA => None
  | VNum x, VNum y => Some (PrimFloat.eqb x y)
  | VStr x, VStr y => Some (String.eqb x y)
  | _, _ => Some false
  end.

(** A row as [iterrows] yields it: a Series indexed by the column names. *)
Definition Row : Type := list (string * value).

Fixpoint row_get (r : Row) (k : string) : option value :=
  match r with
  | [] => None
  | (c, v) :: r' => if String.eqb c k then Some v else row_get r' k
  end.

(** [k in row]. *)
Definition row_has (r : Row) (k : string) : bool :=
  match row_get r k with Some _ => true | None => false end.

Record DataFrame : Type := mkDF {
  nrows : nat;
  cols : list (string * list value)
}.

(** [df.columns]. *)
Definition columns (df : DataFrame) : list string := map fst (cols df).

Definition mem (k : string) (l : list string) : bool :=
  existsb (String.eqb k) l.

Fixpoint col_get (cs : list (string * list value)) (k : string)
  : option (list value) :=
  match cs with
  | [] => None
  | (c, vs) :: cs' => if String.eqb c k then Some vs else col_get cs' k
  end.

(** The cells at position [i] of a list of columns. *)
Definition cells_at (i : nat) (cs : list (string * list value)) : Row :=
  map (fun cv => (fst cv, nth i (snd cv) VNaN)) cs.

(** The row of [df] at position [i]. *)
Definition row_at (df : DataFrame) (i : nat) : Row := cells_at i (cols df).

(** Every column holds one cell per row. *)
Definition wf (df : DataFrame) : Prop :=
  Forall (fun cv => List.length (snd cv) = nrows df) (cols df).

(** [l[i] = v] on a list; nothing happens out of range. *)
Fixpoint list_set (l : list value) (i : nat) (v : value) : list value :=
  match l, i with
  | [], _ => []
  | _ :: t, O => v :: t
  | h :: t, S i' => h :: list_set t i' v
  end.

Fixpoint cols_set (cs : list (string * list value)) (i : nat) (k : string)
  (v : value) : list (string * list value) :=
  match cs with
  | [] => []
  | (c, vs) :: cs' =>
      if String.eqb c k then (c, list_set vs i v) :: cs'
      else (c, vs) :: cols_set cs' i k v
  end.

(** [df.at[i, k] = v]; on a label that is no column pandas creates the
    column, [nan] in the other rows. *)
Definition set_at (df : DataFrame) (i : nat) (k : string) (v : value)
  : DataFrame :=
  if mem k (columns df) then mkDF (nrows df) (cols_set (cols df) i k v)
  else mkDF (nrows df)
         (cols df ++ [(k, list_set (repeat VNaN (nrows df)) i v)]).

Fixpoint cols_put (cs : list (string * list value)) (k : string)
  (vs : list value) : list (string * list value) :=
  match cs with
  | [] => [(k, vs)]
  | (c, old) :: cs' =>
      if String.eqb c k then (c, vs) :: cs'
      else (c, old) :: cols_put cs' k vs
  end.

(** [df[k] = vs]: replaces the column in place or appends it. *)
Definition set_col (df : DataFrame) (k : string) (vs : list value)
  : DataFrame :=
  mkDF (nrows df) (cols_put (cols df) k vs).

(** [df[k] = v] for a scalar [v]. *)
Definition set_col_scalar (df : DataFrame) (k : string) (v : value)
  : DataFrame :=
  set_col df k (repeat v (nrows df)).

(* ================================================================== *)
(** ** Row matcher *)

(** [extract_class_name(filepath)] on a string. *)
Definition extract_class_name (filepath : string) : string :=
  let base_name := PyStr.basename filepath in
  if PyStr.endswith ".java" base_name then PyStr.drop_last 5 base_name
  else base_name.

(** [extract_class_name] on a cell: [os.path.basename] raises a
    [TypeError] on anything that is not a string. *)
Definition extract_class_name_cell (v : value) : option string :=
  match v with
  | VStr s => Some (extract_class_name s)
  | _ => None
  end.

(** The second [if] of [match_files] and the final [return False]. *)
Definition match_by_file (row1 row2 : Row) : option bool :=
  if andb (row_has row1 "Name") (row_has row2 "file") then
    match row_get row1 "Name", row_get row2 "file" with
    | Some n, Some f =>
        match extract_class_name_cell n, extract_class_name_cell f with
        | Some base_file, Some override_file =>
            if String.eqb (PyStr.lower base_file) (PyStr.lower override_file)
            then Some true else Some false
        | _, _ => None
        end
    | _, _ => None
    end
  else Some false.

(** [match_files(row1, row2)]; [None] when the call raises. *)
Definition match_files (row1 row2 : Row) : option bool :=
  if andb (row_has row1 "ClassNames") (row_has row2 "class") then
    match row_get row1 "ClassNames", row_get row2 "class" with
    | Some a, Some b =>
        match py_eq a b with
        | None => None
        | Some true => Some true
        | Some false => match_by_file row1 row2
        end
    | _, _ => None
    end
  else match_by_file row1 row2.

(* ================================================================== *)
(** ** Merge engine *)

(** [col in add_columns], false when [add_columns is None]. *)
Definition in_add_columns (add_columns : option (list string)) (col : string)
  : bool :=
  match add_columns with
  | Some l => mem col l
  | None => false
  end.

(** The first loop of [merge_csvs]: the requested columns that the
    override frame has and the result lacks are appended, filled with
    [pd.NA]. *)
Definition add_new_columns (override_df : DataFrame)
  (add_columns : option (list string)) (result_df : DataFrame) : DataFrame :=
  match add_columns with
  | None => result_df
  | Some l =>
      fold_left
        (fun res col =>
           if andb (mem col (columns override_df))
                   (negb (mem col (columns res)))
           then set_col_scalar res col VNA else res)
        l result_df
  end.

(** [matching_cols]: the base columns equal to [col] up to case. *)
Definition matching_cols (base_df : DataFrame) (col : string) : list string :=
  filter (fun c => String.eqb (PyStr.lower c) (PyStr.lower col))
         (columns base_df).

(** The column an override column is written to, if any
    ([should_add] and [target_col]). *)
Definition target_col (base_df : DataFrame)
  (add_columns : option (list string)) (col : string) : option string :=
  if in_add_columns add_columns col then Some col
  else match matching_cols base_df col with
       | c :: _ => Some c
       | [] => None
       end.

(** The loop over [override_df.columns] for a matched pair of rows. *)
Fixpoint copy_columns (base_df : DataFrame)
  (add_columns : option (list string)) (i : nat) (override_row : Row)
  (ocols : list string) (result_df : DataFrame) : option DataFrame :=
  match ocols with
  | [] => Some result_df
  | col :: rest =>
      match target_col base_df add_columns col with
      | Some t =>
          match row_get override_row col with
          | Some v =>
              copy_columns base_df add_columns i override_row rest
                           (set_at result_df i t v)
          | None => None
          end
      | None =>
          copy_columns base_df add_columns i override_row rest result_df
      end
  end.

(** [used_override_rows.add(j)]. *)
Definition set_add (j : nat) (s : list nat) : list nat :=
  if existsb (Nat.eqb j) s then s else j :: s.

(** The state of the merge loops: the result frame and the set of used
    override rows. *)
Definition MergeState : Type := (DataFrame * list nat)%type.

(** The inner loop for base row [i], over the override rows [js]; it
    stops at the first row that matches. *)
Fixpoint scan_override (base_df override_df : DataFrame)
  (add_columns : option (list string)) (i : nat) (base_row : Row)
  (js : list nat) (st : MergeState) : option MergeState :=
  match js with
  | [] => Some st
  | j :: rest =>
      let override_row := row_at override_df j in
      match match_files base_row override_row with
      | None => None
      | Some true =>
          match copy_columns base_df add_columns i override_row
                             (columns override_df) (fst st) with
          | Some res => Some (res, set_add j (snd st))
          | None => None
          end
      | Some false =>
          scan_override base_df override_df add_columns i base_row rest st
      end
  end.

(** The outer loop, over the base rows [is]. *)
Fixpoint merge_rows (base_df override_df : DataFrame)
  (add_columns : option (list string)) (rows : list nat) (st : MergeState)
  : option MergeState :=
  match rows with
  | [] => Some st
  | i :: rest =>
      match scan_override base_df override_df add_columns i
                          (row_at base_df i) (seq 0 (nrows override_df)) st with
      | Some st' => merge_rows base_df override_df add_columns rest st'
      | None => None
      end
  end.

(** Both loops of [merge_csvs], with the bookkeeping. *)
Definition merge_state (base_df override_df : DataFrame)
  (add_columns : option (list string)) : option MergeState :=
  merge_rows base_df override_df add_columns (seq 0 (nrows base_df))
             (add_new_columns override_df add_columns base_df, []).

(** [merge_csvs(base_df, override_df, add_columns)]; [None] when a call
    of [match_files] raises. *)
Definition merge_csvs (base_df override_df : DataFrame)
  (add_columns : option (list string)) : option DataFrame :=
  option_map fst (merge_state base_df override_df add_columns).

(** [unused_rows]: the override rows reported as not matched. *)
Definition unused_rows (override_df : DataFrame) (used : list nat)
  : list nat :=
  filter (fun j => negb (existsb (Nat.eqb j) used))
         (seq 0 (nrows override_df)).

(* ================================================================== *)
(** ** [re.sub] with a word-bounded literal pattern *)

Module PyRe.

Definition is_digit (a : ascii) : bool :=
  let n := nat_of_ascii a in andb (48 <=? n) (n <=? 57).

Definition is_alpha (a : ascii) : bool :=
  let n := nat_of_ascii a in
  orb (andb (65 <=? n) (n <=? 90)) (andb (97 <=? n) (n <=? 122)).

(** [\w]: a letter, a digit or the underscore. *)
Definition is_word (a : ascii) : bool :=
  orb (orb (is_alpha a) (is_digit a)) (Ascii.eqb a "_"%char).

Definition word_opt (o : option ascii) : bool :=
  match o with
  | Some a => is_word a
  | None => false
  end.

Definition head (s : string) : option ascii :=
  match s with
  | EmptyString => None
  | String a _ => Some a
  end.

(** [\b] between the character before a position and the one at it:
    exactly one of the two is a word character (the ends of the text
    count as non-word). *)
Definition boundary (prev next : option ascii) : bool :=
  xorb (word_opt prev) (word_opt next).

(** The last character of [p], or [prev] when [p] is empty. *)
Fixpoint last_char (prev : option ascii) (p : string) : option ascii :=
  match p with
  | EmptyString => prev
  | String a r => last_char (Some a) r
  end.

(** The character of [s] that follows its first [len(p)] characters. *)
Fixpoint after (p s : string) : option ascii :=
  match p, s with
  | EmptyString, _ => head s
  | String _ p', String _ s' => after p' s'
  | String _ _, EmptyString => None
  end.

(** [\b + re.escape(p) + \b] matches at the position where [s] starts,
    [prev] being the character before it. *)
Definition matches_at (p : string) (prev : option ascii) (s : string)
  : bool :=
  andb (andb (boundary prev (head s)) (PyStr.startswith p s))
       (boundary (last_char prev p) (after p s)).

(** The scan of [re.sub]: leftmost matches, not overlapping; [skip]
    counts the characters of the current match still to be dropped.  An
    empty pattern matches at every boundary and consumes nothing. *)
Fixpoint sub_go (p repl : string) (prev : option ascii) (skip : nat)
  (s : string) : string :=
  match s with
  | EmptyString =>
      if andb (skip =? 0) (matches_at p prev EmptyString) then repl
      else EmptyString
  | String c r =>
      match skip with
      | S k => sub_go p repl (Some c) k r
      | O =>
          if matches_at p prev s then
            match String.length p with
            | O => repl ++ String c (sub_go p repl (Some c) 0 r)
            | S k => repl ++ sub_go p repl (Some c) k r
            end
          else String c (sub_go p repl (Some c) 0 r)
      end
  end.

(** [f"df['{col}']"]. *)
Definition reference (col : string) : string := "df['" ++ col ++ "']".

(** [re.sub(r'\b' + re.escape(col) + r'\b', f"df['{col}']", expr)], for
    a column name without backslash: the replacement text is then free
    of escapes and is inserted as it is.  (With a backslash in the name
    [re.sub] reads the replacement as a template and may raise.  The
    program calls [re.sub] only for a name that occurs in the
    expression, see [substitute_step], and such a name holds no
    backslash, see [substituted_name_no_backslash].) *)
Definition sub (col expr : string) : string :=
  sub_go col (reference col) None 0 expr.

End PyRe.

(** The loop over [df.columns] that builds the expression of a metric. *)
Definition substitute_step (expr col : string) : string :=
  if PyStr.contains col expr then PyRe.sub col expr else expr.

Definition build_expr (cs : list string) (formula : string) : string :=
  fold_left substitute_step cs formula.

(* ================================================================== *)
(** ** [eval] on the expression fragment of the formulas

    The expressions [build_expr] produces are written with digits, the
    dot, blanks, [+ - *], the letters of the formula columns and the text
    [df['...']]: a column name is substituted only when it occurs in the
    expression, so it brings no new character.  The fragment modelled is
    what Python accepts over these characters: decimal literals, names,
    single-quoted strings, subscription, unary and binary [+ -] and [*].
    Anything else is an error.  For the same reason [df] is the only name
    of the scope of [eval] that an expression can spell (the locals
    [result_df], [metric], [formula], [expr], [col], [pattern], the
    imported modules and the builtins all have a letter that no
    expression contains), and the replacement text of [re.sub] holds no
    backslash, so it is inserted as it is. *)

Module PyEval.

Inductive token : Type :=
| TNum (q : float)
| TName (s : string)
| TStr (s : string)
| TPlus | TMinus | TStar | TLBr | TRBr.

(** *** Decimal literals *)

Definition digit_val (a : ascii) : Z := Z.of_nat (nat_of_ascii a - 48).

(** The digits [ds] read as a number in base ten, after [acc]. *)
Fixpoint digits_val (acc : Z) (ds : list ascii) : Z :=
  match ds with
  | [] => acc
  | d :: r => digits_val (10 * acc + digit_val d)%Z r
  end.

Fixpoint pow10 (n : nat) : positive :=
  match n with
  | O => 1%positive
  | S k => (10 * pow10 k)%positive
  end.

(** The double nearest to [n / d] (ties to even), for [0 <= n] and
    [0 < d]: the quotient is cut to 53 bits, or to the bits a subnormal
    number has, and rounded on the remainder; a value past the largest
    double is [inf]. *)
Definition nearest_double (n d : Z) : float :=
  if (n <=? 0)%Z then 0%float
  else
    let scaled (e : Z) : Z * Z :=
      if (0 <=? e)%Z then (n, d * 2 ^ e)%Z else (n * 2 ^ (- e), d)%Z in
    let e0 := (Z.log2 n - Z.log2 d - 53)%Z in
    let q0 := (fst (scaled e0) / snd (scaled e0))%Z in
    let e1 := if (2 ^ 53 <=? q0)%Z then (e0 + 1)%Z else e0 in
    let e := Z.max e1 (-1074) in
    let a := fst (scaled e) in
    let b := snd (scaled e) in
    let q := (a / b)%Z in
    let r := (a mod b)%Z in
    let m := if (2 * r <? b)%Z then q
             else if (b <? 2 * r)%Z then (q + 1)%Z
             else if Z.even q then q else (q + 1)%Z in
    Z.ldexp (PrimFloat.of_uint63 (Uint63.of_Z m)) e.

Fixpoint split_dot (l : list ascii) : list ascii * option (list ascii) :=
  match l with
  | [] => ([], None)
  | c :: r =>
      if Ascii.eqb c "."%char then ([], Some r)
      else let (i, f) := split_dot r in (c :: i, f)
  end.

Definition all_zero (l : list ascii) : bool :=
  forallb (fun c => Ascii.eqb c "0"%char) l.

(** The value of a literal [digits], [digits.digits], [digits.] or
    [.digits]: the double nearest to the decimal number; a lone dot is no
    literal, and an integer literal may not start with a zero unless it
    is zero.  (An integer literal is read as its double: the expressions
    met here multiply every literal with a column of doubles.) *)
Definition number_of_literal (l : list ascii) : option float :=
  match split_dot l with
  | (i, None) =>
      match i with
      | [] => None
      | c :: r =>
          if andb (Ascii.eqb c "0"%char)
                  (andb (negb (all_zero r)) (0 <? List.length r))
          then None
          else Some (nearest_double (digits_val 0 i) 1)
      end
  | (i, Some f) =>
      match i, f with
      | [], [] => None
      | _, _ =>
          Some (nearest_double (digits_val 0 (i ++ f))
                               (Zpos (pow10 (List.length f))))
      end
  end.

(** *** Lexer *)

Inductive lex_state : Type :=
| LIdle
| LNum (acc : list ascii) (dot : bool)
| LName (acc : list ascii)
| LStr (acc : list ascii).

Definition is_name_start (c : ascii) : bool :=
  orb (PyRe.is_alpha c) (Ascii.eqb c "_"%char).

Definition str_of (racc : list ascii) : string :=
  string_of_list_ascii (List.rev racc).

Definition lex_idle (c : ascii) (out : list token)
  : option (lex_state * list token) :=
  if PyRe.is_digit c then Some (LNum [c] false, out)
  else if Ascii.eqb c "."%char then Some (LNum [c] true, out)
  else if is_name_start c then Some (LName [c], out)
  else if Ascii.eqb c "'"%char then Some (LStr [], out)
  else if orb (Ascii.eqb c " "%char) (Ascii.eqb c "009"%char)
       then Some (LIdle, out)
  else if Ascii.eqb c "+"%char then Some (LIdle, TPlus :: out)
  else if Ascii.eqb c "-"%char then Some (LIdle, TMinus :: out)
  else if Ascii.eqb c "*"%char then Some (LIdle, TStar :: out)
  else if Ascii.eqb c "["%char then Some (LIdle, TLBr :: out)
  else if Ascii.eqb c "]"%char then Some (LIdle, TRBr :: out)
  else None.

Definition lex_step (st : lex_state) (out : list token) (c : ascii)
  : option (lex_state * list token) :=
  match st with
  | LIdle => lex_idle c out
  | LNum acc dot =>
      if PyRe.is_digit c then Some (LNum (c :: acc) dot, out)
      else if andb (Ascii.eqb c "."%char) (negb dot)
           then Some (LNum (c :: acc) true, out)
      else if is_name_start c then None
      else match number_of_literal (List.rev acc) with
           | Some q => lex_idle c (TNum q :: out)
           | None => None
           end
  | LName acc =>
      if PyRe.is_word c then Some (LName (c :: acc), out)
      else lex_idle c (TName (str_of acc) :: out)
  | LStr acc =>
      if Ascii.eqb c "'"%char then Some (LIdle, TStr (str_of acc) :: out)
      else if orb (Ascii.eqb c "\"%char) (Ascii.eqb c "010"%char) then None
      else Some (LStr (c :: acc), out)
  end.

Fixpoint lex_go (st : lex_state) (out : list token) (s : string)
  : option (list token) :=
  match s with
  | EmptyString =>
      match st with
      | LIdle => Some (List.rev out)
      | LNum acc _ =>
          match number_of_literal (List.rev acc) with
          | Some q => Some (List.rev (TNum q :: out))
          | None => None
          end
      | LName acc => Some (List.rev (TName (str_of acc) :: out))
      | LStr _ => None
      end
  | String c r =>
      match lex_step st out c with
      | Some (st', out') => lex_go st' out' r
      | None => None
      end
  end.

(** Adjacent string literals are one literal. *)
Fixpoint join_strings (ts : list token) : list token :=
  match ts with
  | [] => []
  | t :: r =>
      match t, join_strings r with
      | TStr a, TStr b :: r' => TStr (a ++ b) :: r'
      | _, r' => t :: r'
      end
  end.

Definition tokenize (s : string) : option (list token) :=
  option_map join_strings (lex_go LIdle [] s).

(** *** Parser *)

Inductive expr : Type :=
| ENum (q : float)
| EName (s : string)
| EStr (s : string)
| EIndex (e k : expr)
| ENeg (e : expr)
| EPos (e : expr)
| EAdd (a b : expr)
| ESub (a b : expr)
| EMul (a b : expr).

Definition parse_atom (ts : list token) : option (expr * list token) :=
  match ts with
  | TNum q :: r => Some (ENum q, r)
  | TName s :: r => Some (EName s, r)
  | TStr s :: r => Some (EStr s, r)
  | _ => None
  end.

(** Recursive descent, by precedence: sums of products of signed
    subscripted atoms.  [fuel] bounds the depth of the calls. *)
Fixpoint parse_sum (fuel : nat) (ts : list token)
  : option (expr * list token) :=
  match fuel with
  | O => None
  | S f =>
      match parse_term f ts with
      | Some (e, r) => sum_tail f e r
      | None => None
      end
  end
with sum_tail (fuel : nat) (e : expr) (ts : list token)
  : option (expr * list token) :=
  match fuel with
  | O => None
  | S f =>
      match ts with
      | TPlus :: r =>
          match parse_term f r with
          | Some (e2, r2) => sum_tail f (EAdd e e2) r2
          | None => None
          end
      | TMinus :: r =>
          match parse_term f r with
          | Some (e2, r2) => sum_tail f (ESub e e2) r2
          | None => None
          end
      | _ => Some (e, ts)
      end
  end
with parse_term (fuel : nat) (ts : list token)
  : option (expr * list token) :=
  match fuel with
  | O => None
  | S f =>
      match parse_factor f ts with
      | Some (e, r) => term_tail f e r
      | None => None
      end
  end
with term_tail (fuel : nat) (e : expr) (ts : list token)
  : option (expr * list token) :=
  match fuel with
  | O => None
  | S f =>
      match ts with
      | TStar :: r =>
          match parse_factor f r with
          | Some (e2, r2) => term_tail f (EMul e e2) r2
          | None => None
          end
      | _ => Some (e, ts)
      end
  end
with parse_factor (fuel : nat) (ts : list token)
  : option (expr * list token) :=
  match fuel with
  | O => None
  | S f =>
      match ts with
      | TMinus :: r =>
          match parse_factor f r with
          | Some (e, r2) => Some (ENeg e, r2)
          | None => None
          end
      | TPlus :: r =>
          match parse_factor f r with
          | Some (e, r2) => Some (EPos e, r2)
          | None => None
          end
      | _ =>
          match parse_atom ts with
          | Some (e, r) => index_tail f e r
          | None => None
          end
      end
  end
with index_tail (fuel : nat) (e : expr) (ts : list token)
  : option (expr * list token) :=
  match fuel with
  | O => None
  | S f =>
      match ts with
      | TLBr :: r =>
          match parse_sum f r with
          | Some (k, TRBr :: r2) => index_tail f (EIndex e k) r2
          | _ => None
          end
      | _ => Some (e, ts)
      end
  end.

(** The whole text must be one expression. *)
Definition parse (s : string) : option expr :=
  match tokenize s with
  | Some ts =>
      match parse_sum (8 * List.length ts + 8) ts with
      | Some (e, []) => Some e
      | _ => None
      end
  | None => None
  end.

End PyEval.

(* ================================================================== *)
(** ** Evaluation over a frame *)

(** Scalar arithmetic on cells: numbers are computed with in binary64,
    [pd.NA] and [nan] propagate ([pd.NA] first), a string raises. *)
Definition arith (op : float -> float -> float) (a b : value)
  : option value :=
  match a, b with
  | VStr _, _ | _, VStr _ => None
  | VNA, _ | _, VNA => Some VNA
  | VNaN, _ | _, VNaN => Some VNaN
  | VNum x, VNum y => Some (VNum (op x y))
  end.

Definition v_add : value -> value -> option value := arith PrimFloat.add.
Definition v_sub : value -> value -> option value := arith PrimFloat.sub.
Definition v_mul : value -> value -> option value := arith PrimFloat.mul.

Definition v_neg (a : value) : option value :=
  match a with
  | VStr _ => None
  | VNum x => Some (VNum (PrimFloat.opp x))
  | m => Some m
  end.

Definition v_pos (a : value) : option value :=
  match a with
  | VStr _ => None
  | m => Some m
  end.

(** What an expression evaluates to: the frame [df], a Series (a column
    or a vector computed from columns) or a scalar. *)
Inductive pyval : Type :=
| PFrame
| PSeries (vs : list value)
| PScalar (v : value).

(** [map] of a partial function; an error in one element is an error. *)
Fixpoint map_opt (f : value -> option value) (l : list value)
  : option (list value) :=
  match l with
  | [] => Some []
  | x :: r =>
      match f x, map_opt f r with
      | Some y, Some r' => Some (y :: r')
      | _, _ => None
      end
  end.

(** Element-wise on two Series over the same index. *)
Fixpoint zip_opt (f : value -> value -> option value) (l1 l2 : list value)
  : option (list value) :=
  match l1, l2 with
  | [], [] => Some []
  | x :: r1, y :: r2 =>
      match f x y, zip_opt f r1 r2 with
      | Some z, Some r' => Some (z :: r')
      | _, _ => None
      end
  | _, _ => None
  end.

(** A binary operator, broadcasting scalars over Series. *)
Definition binop (f : value -> value -> option value) (a b : pyval)
  : option pyval :=
  match a, b with
  | PScalar x, PScalar y => option_map PScalar (f x y)
  | PScalar x, PSeries ys => option_map PSeries (map_opt (f x) ys)
  | PSeries xs, PScalar y => option_map PSeries (map_opt (fun x => f x y) xs)
  | PSeries xs, PSeries ys => option_map PSeries (zip_opt f xs ys)
  | _, _ => None
  end.

Definition unop (f : value -> option value) (a : pyval) : option pyval :=
  match a with
  | PScalar x => option_map PScalar (f x)
  | PSeries xs => option_map PSeries (map_opt f xs)
  | PFrame => None
  end.

(** [base[key]]: a column of the frame by its name; every other
    subscription met here raises ([KeyError] on a Series over a
    [RangeIndex], [TypeError] on a number). *)
Definition index (df : DataFrame) (base key : pyval) : option pyval :=
  match base, key with
  | PFrame, PScalar (VStr k) => option_map PSeries (col_get (cols df) k)
  | _, _ => None
  end.

(** The value of an expression where [df] is the only name bound ([None]
    for the [NameError], [KeyError] or [TypeError] it raises). *)
Fixpoint eval_expr (df : DataFrame) (e : PyEval.expr) : option pyval :=
  match e with
  | PyEval.ENum q => Some (PScalar (VNum q))
  | PyEval.EName s => if String.eqb s "df" then Some PFrame else None
  | PyEval.EStr s => Some (PScalar (VStr s))
  | PyEval.EIndex b k =>
      match eval_expr df b, eval_expr df k with
      | Some vb, Some vk => index df vb vk
      | _, _ => None
      end
  | PyEval.ENeg a =>
      match eval_expr df a with Some v => unop v_neg v | None => None end
  | PyEval.EPos a =>
      match eval_expr df a with Some v => unop v_pos v | None => None end
  | PyEval.EAdd a b =>
      match eval_expr df a, eval_expr df b with
      | Some x, Some y => binop v_add x y
      | _, _ => None
      end
  | PyEval.ESub a b =>
      match eval_expr df a, eval_expr df b with
      | Some x, Some y => binop v_sub x y
      | _, _ => None
      end
  | PyEval.EMul a b =>
      match eval_expr df a, eval_expr df b with
      | Some x, Some y => binop v_mul x y
      | _, _ => None
      end
  end.

(** [eval(expr)] in the scope of [recalculate_qmood_metrics]. *)
Definition py_eval (df : DataFrame) (s : string) : option pyval :=
  match PyEval.parse s with
  | Some e => eval_expr df e
  | None => None
  end.

(* ================================================================== *)
(** ** Metric recalculator *)

Definition QMOOD_FORMULAS : list (string * string) :=
  [ ("Reusability", "-0.25 * DCC + 0.25 * lcc + 0.5 * CIS + 0.5 * DSC");
    ("Flexibility", "0.25 * DAM - 0.25 * DCC + 0.5 * MOA + 0.5 * NOP");
    ("Understandability",
     "-0.33 * ANA + 0.33 * DAM - 0.33 * DCC + 0.33 * lcc - 0.33 * NOP - 0.33 * WMC + - 0.33 * DSC");
    ("Functionality",
     "0.12 * lcc + 0.22 * NOP + 0.22 * CIS + 0.22 * DSC + 0.22 * NOH");
    ("Extendibility", "0.5 * ANA - 0.5 * DCC + 0.5 * MFA + 0.5 * NOP");
    ("Effectiveness",
     "0.2 * ANA + 0.2 * DAM + 0.2 * MOA + 0.2 * MFA + 0.2 * NOP") ].

(** [result_df[metric] = v]: a Series over the index of the frame
    becomes the column, a scalar fills it; a frame is refused. *)
Definition assign (result_df : DataFrame) (metric : string) (v : pyval)
  : option DataFrame :=
  match v with
  | PSeries vs => Some (set_col result_df metric vs)
  | PScalar x => Some (set_col_scalar result_df metric x)
  | PFrame => None
  end.

(** The body of [try]: the expression is built, evaluated and stored. *)
Definition try_metric (df result_df : DataFrame) (metric formula : string)
  : option DataFrame :=
  match py_eval df (build_expr (columns df) formula) with
  | Some v => assign result_df metric v
  | None => None
  end.

(** The handler: an existing column is kept, a missing one is set to
    [0.0]. *)
Definition on_error (result_df : DataFrame) (metric : string) : DataFrame :=
  if mem metric (columns result_df) then result_df
  else set_col_scalar result_df metric (VNum 0%float).

(** One turn of the loop over [QMOOD_FORMULAS.items()]. *)
Definition recalc_metric (df result_df : DataFrame) (mf : string * string)
  : DataFrame :=
  match try_metric df result_df (fst mf) (snd mf) with
  | Some r => r
  | None => on_error result_df (fst mf)
  end.

(** [recalculate_qmood_metrics(df)]. *)
Definition recalculate_qmood_metrics (df : DataFrame) : DataFrame :=
  fold_left (recalc_metric df) QMOOD_FORMULAS df.

(* ================================================================== *)
(** ** The merge, row by row

    What the specification says of the merged table, written on rows:
    these definitions are compared with [merge_csvs] below. *)

(** [r[k] = v] on a row that has the label [k]. *)
Fixpoint row_set (r : Row) (k : string) (v : value) : Row :=
  match r with
  | [] => []
  | (c, x) :: r' =>
      if String.eqb c k then (c, v) :: r' else (c, x) :: row_set r' k v
  end.

(** The override row [orow] written over the row [r], column by column
    of the override table. *)
Fixpoint spec_override_row (base_df : DataFrame)
  (add_columns : option (list string)) (orow : Row) (ocols : list string)
  (r : Row) : Row :=
  match ocols with
  | [] => r
  | col :: rest =>
      match target_col base_df add_columns col, row_get orow col with
      | Some t, Some v =>
          spec_override_row base_df add_columns orow rest (row_set r t v)
      | _, _ => spec_override_row base_df add_columns orow rest r
      end
  end.

(** The matcher says yes. *)
Definition is_match (row1 row2 : Row) : bool :=
  match match_files row1 row2 with
  | Some true => true
  | _ => false
  end.

(** The first override row, in the order of the table, that the matcher
    accepts for base row [i]. *)
Definition spec_first_match (base_df override_df : DataFrame) (i : nat)
  : option nat :=
  find (fun j => is_match (row_at base_df i) (row_at override_df j))
       (seq 0 (nrows override_df)).

(** Row [i] of the merged table according to the specification: the base
    row with its empty added columns, overridden by its first match. *)
Definition spec_merged_row (base_df override_df : DataFrame)
  (add_columns : option (list string)) (i : nat) : Row :=
  let r := row_at (add_new_columns override_df add_columns base_df) i in
  match spec_first_match base_df override_df i with
  | Some j =>
      spec_override_row base_df add_columns (row_at override_df j)
                        (columns override_df) r
  | None => r
  end.

(** The matcher raises on no pair of a base row and an override row. *)
Definition matcher_total (base_df override_df : DataFrame) : Prop :=
  forall i j, i < nrows base_df -> j < nrows override_df ->
    match_files (row_at base_df i) (row_at override_df j) <> None.

(** What the merge loops keep of the result frame. *)
Definition same_shape (a b : DataFrame) : Prop :=
  nrows a = nrows b /\ columns a = columns b.

(** The columns the merge adds, in the order they are added: those of
    [add_columns] that the override table has and the base table lacks. *)
Definition spec_added_columns (base_df override_df : DataFrame)
  (add_columns : option (list string)) : list string :=
  match add_columns with
  | None => []
  | Some l =>
      fold_left
        (fun acc col =>
           if andb (mem col (columns override_df))
                   (negb (mem col (columns base_df ++ acc)))
           then (acc ++ [col])%list else acc)
        l []
  end.

(** An empty column of the merged table. *)
Definition empty_column (n : nat) (c : string) : string * list value :=
  (c, repeat VNA n).

(** The base table followed by its empty added columns. *)
Definition spec_base_with_added (base_df override_df : DataFrame)
  (add_columns : option (list string)) : DataFrame :=
  mkDF (nrows base_df)
       (cols base_df ++
        map (empty_column (nrows base_df))
            (spec_added_columns base_df override_df add_columns)).

(* ================================================================== *)
(** ** Sample tables *)

(** An integer cell. *)
Definition num (z : Z) : value :=
  VNum (if (z <? 0)%Z then PrimFloat.opp (PyEval.nearest_double (- z) 1)
        else PyEval.nearest_double z 1).

Module Examples.

(** A base table whose only [Name] cell is empty, and an override table
    with a [file] column. *)
Definition base_nan : DataFrame := mkDF 1 [("Name", [VNaN])].
Definition override_file : DataFrame :=
  mkDF 1 [("file", [VStr "Foo.java"])].

(** Rows whose class names differ and whose files agree. *)
Definition row_class_a : Row :=
  [("ClassNames", VStr "A"); ("Name", VStr "src/Foo.java")].
Definition row_class_b : Row :=
  [("class", VStr "B"); ("file", VStr "foo.java")].

(** Rows with equal class names. *)
Definition row_class_c : Row :=
  [("ClassNames", VStr "pkg.Foo"); ("Name", VStr "src/Foo.java")].
Definition row_class_d : Row :=
  [("class", VStr "pkg.Foo"); ("file", VStr "Other.java")].

(** Three base rows, the first and the last with the same class; three
    override rows, the first two for that class. *)
Definition base3 : DataFrame :=
  mkDF 3 [("Name", [VStr "src/Foo.java"; VStr "Bar.java"; VStr "lib/foo.java"]);
          ("DCC", [num 2; num 7; num 4])].
Definition override3 : DataFrame :=
  mkDF 3 [("file", [VStr "x/foo.java"; VStr "FOO"; VStr "Qux.java"]);
          ("dcc", [num 5; num 9; num 1]);
          ("New", [VStr "a"; VStr "b"; VStr "c"])].
Definition merged3 : DataFrame :=
  mkDF 3 [("Name", [VStr "src/Foo.java"; VStr "Bar.java"; VStr "lib/foo.java"]);
          ("DCC", [num 5; num 7; num 5]);
          ("New", [VStr "a"; VNA; VStr "a"])].

(** An override table that matches no row of [base3]. *)
Definition override_other : DataFrame :=
  mkDF 2 [("file", [VStr "Qux.java"; VStr "Quux.java"]);
          ("New", [VStr "a"; VStr "b"])].

Definition merged_other : DataFrame :=
mkDF 3 [("Name", [VStr "src/Foo.java"; VStr "Bar.java"; VStr "lib/foo.java"]);
        ("DCC", [num 2; num 7; num 4]);
        ("New", [VNA; VNA; VNA])].

End Examples.

(* ================================================================== *)
(** ** The recalculation, metric by metric

    What the specification says of one metric, to be compared with
    [recalculate_qmood_metrics] below. *)

(** A column of zeros. *)
Definition zeros (n : nat) : list value := repeat (VNum 0%float) n.

(** The fallback of a metric: its values in the input table, or zeros. *)
Definition spec_fallback (df : DataFrame) (metric : string) : list value :=
  match col_get (cols df) metric with
  | Some old => old
  | None => zeros (nrows df)
  end.

(** The column of [metric] after the recalculation: the value of its
    formula over [df], or the fallback when that fails. *)
Definition spec_metric_column (df : DataFrame) (metric formula : string)
  : list value :=
  match py_eval df (build_expr (columns df) formula) with
  | Some (PSeries vs) => vs
  | Some (PScalar x) => repeat x (nrows df)
  | Some PFrame | None => spec_fallback df metric
  end.

(** [QMOOD_METRICS]. *)
Definition QMOOD_METRICS : list string :=
  [ "Reusability"; "Flexibility"; "Understandability"; "Functionality";
    "Extendibility"; "Effectiveness" ].

(** The [try] block of a metric raises: the expression does not
    evaluate, or its value cannot be stored as a column. *)
Definition try_raises (df : DataFrame) (formula : string) : bool :=
  match py_eval df (build_expr (columns df) formula) with
  | Some (PSeries _) | Some (PScalar _) => false
  | Some PFrame | None => true
  end.

(* ================================================================== *)
(** ** Texts that cannot name a metric

    Each metric name has a letter that occurs neither in the formulas nor
    in the text [df['...']]: R, x, U, u or E.  A text without these
    letters contains no metric name. *)

Definition metric_letter (c : ascii) : bool :=
  existsb (Ascii.eqb c) ["R"; "x"; "U"; "u"; "E"]%char.

Fixpoint plain (s : string) : bool :=
  match s with
  | EmptyString => true
  | String c r => andb (negb (metric_letter c)) (plain r)
  end.

Definition plain_chars (l : list ascii) : bool :=
  forallb (fun c => negb (metric_letter c)) l.

Definition plain_token (t : PyEval.token) : bool :=
  match t with
  | PyEval.TName s | PyEval.TStr s => plain s
  | _ => true
  end.

Fixpoint plain_expr (e : PyEval.expr) : bool :=
  match e with
  | PyEval.ENum _ => true
  | PyEval.EName s | PyEval.EStr s => plain s
  | PyEval.ENeg a | PyEval.EPos a => plain_expr a
  | PyEval.EIndex a b | PyEval.EAdd a b | PyEval.ESub a b
  | PyEval.EMul a b => andb (plain_expr a) (plain_expr b)
  end.

Definition plain_state (st : PyEval.lex_state) : bool :=
  match st with
  | PyEval.LName acc | PyEval.LStr acc => plain_chars acc
  | _ => true
  end.

(* ================================================================== *)
(** ** Texts as words and separators

    Substitution on whole words, as the specification has it, to be
    compared with [PyRe.sub]: a text is cut into its words (runs of word
    characters) and what separates them, and a column name is replaced
    where it is one of the words. *)

Inductive piece : Type :=
| W (w : string)      (* a word *)
| N (s : string).     (* a separator: no word character *)

Definition piece_text (p : piece) : string :=
  match p with W w => w | N s => s end.

Fixpoint flatten (ps : list piece) : string :=
  match ps with
  | [] => EmptyString
  | p :: r => piece_text p ++ flatten r
  end.

Fixpoint all_chars (f : ascii -> bool) (s : string) : bool :=
  match s with
  | EmptyString => true
  | String c r => andb (f c) (all_chars f r)
  end.

Definition nonempty (s : string) : bool :=
  match s with EmptyString => false | String _ _ => true end.

(** A word: one word character at least, nothing else. *)
Definition is_word_string (w : string) : bool :=
  andb (nonempty w) (all_chars PyRe.is_word w).

(** A separator: one character at least, no word character. *)
Definition is_separator (s : string) : bool :=
  andb (nonempty s) (all_chars (fun c => negb (PyRe.is_word c)) s).

(** The pieces are the words and separators of their text: no two words
    are adjacent ([after_word] tells that a word precedes). *)
Fixpoint segmented (after_word : bool) (ps : list piece) : bool :=
  match ps with
  | [] => true
  | W w :: r => andb (negb after_word) (andb (is_word_string w) (segmented true r))
  | N s :: r => andb (is_separator s) (segmented false r)
  end.

(** [df['col']], in pieces. *)
Definition reference_pieces (col : string) : list piece :=
  [W "df"; N "['"; W col; N "']"].

(** Substitution on whole words: the words equal to [col] become
    references to the column, everything else stays. *)
Definition spec_substitute_piece (col : string) (p : piece) : list piece :=
  match p with
  | W w => if String.eqb w col then reference_pieces col else [W w]
  | N s => [N s]
  end.

Definition spec_substitute (col : string) (ps : list piece) : list piece :=
  flat_map (spec_substitute_piece col) ps.

(** A Python identifier: a word that does not start with a digit. *)
Definition is_identifier (c : string) : bool :=
  match c with
  | EmptyString => false
  | String a _ => andb (negb (PyRe.is_digit a)) (is_word_string c)
  end.

(** The words and separators of a text. *)
Fixpoint split_words (s : string) : list piece :=
  match s with
  | EmptyString => []
  | String c r =>
      match PyRe.is_word c, split_words r with
      | true, W w :: ps => W (String c w) :: ps
      | true, ps => W (String c EmptyString) :: ps
      | false, N t :: ps => N (String c t) :: ps
      | false, ps => N (String c EmptyString) :: ps
      end
  end.

(** The text in which the words selected by [chosen] have become
    references to columns. *)
Definition spec_render_piece (chosen : string -> bool) (p : piece)
  : list piece :=
  match p with
  | W w => if chosen w then reference_pieces w else [W w]
  | N s => [N s]
  end.

Definition spec_render (chosen : string -> bool) (ps : list piece)
  : list piece :=
  flat_map (spec_render_piece chosen) ps.

(** The characters an expression is written with: those of the formulas
    and of the text [df['']]. *)
Definition alphabet : list ascii :=
  list_ascii_of_string
    (fold_right (fun mf acc => snd mf ++ acc) "df['']" QMOOD_FORMULAS).

Definition in_alphabet (c : ascii) : bool := existsb (Ascii.eqb c) alphabet.

(** A column name that substitution handles as the formulas expect: an
    identifier other than [df], or a name with a character that no
    expression contains. *)
Definition harmless (c : string) : bool :=
  orb (andb (is_identifier c) (negb (String.eqb c "df")))
      (negb (all_chars in_alphabet c)).

(* ================================================================== *)
(** ** Expressions over numeric columns, row by row *)

(** The expressions the formulas turn into: numbers and columns of [df]
    under [+ - *]. *)
Fixpoint linear (e : PyEval.expr) : bool :=
  match e with
  | PyEval.ENum _ => true
  | PyEval.EIndex (PyEval.EName n) (PyEval.EStr _) => String.eqb n "df"
  | PyEval.ENeg a | PyEval.EPos a => linear a
  | PyEval.EAdd a b | PyEval.ESub a b | PyEval.EMul a b =>
      andb (linear a) (linear b)
  | _ => false
  end.

(** The columns an expression refers to. *)
Fixpoint column_refs (e : PyEval.expr) : list string :=
  match e with
  | PyEval.EIndex _ (PyEval.EStr c) => [c]
  | PyEval.ENeg a | PyEval.EPos a => column_refs a
  | PyEval.EAdd a b | PyEval.ESub a b | PyEval.EMul a b =>
      (column_refs a ++ column_refs b)%list
  | _ => []
  end.

Definition has_column (e : PyEval.expr) : bool :=
  match column_refs e with [] => false | _ :: _ => true end.

(** The value of a linear expression on one row, [env] giving the cells
    of the row. *)
Fixpoint row_value (env : string -> float) (e : PyEval.expr) : float :=
  match e with
  | PyEval.ENum q => q
  | PyEval.EIndex _ (PyEval.EStr c) => env c
  | PyEval.ENeg a => PrimFloat.opp (row_value env a)
  | PyEval.EPos a => row_value env a
  | PyEval.EAdd a b => PrimFloat.add (row_value env a) (row_value env b)
  | PyEval.ESub a b => PrimFloat.sub (row_value env a) (row_value env b)
  | PyEval.EMul a b => PrimFloat.mul (row_value env a) (row_value env b)
  | _ => 0%float
  end.

(** A Series given by its cell at each position. *)
Definition tabulate (f : nat -> value) (n : nat) : list value :=
  map f (seq 0 n).

(** The column [c] of [df] holds the numbers [qs], one per row. *)
Definition numeric_column (df : DataFrame) (c : string) (qs : list float)
  : Prop :=
  col_get (cols df) c = Some (map VNum qs) /\ List.length qs = nrows df.

(** The formulas on the numbers of one row, in binary64: the literals
    are the doubles nearest to the decimal coefficients, and the
    operations are done from left to right, each one rounded. *)

(** Understandability as the specification gives it:
    -0.33 ANA + 0.33 DAM - 0.33 DCC + 0.33 lcc - 0.33 NOP - 0.33 WMC
    - 0.33 DSC, the last term being added with its coefficient negated,
    as the formula of the program has it. *)
Definition spec_understandability (ana dam dcc lcc nop wmc dsc : float)
  : float :=
  (- 0.33 * ana + 0.33 * dam - 0.33 * dcc + 0.33 * lcc - 0.33 * nop
   - 0.33 * wmc + - 0.33 * dsc)%float.

(** Flexibility as the specification gives it:
    0.25 DAM - 0.25 DCC + 0.5 MOA + 0.5 NOP. *)
Definition spec_flexibility (dam dcc moa nop : float) : float :=
  (0.25 * dam - 0.25 * dcc + 0.5 * moa + 0.5 * nop)%float.

(** The formula of a metric. *)
Fixpoint formula_of (formulas : list (string * string)) (metric : string)
  : string :=
  match formulas with
  | [] => EmptyString
  | (m, f) :: r => if String.eqb m metric then f else formula_of r metric
  end.

(** The value of a linear expression over [n] rows: a Series when it
    refers to a column, a number otherwise. *)
Definition pack (series : bool) (cell : nat -> float) (n : nat) : pyval :=
  if series then PSeries (tabulate (fun i => VNum (cell i)) n)
  else PScalar (VNum (cell 0)).

(** The words of a formula are columns it needs or words that are no
    harmless column name (the digits of its coefficients). *)
Definition words_accounted (needed : list string) (ps : list piece) : bool :=
  forallb (fun p => match p with
                    | W w => orb (mem w needed) (negb (harmless w))
                    | N _ => true
                    end) ps.

(** A reference to a column, as an expression. *)
Definition column (c : string) : PyEval.expr :=
  PyEval.EIndex (PyEval.EName "df") (PyEval.EStr c).

(** A coefficient, in hundredths: the double nearest to it. *)
Definition coef (hundredths : Z) : PyEval.expr :=
  PyEval.ENum (PyEval.nearest_double hundredths 100).

(** The expression of Understandability once its seven columns are
    substituted, as Python reads it (the last term is added, its
    coefficient negated). *)
Definition understandability_expr : PyEval.expr :=
  PyEval.EAdd
    (PyEval.ESub
      (PyEval.ESub
        (PyEval.EAdd
          (PyEval.ESub
            (PyEval.EAdd
              (PyEval.EMul (PyEval.ENeg (coef 33)) (column "ANA"))
              (PyEval.EMul (coef 33) (column "DAM")))
            (PyEval.EMul (coef 33) (column "DCC")))
          (PyEval.EMul (coef 33) (column "lcc")))
        (PyEval.EMul (coef 33) (column "NOP")))
      (PyEval.EMul (coef 33) (column "WMC")))
    (PyEval.EMul (PyEval.ENeg (coef 33)) (column "DSC")).

(** The expression of Flexibility once its four columns are
    substituted. *)
Definition flexibility_expr : PyEval.expr :=
  PyEval.EAdd
    (PyEval.EAdd
      (PyEval.ESub
        (PyEval.EMul (coef 25) (column "DAM"))
        (PyEval.EMul (coef 25) (column "DCC")))
      (PyEval.EMul (coef 50) (column "MOA")))
    (PyEval.EMul (coef 50) (column "NOP")).

(** The columns the formula of Understandability needs. *)
Definition understandability_columns : list string :=
  ["ANA"; "DAM"; "DCC"; "lcc"; "NOP"; "WMC"; "DSC"].

(** The columns the formula of Flexibility needs. *)
Definition flexibility_columns : list string :=
  ["DAM"; "DCC"; "MOA"; "NOP"].

Module MetricExamples.

(** One row with the seven columns of Understandability, all numeric. *)
Definition seven : DataFrame :=
mkDF 1 [("ANA", [num 1]); ("DAM", [num 0]); ("DCC", [num 0]);
        ("lcc", [num 0]); ("NOP", [num 0]); ("WMC", [num 0]);
        ("DSC", [num 0])].

(** The same with one more numeric column, named [0]. *)
Definition seven_and_zero : DataFrame :=
mkDF 1 (cols seven ++ [("0", [num 9])]).

(** The numbers of [seven], by column. *)
Definition seven_numbers (c : string) : list float :=
if String.eqb c "ANA" then [1%float] else [0%float].

(** Two rows with a column [MOA] and a column [MOA2]. *)
Definition moa : DataFrame :=
mkDF 2 [("DAM", [num 4; num 0]); ("DCC", [num 0; num 4]);
        ("MOA", [num 2; num 6]); ("MOA2", [num 100; num 200]);
        ("NOP", [num 0; num 2])].

Definition moa_numbers (c : string) : list float :=
match col_get (cols moa) c with
| Some vs => map (fun v => match v with VNum q => q | _ => 0%float end) vs
| None => []
end.

End MetricExamples.

(** No metric name starts with the word [w]. *)
Definition starts_no_metric (w : string) : bool :=
  forallb (fun m => negb (PyStr.startswith w m)) QMOOD_METRICS.

Definition words_start_no_metric (ps : list piece) : bool :=
  forallb (fun p => match p with
                    | W w => starts_no_metric w
                    | N _ => true
                    end) ps.

(* ================================================================== *)
(** ** The other formulas, as the specification gives them *)

(** Reusability: -0.25 DCC + 0.25 lcc + 0.5 CIS + 0.5 DSC. *)
Definition spec_reusability (dcc lcc cis dsc : float) : float :=
  (- 0.25 * dcc + 0.25 * lcc + 0.5 * cis + 0.5 * dsc)%float.

(** Functionality: 0.12 lcc + 0.22 NOP + 0.22 CIS + 0.22 DSC + 0.22 NOH. *)
Definition spec_functionality (lcc nop cis dsc noh : float) : float :=
  (0.12 * lcc + 0.22 * nop + 0.22 * cis + 0.22 * dsc + 0.22 * noh)%float.

(** Extendibility: 0.5 ANA - 0.5 DCC + 0.5 MFA + 0.5 NOP. *)
Definition spec_extendibility (ana dcc mfa nop : float) : float :=
  (0.5 * ana - 0.5 * dcc + 0.5 * mfa + 0.5 * nop)%float.

(** Effectiveness: 0.2 ANA + 0.2 DAM + 0.2 MOA + 0.2 MFA + 0.2 NOP. *)
Definition spec_effectiveness (ana dam moa mfa nop : float) : float :=
  (0.2 * ana + 0.2 * dam + 0.2 * moa + 0.2 * mfa + 0.2 * nop)%float.

(** A coefficient, in tenths. *)
Definition tenths (t : Z) : PyEval.expr :=
  PyEval.ENum (PyEval.nearest_double t 10).

(** A product [coefficient * column]. *)
Definition term (k : PyEval.expr) (c : string) : PyEval.expr :=
  PyEval.EMul k (column c).

Definition reusability_columns : list string := ["DCC"; "lcc"; "CIS"; "DSC"].

Definition reusability_expr : PyEval.expr :=
  PyEval.EAdd
    (PyEval.EAdd
      (PyEval.EAdd (term (PyEval.ENeg (coef 25)) "DCC") (term (coef 25) "lcc"))
      (term (tenths 5) "CIS"))
    (term (tenths 5) "DSC").

Definition functionality_columns : list string :=
  ["lcc"; "NOP"; "CIS"; "DSC"; "NOH"].

Definition functionality_expr : PyEval.expr :=
  PyEval.EAdd
    (PyEval.EAdd
      (PyEval.EAdd
        (PyEval.EAdd (term (coef 12) "lcc") (term (coef 22) "NOP"))
        (term (coef 22) "CIS"))
      (term (coef 22) "DSC"))
    (term (coef 22) "NOH").

Definition extendibility_columns : list string := ["ANA"; "DCC"; "MFA"; "NOP"].

Definition extendibility_expr : PyEval.expr :=
  PyEval.EAdd
    (PyEval.EAdd
      (PyEval.ESub (term (tenths 5) "ANA") (term (tenths 5) "DCC"))
      (term (tenths 5) "MFA"))
    (term (tenths 5) "NOP").

Definition effectiveness_columns : list string :=
  ["ANA"; "DAM"; "MOA"; "MFA"; "NOP"].

Definition effectiveness_expr : PyEval.expr :=
  PyEval.EAdd
    (PyEval.EAdd
      (PyEval.EAdd
        (PyEval.EAdd (term (tenths 2) "ANA") (term (tenths 2) "DAM"))
        (term (tenths 2) "MOA"))
      (term (tenths 2) "MFA"))
    (term (tenths 2) "NOP").

(** The numbers of a column, read off a table. *)
Definition numbers_of (df : DataFrame) (c : string) : list float :=
  match col_get (cols df) c with
  | Some vs => map (fun v => match v with VNum q => q | _ => 0%float end) vs
  | None => []
  end.

Module MoreExamples.

(** Two classes with all the columns the six formulas need. *)
Definition full : DataFrame :=
mkDF 2 [("Name", [VStr "src/Foo.java"; VStr "src/Bar.java"]);
        ("ANA", [num 1; num 0]); ("DAM", [num 2; num 1]);
        ("DCC", [num 5; num 3]); ("lcc", [num 1; num 4]);
        ("CIS", [num 3; num 2]); ("DSC", [num 1; num 1]);
        ("MOA", [num 2; num 0]); ("MFA", [num 0; num 1]);
        ("NOP", [num 4; num 2]); ("NOH", [num 1; num 1]);
        ("WMC", [num 7; num 9])].

End MoreExamples.

(* ================================================================== *)
(** ** Formulas with a column missing *)

(** The columns a formula refers to: its words that are identifiers. *)
Definition formula_columns (formula : string) : list string :=
  flat_map (fun p => match p with
                     | W w => if is_identifier w then [w] else []
                     | N _ => []
                     end)
           (split_words formula).

(** The names an expression mentions. *)
Fixpoint expr_names (e : PyEval.expr) : list string :=
  match e with
  | PyEval.ENum _ | PyEval.EStr _ => []
  | PyEval.EName s => [s]
  | PyEval.ENeg a | PyEval.EPos a => expr_names a
  | PyEval.EIndex a b | PyEval.EAdd a b | PyEval.ESub a b
  | PyEval.EMul a b => (expr_names a ++ expr_names b)%list
  end.

(** The expression mentions a name other than [df]. *)
Definition unbound (e : PyEval.expr) : bool :=
  existsb (fun s => negb (String.eqb s "df")) (expr_names e).

(** The sublists of a list. *)
Fixpoint subsets (l : list string) : list (list string) :=
  match l with
  | [] => [[]]
  | x :: r => (map (cons x) (subsets r) ++ subsets r)%list
  end.

(** The text of the formula in which the columns [present] are
    substituted is no expression, or mentions an unbound name. *)
Definition raises_with (present : list string) (ps : list piece) : bool :=
  match PyEval.parse (flatten (spec_render (fun w => mem w present) ps)) with
  | Some e => unbound e
  | None => true
  end.

(** Whatever proper part of its columns is substituted, the formula does
    not evaluate. *)
Definition raises_unless_complete (formula : string) : bool :=
  forallb (fun present =>
             orb (forallb (fun w => mem w present) (formula_columns formula))
                 (raises_with present (split_words formula)))
          (subsets (formula_columns formula)).

(* ================================================================== *)
(** ** Cells the matcher can read *)

Definition is_str (v : value) : bool :=
  match v with VStr _ => true | _ => false end.

Definition not_na (v : value) : bool :=
  match v with VNA => false | _ => true end.

(** Every cell of the column [c] of [df], if there is such a column,
    satisfies [p]. *)
Definition column_all (p : value -> bool) (df : DataFrame) (c : string)
  : Prop :=
  forall vs, col_get (cols df) c = Some vs -> Forall (fun v => p v = true) vs.

Module NameExamples.

(** A base table and an override table with class names and paths. *)
Definition base : DataFrame :=
mkDF 2 [("ClassNames", [VStr "pkg.Foo"; VNaN]);
        ("Name", [VStr "src/Foo.java"; VStr "src/Bar.java"]);
        ("DCC", [num 2; num 7])].

Definition override : DataFrame :=
mkDF 2 [("class", [VStr "pkg.Other"; VStr "pkg.Foo"]);
        ("file", [VStr "bar.java"; VStr "x/Foo.java"]);
        ("DCC", [num 5; num 9])].

End NameExamples.

(** The text has no slash. *)
Definition no_slash (s : string) : bool :=
  all_chars (fun c => negb (Ascii.eqb c "/"%char)) s.

(* ================================================================== *)
(** ** The command line: the list of columns to add *)

(** [s.split(sep)] for a one-character separator: as many pieces as
    separators, plus one. *)
Fixpoint split_on (sep : ascii) (s : string) : list string :=
  match s with
  | EmptyString => [EmptyString]
  | String c r =>
      if Ascii.eqb c sep then EmptyString :: split_on sep r
      else match split_on sep r with
           | h :: t => String c h :: t
           | [] => [String c EmptyString]
           end
  end.

(** ASCII white space, as [str.isspace] has it: tab, line feed, vertical
    tab, form feed, carriage return, the four separators 28 to 31 and
    the blank. *)
Definition is_space (c : ascii) : bool :=
  let n := nat_of_ascii c in
  orb (andb (9 <=? n) (n <=? 13)) (andb (28 <=? n) (n <=? 32)).

(** [s.lstrip()]. *)
Fixpoint lstrip (s : string) : string :=
  match s with
  | EmptyString => EmptyString
  | String c r => if is_space c then lstrip r else s
  end.

(** [s.strip()]. *)
Definition strip (s : string) : string :=
  PyStr.rev (lstrip (PyStr.rev (lstrip s))).

(** The [add_columns] of [main]: [None] when the option is absent or
    empty, else the stripped pieces between the commas. *)
Definition parse_add_columns (arg : option string) : option (list string) :=
  match arg with
  | None => None
  | Some EmptyString => None
  | Some s => Some (map strip (split_on ","%char s))
  end.

(** [sep.join(l)]. *)
Fixpoint join (sep : string) (l : list string) : string :=
  match l with
  | [] => EmptyString
  | [x] => x
  | x :: r => x ++ sep ++ join sep r
  end.

Definition no_comma (s : string) : bool :=
  all_chars (fun c => negb (Ascii.eqb c ","%char)) s.

(** A name with no white space at either end. *)
Definition trimmed (s : string) : Prop :=
  lstrip s = s /\ lstrip (PyStr.rev s) = PyStr.rev s.

(** A name with white space around it. *)
Definition padded (item : string * string * string) : string :=
  match item with (pre, name, post) => pre ++ name ++ post end.

Definition item_name (item : string * string * string) : string :=
  match item with (_, name, _) => name end.

(** The name is trimmed and without comma, what surrounds it is white
    space. *)
Definition well_padded (item : string * string * string) : Prop :=
  match item with
  | (pre, name, post) =>
      all_chars is_space pre = true /\ all_chars is_space post = true /\
      trimmed name /\ no_comma name = true
  end.

(** What [main] does between reading the two tables and writing the
    result; [None] when an exception reaches its handler. *)
Definition main_core (base_df override_df : DataFrame) (arg : option string)
  : option DataFrame :=
  match merge_csvs base_df override_df (parse_add_columns arg) with
  | Some merged_df => Some (recalculate_qmood_metrics merged_df)
  | None => None
  end.

Module RunExamples.

(** The example of the specification: one class, whose DCC the override
    table replaces. *)
Definition base : DataFrame :=
mkDF 1 [("Name", [VStr "Foo.java"]); ("DCC", [num 2]); ("lcc", [num 1]);
        ("CIS", [num 3]); ("DSC", [num 1])].

Definition override : DataFrame :=
mkDF 1 [("file", [VStr "foo.java"]); ("DCC", [num 5])].

End RunExamples.

Module CaseExamples.

(** An override table with two columns for the base column [DCC]. *)
Definition base : DataFrame :=
mkDF 1 [("Name", [VStr "Foo.java"]); ("DCC", [num 2])].

Definition override : DataFrame :=
mkDF 1 [("file", [VStr "foo.java"]); ("dcc", [num 5]); ("Dcc", [num 9])].

Definition merged : DataFrame :=
mkDF 1 [("Name", [VStr "Foo.java"]); ("DCC", [num 9])].

End CaseExamples.

(* ================================================================== *)
(** ** The expression of a formula, turn by turn *)

(** The expression of [formula] when the loop over the columns has met
    the columns [before]: the words of the formula that are columns of
    the formula ([formula_columns]) and are among [before] have become
    references. *)
Definition expr_after (formula : string) (before : list string) : string :=
  flatten
    (spec_render
       (fun w => andb (mem w before) (mem w (formula_columns formula)))
       (split_words formula)).

(** The turn of a column [c] that is no column of the formula leaves the
    expression as it is, [before] being the columns met before [c]. *)
Definition turn_keeps (formula : string) (before : list string) (c : string)
  : Prop :=
  mem c (formula_columns formula) = false ->
  substitute_step (expr_after formula before) c = expr_after formula before.

(** The same for every column of [cs] at its turn, as a test: a column
    of [cs] is a column of the formula, or it leaves the expression as
    it is. *)
Fixpoint undisturbed_from (formula : string) (before cs : list string)
  : bool :=
  match cs with
  | [] => true
  | c :: r =>
      andb (orb (mem c (formula_columns formula))
                (String.eqb (substitute_step (expr_after formula before) c)
                            (expr_after formula before)))
           (undisturbed_from formula (before ++ [c]) r)
  end.

Definition undisturbed (formula : string) (cs : list string) : bool :=
  undisturbed_from formula [] cs.

(** The expression of [formula] once all its columns are substituted,
    parsed. *)
Definition formula_expr (formula : string) : option PyEval.expr :=
  PyEval.parse (expr_after formula (formula_columns formula)).

(** No word of the formula, and not the word [df], starts with the
    column [c] and goes on. *)
Definition no_extension (formula c : string) : bool :=
  andb (negb (PyStr.startswith c "df"))
       (forallb (fun p => match p with
                          | W w => orb (negb (PyStr.startswith c w))
                                       (String.eqb w c)
                          | N _ => true
                          end)
                (split_words formula)).

(** ** ASCII names *)

(** The text is ASCII: every byte is below 128. *)
Definition is_ascii (s : string) : bool :=
  all_chars (fun c => nat_of_ascii c <? 128) s.

Module TurnExamples.

(** The seven columns of Understandability, one row, among columns that
    are no words of the formula: [DCC.1], [2], [Class Name], and a
    metric column. *)
Definition seven_among_others : DataFrame :=
mkDF 1 [("Class Name", [VStr "Foo"]); ("ANA", [num 0]); ("DAM", [num 0]);
        ("DCC", [num 0]); ("DCC.1", [num 8]); ("lcc", [num 3]);
        ("2", [num 9]); ("NOP", [num 0]); ("WMC", [num 1]);
        ("DSC", [num 2]); ("Understandability", [num 7])].

Definition seven_among_others_numbers (c : string) : list float :=
numbers_of seven_among_others c.

End TurnExamples.

(** The text holds no backslash. *)
Definition no_backslash (s : string) : bool :=
  all_chars (fun c => negb (Ascii.eqb c "\"%char)) s.

(* ================================================================== *)
(** * Properties *)

(** ** Frames: cell updates *)

Section FrameFacts.

Lemma mem_In (k : string) (l : list string) : mem k l = true <-> In k l.
Proof.
  unfold mem. rewrite existsb_exists. split.
  - intros [x [Hin Heq]]. apply String.eqb_eq in Heq. now subst.
  - intros Hin. exists k. split; [assumption | apply String.eqb_refl].
Qed.

Lemma list_set_length (l : list value) (i : nat) (v : value) :
  List.length (list_set l i v) = List.length l.
Proof.
  revert i. induction l as [|h t IH]; intros [|i]; simpl; auto.
Qed.

Lemma list_set_nth_same (l : list value) (i : nat) (v : value) :
  i < List.length l -> nth i (list_set l i v) VNaN = v.
Proof.
  revert i. induction l as [|h t IH]; intros [|i] Hi; simpl in *;
    try lia; auto. apply IH. lia.
Qed.

Lemma list_set_nth_other (l : list value) (i i' : nat) (v : value) :
  i' <> i -> nth i' (list_set l i v) VNaN = nth i' l VNaN.
Proof.
  revert i i'. induction l as [|h t IH]; intros [|i] [|i'] Hne; simpl;
    try congruence; auto.
Qed.

Lemma cols_set_names (cs : list (string * list value)) i k v :
  map fst (cols_set cs i k v) = map fst cs.
Proof.
  induction cs as [|[c vs] cs IH]; simpl; auto.
  destruct (String.eqb c k); simpl; congruence.
Qed.

Lemma cols_set_lengths (cs : list (string * list value)) i k v n :
  Forall (fun cv => List.length (snd cv) = n) cs ->
  Forall (fun cv => List.length (snd cv) = n) (cols_set cs i k v).
Proof.
  induction 1 as [|[c vs] cs Hc Hcs IH]; simpl; auto.
  destruct (String.eqb c k); constructor; simpl in *; auto.
  now rewrite list_set_length.
Qed.

Lemma cols_put_lengths (cs : list (string * list value)) k vs n :
  List.length vs = n ->
  Forall (fun cv => List.length (snd cv) = n) cs ->
  Forall (fun cv => List.length (snd cv) = n) (cols_put cs k vs).
Proof.
  intros Hvs. induction 1 as [|[c old] cs Hc Hcs IH]; simpl.
  - constructor; auto.
  - destruct (String.eqb c k); constructor; simpl in *; auto.
Qed.

Lemma set_col_wf (df : DataFrame) k vs :
  wf df -> List.length vs = nrows df -> wf (set_col df k vs).
Proof. intros H Hl. unfold wf, set_col; simpl. now apply cols_put_lengths. Qed.

Lemma set_col_scalar_wf (df : DataFrame) k v :
  wf df -> wf (set_col_scalar df k v).
Proof. intros H. apply set_col_wf; auto. apply repeat_length. Qed.

Lemma cols_put_names_in (cs : list (string * list value)) k vs :
  In k (map fst cs) -> map fst (cols_put cs k vs) = map fst cs.
Proof.
  induction cs as [|[c old] cs IH]; simpl; [tauto|].
  intros Hin. destruct (String.eqb c k) eqn:E; simpl; auto.
  f_equal. apply IH. destruct Hin as [->|]; auto.
  now rewrite String.eqb_refl in E.
Qed.

Lemma cols_put_names_new (cs : list (string * list value)) k vs :
  ~ In k (map fst cs) -> map fst (cols_put cs k vs) = (map fst cs ++ [k])%list.
Proof.
  induction cs as [|[c old] cs IH]; simpl; auto.
  intros Hin. destruct (String.eqb c k) eqn:E; simpl.
  - apply String.eqb_eq in E. tauto.
  - f_equal. apply IH. tauto.
Qed.

Lemma cols_put_names_incl (cs : list (string * list value)) k vs c :
  In c (map fst cs) -> In c (map fst (cols_put cs k vs)).
Proof.
  induction cs as [|[c0 old] cs IH]; simpl; [tauto|].
  destruct (String.eqb c0 k); simpl; tauto.
Qed.

Lemma cols_put_names_key (cs : list (string * list value)) k vs :
  In k (map fst (cols_put cs k vs)).
Proof.
  induction cs as [|[c0 old] cs IH]; simpl; auto.
  destruct (String.eqb c0 k) eqn:E; simpl; auto.
  apply String.eqb_eq in E. auto.
Qed.

End FrameFacts.

(** ** Frames: rows under a cell update *)

Section RowFacts.

Lemma cells_at_set_same cs i k v n :
  Forall (fun cv => List.length (snd cv) = n) cs -> i < n ->
  cells_at i (cols_set cs i k v) = row_set (cells_at i cs) k v.
Proof.
  intros Hwf Hi. induction Hwf as [|[c vs] cs Hc Hcs IH]; simpl; auto.
  destruct (String.eqb c k); simpl.
  - rewrite list_set_nth_same; auto. simpl in Hc. lia.
  - now rewrite IH.
Qed.

Lemma cells_at_set_other cs i i' k v :
  i' <> i -> cells_at i' (cols_set cs i k v) = cells_at i' cs.
Proof.
  intros Hne. induction cs as [|[c vs] cs IH]; simpl; auto.
  destruct (String.eqb c k); simpl.
  - now rewrite list_set_nth_other.
  - now rewrite IH.
Qed.

Variable df : DataFrame.
Variables (i : nat) (k : string) (v : value).
Hypothesis Hk : mem k (columns df) = true.

Lemma set_at_nrows : nrows (set_at df i k v) = nrows df.
Proof. unfold set_at. now rewrite Hk. Qed.

Lemma set_at_columns : columns (set_at df i k v) = columns df.
Proof. unfold set_at. rewrite Hk. unfold columns; simpl. apply cols_set_names. Qed.

Lemma set_at_wf : wf df -> wf (set_at df i k v).
Proof.
  unfold wf, set_at. rewrite Hk. simpl. apply cols_set_lengths.
Qed.

Lemma row_at_set_same :
  wf df -> i < nrows df ->
  row_at (set_at df i k v) i = row_set (row_at df i) k v.
Proof.
  intros Hwf Hi. unfold row_at, set_at. rewrite Hk. simpl.
  now apply (@cells_at_set_same (cols df) i k v (nrows df)).
Qed.

Lemma row_at_set_other (i' : nat) :
  i' <> i -> row_at (set_at df i k v) i' = row_at df i'.
Proof.
  intros Hne. unfold row_at, set_at. rewrite Hk. simpl.
  now apply cells_at_set_other.
Qed.

End RowFacts.

Lemma row_get_row_at (df : DataFrame) (j : nat) (c : string) :
  In c (columns df) -> exists v, row_get (row_at df j) c = Some v.
Proof.
  unfold columns, row_at, cells_at. induction (cols df) as [|[c0 vs] cs IH]; simpl.
  - tauto.
  - intros [->|Hin].
    + rewrite String.eqb_refl. eauto.
    + destruct (String.eqb c0 c); eauto.
Qed.

(** ** The column loop writes one row *)

Section CopyColumns.

Variables (base_df : DataFrame) (add_columns : option (list string)).
Variables (i : nat) (orow : Row).

Lemma copy_columns_spec (ocols : list string) : forall df,
  wf df -> i < nrows df ->
  (forall col t, In col ocols ->
     target_col base_df add_columns col = Some t ->
     mem t (columns df) = true) ->
  (forall col, In col ocols -> exists v, row_get orow col = Some v) ->
  exists df',
    copy_columns base_df add_columns i orow ocols df = Some df' /\
    same_shape df' df /\ wf df' /\
    row_at df' i =
      spec_override_row base_df add_columns orow ocols (row_at df i) /\
    (forall i', i' <> i -> row_at df' i' = row_at df i').
Proof.
  induction ocols as [|col rest IH]; intros df Hwf Hi Ht Hv; simpl.
  - exists df. unfold same_shape. auto.
  - destruct (Hv col (or_introl eq_refl)) as [v Hcol]. rewrite Hcol.
    destruct (target_col base_df add_columns col) as [t|] eqn:Et.
    + assert (Hmem : mem t (columns df) = true)
        by (apply (Ht col t); simpl; auto).
      destruct (IH (set_at df i t v)) as (df' & Hc & [Hn Hcs] & Hwf' & Hr & Ho).
      * now apply set_at_wf.
      * now rewrite set_at_nrows.
      * intros c t' Hin Htc. rewrite set_at_columns by assumption.
        apply (Ht c t'); simpl; auto.
      * intros c Hin. apply Hv. simpl; auto.
      * exists df'. split; [assumption|]. split; [|split; [assumption|split]].
        -- split.
           ++ now rewrite Hn, set_at_nrows.
           ++ now rewrite Hcs, set_at_columns.
        -- rewrite Hr. now rewrite row_at_set_same.
        -- intros i' Hne. rewrite (Ho i' Hne). now apply row_at_set_other.
    + apply IH; auto.
      * intros c t' Hin. apply Ht. simpl; auto.
      * intros c Hin. apply Hv. simpl; auto.
Qed.

End CopyColumns.

(** ** The added columns *)

Section AddColumns.

Variable override_df : DataFrame.

Let add_step (res : DataFrame) (col : string) : DataFrame :=
  if andb (mem col (columns override_df)) (negb (mem col (columns res)))
  then set_col_scalar res col VNA else res.

Lemma add_step_keeps res col c :
  In c (columns res) -> In c (columns (add_step res col)).
Proof.
  unfold add_step. destruct (andb _ _); auto.
  unfold columns, set_col_scalar, set_col; simpl. apply cols_put_names_incl.
Qed.

Lemma add_step_adds res col :
  In col (columns override_df) -> In col (columns (add_step res col)).
Proof.
  intros Hin. unfold add_step.
  apply mem_In in Hin. rewrite Hin. simpl.
  destruct (mem col (columns res)) eqn:E; simpl.
  - now apply mem_In.
  - unfold columns, set_col_scalar, set_col; simpl. apply cols_put_names_key.
Qed.

Lemma add_fold_keeps l : forall res c,
  In c (columns res) -> In c (columns (fold_left add_step l res)).
Proof.
  induction l as [|x l IH]; intros res c Hin; simpl; auto.
  apply IH. now apply add_step_keeps.
Qed.

Lemma add_fold_adds l : forall res col,
  In col l -> In col (columns override_df) ->
  In col (columns (fold_left add_step l res)).
Proof.
  induction l as [|x l IH]; intros res col Hin Ho; simpl in *; [tauto|].
  destruct Hin as [->|Hin].
  - apply add_fold_keeps. now apply add_step_adds.
  - now apply IH.
Qed.

Lemma add_fold_shape l : forall res,
  wf res ->
  wf (fold_left add_step l res) /\
  nrows (fold_left add_step l res) = nrows res.
Proof.
  induction l as [|x l IH]; intros res Hwf; simpl; auto.
  destruct (IH (add_step res x)) as [H1 H2].
  - unfold add_step. destruct (andb _ _); auto. now apply set_col_scalar_wf.
  - split; auto. rewrite H2. unfold add_step. now destruct (andb _ _).
Qed.

Variables (base_df : DataFrame) (add_columns : option (list string)).

Lemma add_new_columns_wf :
  wf base_df -> wf (add_new_columns override_df add_columns base_df).
Proof.
  unfold add_new_columns. destruct add_columns as [l|]; auto.
  intros H. apply (add_fold_shape l H).
Qed.

Lemma add_new_columns_nrows :
  nrows (add_new_columns override_df add_columns base_df) = nrows base_df.
Proof.
  unfold add_new_columns. destruct add_columns as [l|]; auto.
  generalize base_df. induction l as [|x l IH]; intros b; simpl; auto.
  rewrite IH. now destruct (andb _ _).
Qed.

Lemma add_new_columns_keeps c :
  In c (columns base_df) ->
  In c (columns (add_new_columns override_df add_columns base_df)).
Proof.
  unfold add_new_columns. destruct add_columns as [l|]; auto.
  apply add_fold_keeps.
Qed.

Lemma target_in_result col t :
  In col (columns override_df) ->
  target_col base_df add_columns col = Some t ->
  mem t (columns (add_new_columns override_df add_columns base_df)) = true.
Proof.
  intros Ho. unfold target_col.
  destruct (in_add_columns add_columns col) eqn:E.
  - intros [= <-]. apply mem_In.
    unfold in_add_columns in E. destruct add_columns as [l|]; [|discriminate].
    simpl. apply add_fold_adds; auto. now apply mem_In.
  - destruct (matching_cols base_df col) as [|c r] eqn:Em; [discriminate|].
    intros [= <-]. apply mem_In, add_new_columns_keeps.
    assert (Hin : In c (matching_cols base_df col)) by (rewrite Em; simpl; auto).
    unfold matching_cols in Hin. apply filter_In in Hin. tauto.
Qed.

End AddColumns.

(** ** The two row loops *)

Section MergeLoops.

Variables (base_df override_df : DataFrame).
Variable add_columns : option (list string).

Let start : DataFrame := add_new_columns override_df add_columns base_df.

(** The invariant of the result frame. *)
Let inv (df : DataFrame) : Prop := wf df /\ same_shape df start.

(** The row [r] after the scan of the override rows [js]. *)
Let scanned (i : nat) (js : list nat) (r : Row) : Row :=
  match find (fun j => is_match (row_at base_df i) (row_at override_df j)) js with
  | Some j =>
      spec_override_row base_df add_columns (row_at override_df j)
                        (columns override_df) r
  | None => r
  end.

Hypothesis Hbase : wf base_df.

Lemma scan_override_spec (i : nat) (js : list nat) : forall st,
  inv (fst st) -> i < nrows base_df ->
  (forall j, In j js ->
     match_files (row_at base_df i) (row_at override_df j) <> None) ->
  exists st',
    scan_override base_df override_df add_columns i (row_at base_df i) js st
      = Some st' /\
    inv (fst st') /\
    row_at (fst st') i = scanned i js (row_at (fst st) i) /\
    (forall i', i' <> i -> row_at (fst st') i' = row_at (fst st) i').
Proof.
  induction js as [|j rest IH]; intros st Hinv Hi Hm; simpl.
  - exists st. unfold scanned; simpl. auto.
  - unfold scanned; simpl. unfold is_match at 1.
    destruct (match_files (row_at base_df i) (row_at override_df j))
      as [[|]|] eqn:Em.
    + destruct Hinv as [Hwf [Hn Hc]].
      destruct (@copy_columns_spec base_df add_columns i
                  (row_at override_df j) (columns override_df) (fst st))
        as (df' & Hcc & [Hn' Hc'] & Hwf' & Hr & Ho); auto.
      * rewrite Hn. unfold start. now rewrite add_new_columns_nrows.
      * intros col t Hin Ht. rewrite Hc. unfold start.
        now apply (target_in_result override_df base_df add_columns col).
      * intros col Hin. now apply row_get_row_at.
      * rewrite Hcc. eexists. split; [reflexivity|]. simpl.
        repeat split; auto; congruence.
    + apply IH; auto. intros j' Hin. apply Hm. simpl; auto.
    + exfalso. apply (Hm j); simpl; auto.
Qed.

Lemma merge_rows_spec (rows : list nat) : forall st,
  inv (fst st) -> NoDup rows ->
  (forall i, In i rows -> i < nrows base_df) ->
  matcher_total base_df override_df ->
  exists st',
    merge_rows base_df override_df add_columns rows st = Some st' /\
    inv (fst st') /\
    (forall i, In i rows ->
       row_at (fst st') i =
         scanned i (seq 0 (nrows override_df)) (row_at (fst st) i)) /\
    (forall i, ~ In i rows -> row_at (fst st') i = row_at (fst st) i).
Proof.
  induction rows as [|i rest IH]; intros st Hinv Hnd Hlt Htot; simpl.
  - exists st. split; [reflexivity|]. split; [assumption|].
    split; [intros i []|auto].
  - inversion Hnd as [|? ? Hni Hnd']; subst.
    destruct (@scan_override_spec i (seq 0 (nrows override_df)) st)
      as (st1 & Hs & Hinv1 & Hr1 & Ho1); auto.
    { apply Hlt; simpl; auto. }
    { intros j Hin. apply Htot.
      - apply Hlt; simpl; auto.
      - apply in_seq in Hin. lia. }
    rewrite Hs.
    destruct (IH st1) as (st' & Hm & Hinv' & Hr & Ho); auto.
    { intros i' Hin. apply Hlt; simpl; auto. }
    exists st'. repeat split; auto; try apply Hinv'.
    + intros i' [<-|Hin].
      * rewrite (Ho i Hni). exact Hr1.
      * rewrite (Hr i' Hin). rewrite Ho1; auto. congruence.
    + intros i' Hni'. rewrite Ho by (simpl in Hni'; tauto).
      apply Ho1. simpl in Hni'. intros ->. tauto.
Qed.

(** The same without the assumption on the matcher, for a scan that
    returned. *)
Lemma scan_override_sound (i : nat) (js : list nat) : forall st st',
  inv (fst st) -> i < nrows base_df ->
  scan_override base_df override_df add_columns i (row_at base_df i) js st
    = Some st' ->
  inv (fst st') /\
  row_at (fst st') i = scanned i js (row_at (fst st) i) /\
  (forall i', i' <> i -> row_at (fst st') i' = row_at (fst st) i').
Proof.
  induction js as [|j rest IH]; intros st st' Hinv Hi; simpl.
  - intros [= <-]. unfold scanned; simpl. auto.
  - unfold scanned; simpl. unfold is_match at 1.
    destruct (match_files (row_at base_df i) (row_at override_df j))
      as [[|]|] eqn:Em; [| apply IH; auto | discriminate].
    destruct Hinv as [Hwf [Hn Hc]].
    destruct (@copy_columns_spec base_df add_columns i
                (row_at override_df j) (columns override_df) (fst st))
      as (df' & Hcc & [Hn' Hc'] & Hwf' & Hr & Ho); auto.
    + rewrite Hn. unfold start. now rewrite add_new_columns_nrows.
    + intros col t Hin Ht. rewrite Hc. unfold start.
      now apply (target_in_result override_df base_df add_columns col).
    + intros col Hin. now apply row_get_row_at.
    + rewrite Hcc. intros [= <-]. simpl.
      repeat split; auto; congruence.
Qed.

Lemma merge_rows_sound (rows : list nat) : forall st st',
  inv (fst st) -> NoDup rows ->
  (forall i, In i rows -> i < nrows base_df) ->
  merge_rows base_df override_df add_columns rows st = Some st' ->
  inv (fst st') /\
  (forall i, In i rows ->
     row_at (fst st') i =
       scanned i (seq 0 (nrows override_df)) (row_at (fst st) i)) /\
  (forall i, ~ In i rows -> row_at (fst st') i = row_at (fst st) i).
Proof.
  induction rows as [|i rest IH]; intros st st' Hinv Hnd Hlt; simpl.
  - intros [= <-]. split; [assumption|]. split; [intros i []|auto].
  - inversion Hnd as [|? ? Hni Hnd']; subst.
    destruct (scan_override base_df override_df add_columns i
                (row_at base_df i) (seq 0 (nrows override_df)) st)
      as [st1|] eqn:Hs; [|discriminate].
    intros Hm.
    destruct (@scan_override_sound i (seq 0 (nrows override_df)) st st1)
      as (Hinv1 & Hr1 & Ho1); auto.
    { apply Hlt; simpl; auto. }
    destruct (IH st1 st') as (Hinv' & Hr & Ho); auto.
    { intros i' Hin. apply Hlt; simpl; auto. }
    split; [assumption|]. split.
    + intros i' [<-|Hin].
      * rewrite (Ho i Hni). exact Hr1.
      * rewrite (Hr i' Hin). rewrite Ho1; auto. congruence.
    + intros i' Hni'. rewrite Ho by (simpl in Hni'; tauto).
      apply Ho1. simpl in Hni'. intros ->. tauto.
Qed.

(** The rows of a merge that returned are those of the specification. *)
Lemma merge_csvs_sound (res : DataFrame) :
  merge_csvs base_df override_df add_columns = Some res ->
  wf res /\ same_shape res start /\
  (forall i, i < nrows base_df ->
     row_at res i = spec_merged_row base_df override_df add_columns i).
Proof.
  unfold merge_csvs, merge_state. fold start.
  destruct (merge_rows base_df override_df add_columns
              (seq 0 (nrows base_df)) (start, [])) as [st'|] eqn:Hm;
    [|discriminate].
  simpl. intros [= <-].
  destruct (@merge_rows_sound (seq 0 (nrows base_df)) (start, []) st')
    as ([Hwf Hsh] & Hr & _); auto.
  { split; [apply add_new_columns_wf; assumption | split; reflexivity]. }
  { apply seq_NoDup. }
  { intros i Hin. apply in_seq in Hin. lia. }
  split; [assumption|]. split; [assumption|].
  intros i Hi. rewrite Hr by (apply in_seq; lia). reflexivity.
Qed.

(** The merge returns, and its rows are those of the specification. *)
Lemma merge_csvs_rows :
  matcher_total base_df override_df ->
  exists res,
    merge_csvs base_df override_df add_columns = Some res /\
    wf res /\ same_shape res start /\
    (forall i, i < nrows base_df ->
       row_at res i = spec_merged_row base_df override_df add_columns i).
Proof.
  intros Htot. unfold merge_csvs, merge_state.
  destruct (@merge_rows_spec (seq 0 (nrows base_df)) (start, []))
    as (st' & Hm & [Hwf Hsh] & Hr & _); auto.
  - split; [apply add_new_columns_wf; assumption | split; reflexivity].
  - apply seq_NoDup.
  - intros i Hin. apply in_seq in Hin. lia.
  - fold start. rewrite Hm. simpl. exists (fst st'). repeat split; auto;
      try apply Hsh.
    intros i Hi. rewrite Hr by (apply in_seq; lia). reflexivity.
Qed.

End MergeLoops.

(** ** The start of the merge: the base table and its empty columns *)

Section AddedColumns.

Variables (base_df override_df : DataFrame).

Lemma cols_put_new (cs : list (string * list value)) k vs :
  ~ In k (map fst cs) -> cols_put cs k vs = (cs ++ [(k, vs)])%list.
Proof.
  induction cs as [|[c old] cs IH]; simpl; auto.
  intros Hin. destruct (String.eqb c k) eqn:E.
  - apply String.eqb_eq in E. tauto.
  - f_equal. apply IH. tauto.
Qed.

Lemma names_empty_columns n acc :
  map fst (map (empty_column n) acc) = acc.
Proof. induction acc; simpl; congruence. Qed.

Lemma add_fold_eq (l : list string) : forall acc,
  fold_left
    (fun res col =>
       if andb (mem col (columns override_df)) (negb (mem col (columns res)))
       then set_col_scalar res col VNA else res)
    l (mkDF (nrows base_df)
            (cols base_df ++ map (empty_column (nrows base_df)) acc))
  = mkDF (nrows base_df)
      (cols base_df ++
       map (empty_column (nrows base_df))
         (fold_left
            (fun acc col =>
               if andb (mem col (columns override_df))
                       (negb (mem col (columns base_df ++ acc)))
               then (acc ++ [col])%list else acc)
            l acc)).
Proof.
  induction l as [|col l IH]; intros acc; cbn [fold_left]; auto.
  assert (Hc : columns (mkDF (nrows base_df)
                 (cols base_df ++ map (empty_column (nrows base_df)) acc))
               = (columns base_df ++ acc)%list).
  { unfold columns; simpl. now rewrite map_app, names_empty_columns. }
  rewrite Hc.
  destruct (andb (mem col (columns override_df))
                 (negb (mem col (columns base_df ++ acc)))) eqn:E.
  - rewrite <- IH. f_equal.
    unfold set_col_scalar, set_col; simpl. f_equal.
    rewrite cols_put_new.
    + rewrite map_app. simpl. now rewrite <- app_assoc.
    + rewrite map_app, names_empty_columns.
      apply andb_prop in E. destruct E as [_ E].
      intros Hin. apply mem_In in Hin. unfold columns in E.
      rewrite Hin in E. discriminate.
  - apply IH.
Qed.

Lemma add_new_columns_spec (add_columns : option (list string)) :
  add_new_columns override_df add_columns base_df
  = spec_base_with_added base_df override_df add_columns.
Proof.
  unfold add_new_columns, spec_base_with_added, spec_added_columns.
  destruct add_columns as [l|].
  - rewrite <- add_fold_eq. simpl. rewrite app_nil_r. now destruct base_df.
  - simpl. rewrite app_nil_r. now destruct base_df.
Qed.

(** A row of the start frame: the base row, then the empty cells. *)
Lemma row_at_start (add_columns : option (list string)) (i : nat) :
  i < nrows base_df ->
  row_at (add_new_columns override_df add_columns base_df) i
  = (row_at base_df i ++
     map (fun c => (c, VNA))
         (spec_added_columns base_df override_df add_columns))%list.
Proof.
  intros Hi. rewrite add_new_columns_spec.
  unfold row_at, cells_at, spec_base_with_added; simpl.
  rewrite map_app, map_map. f_equal.
  apply map_ext. intros c. unfold empty_column; simpl. f_equal.
  now apply nth_repeat_lt.
Qed.

End AddedColumns.

(** ** The scan: first match, no match, bookkeeping *)

Section Scan.

Variables (base_df override_df : DataFrame).
Variable add_columns : option (list string).

Lemma find_first (f : nat -> bool) (j : nat) : forall (start len : nat),
  start <= j < start + len -> f j = true ->
  (forall j', start <= j' < j -> f j' = false) ->
  find f (seq start len) = Some j.
Proof.
  intros start len. revert start.
  induction len as [|len IH]; intros start Hj Hf Hbefore; simpl; [lia|].
  destruct (Nat.eq_dec start j) as [->|Hne].
  - now rewrite Hf.
  - rewrite (Hbefore start) by lia. apply IH; auto; try lia.
    intros j' Hj'. apply Hbefore. lia.
Qed.

Lemma find_none (f : nat -> bool) (js : list nat) :
  (forall j, In j js -> f j = false) -> find f js = None.
Proof.
  induction js as [|j js IH]; simpl; auto.
  intros H. rewrite (H j) by auto. apply IH. auto.
Qed.

(** The scan stops at the first row that matches: the rows after it
    are not looked at. *)
Lemma scan_stops (i : nat) (r : Row) (js1 js2 : list nat) (j : nat) st :
  (forall j', In j' js1 -> match_files r (row_at override_df j') = Some false) ->
  match_files r (row_at override_df j) = Some true ->
  scan_override base_df override_df add_columns i r (js1 ++ j :: js2) st
  = scan_override base_df override_df add_columns i r (js1 ++ [j]) st.
Proof.
  intros Hfalse Htrue. induction js1 as [|j1 js1 IH]; simpl.
  - now rewrite Htrue.
  - rewrite (Hfalse j1) by (simpl; auto). apply IH.
    intros j' Hin. apply Hfalse. simpl; auto.
Qed.

(** A scan in which nothing matches leaves the state as it is. *)
Lemma scan_no_match (i : nat) (r : Row) (js : list nat) st :
  (forall j, In j js -> match_files r (row_at override_df j) = Some false) ->
  scan_override base_df override_df add_columns i r js st = Some st.
Proof.
  induction js as [|j js IH]; simpl; auto.
  intros H. rewrite (H j) by auto. apply IH. auto.
Qed.

Lemma merge_rows_no_match (rows : list nat) st :
  (forall i j, In i rows -> j < nrows override_df ->
     match_files (row_at base_df i) (row_at override_df j) = Some false) ->
  merge_rows base_df override_df add_columns rows st = Some st.
Proof.
  induction rows as [|i rows IH]; simpl; auto.
  intros H. rewrite scan_no_match.
  - apply IH. intros i' j Hin. apply H. auto.
  - intros j Hin. apply H; auto. apply in_seq in Hin. lia.
Qed.



End Scan.

(** ** Cells of an overridden row *)

Section OverrideCells.

Variables (base_df : DataFrame) (add_columns : option (list string)).
Variable orow : Row.

Lemma row_set_keys (r : Row) t v : map fst (row_set r t v) = map fst r.
Proof.
  induction r as [|[c x] r IH]; simpl; auto.
  destruct (String.eqb c t); simpl; congruence.
Qed.

Lemma row_get_set_same (r : Row) t v :
  In t (map fst r) -> row_get (row_set r t v) t = Some v.
Proof.
  induction r as [|[c x] r IH]; simpl; [tauto|].
  intros Hin. destruct (String.eqb c t) eqn:E; simpl.
  - now rewrite E.
  - rewrite E. apply IH. destruct Hin as [->|]; auto.
    now rewrite String.eqb_refl in E.
Qed.

Lemma row_get_set_other (r : Row) t c v :
  c <> t -> row_get (row_set r t v) c = row_get r c.
Proof.
  intros Hne. induction r as [|[c0 x] r IH]; simpl; auto.
  destruct (String.eqb c0 t) eqn:E; simpl.
  - apply String.eqb_eq in E. subst c0.
    assert (String.eqb t c = false) as -> by (apply String.eqb_neq; congruence).
    reflexivity.
  - now rewrite IH.
Qed.

Lemma spec_override_row_keys (ocols : list string) : forall r,
  map fst (spec_override_row base_df add_columns orow ocols r) = map fst r.
Proof.
  induction ocols as [|col rest IH]; intros r; simpl; auto.
  destruct (target_col base_df add_columns col); auto.
  destruct (row_get orow col); auto.
  rewrite IH. apply row_set_keys.
Qed.

(** A column that no override column is written to keeps its cell. *)
Lemma spec_override_row_untouched (c : string) (ocols : list string) :
  forall r,
  (forall col, In col ocols -> target_col base_df add_columns col <> Some c) ->
  row_get (spec_override_row base_df add_columns orow ocols r) c = row_get r c.
Proof.
  induction ocols as [|col rest IH]; intros r Hno; simpl; auto.
  assert (Hrest : forall col', In col' rest ->
                    target_col base_df add_columns col' <> Some c)
    by (intros col' Hin; apply Hno; simpl; auto).
  destruct (target_col base_df add_columns col) as [t|] eqn:Et; auto.
  destruct (row_get orow col); auto.
  rewrite IH by assumption. apply row_get_set_other.
  intros ->. apply (Hno col); simpl; auto.
Qed.


End OverrideCells.

(* ================================================================== *)
(** * The claims on the row matcher *)

(** C2, as stated, fails: the class names ["A"] and ["B"] differ, both
    fields are present, and the matcher still answers yes, because the
    files [src/Foo.java] and [foo.java] agree. *)
Lemma match_files_unequal_classes_match :
  row_get Examples.row_class_a "ClassNames" = Some (VStr "A") /\
  row_get Examples.row_class_b "class" = Some (VStr "B") /\
  "A" <> "B" /\
  match_files Examples.row_class_a Examples.row_class_b = Some true.
Proof.
  repeat split; try reflexivity. discriminate.
Qed.

(** C2, amended: when the base row has a ["ClassNames"] field and the
    override row a ["class"] field (strings), equal values match; unequal
    values do not decide: the answer is then that of the file-path rule,
    and it is no match when that rule does not apply. *)
Theorem match_files_class_rule (row1 row2 : Row) (a b : string) :
  row_get row1 "ClassNames" = Some (VStr a) ->
  row_get row2 "class" = Some (VStr b) ->
  (a = b -> match_files row1 row2 = Some true) /\
  (a <> b -> match_files row1 row2 = match_by_file row1 row2) /\
  (a <> b -> andb (row_has row1 "Name") (row_has row2 "file") = false ->
   match_files row1 row2 = Some false).
Proof.
  intros H1 H2. unfold match_files.
  assert (Hc1 : row_has row1 "ClassNames" = true)
    by (unfold row_has; now rewrite H1).
  assert (Hc2 : row_has row2 "class" = true)
    by (unfold row_has; now rewrite H2).
  rewrite Hc1, Hc2, H1, H2. simpl.
  repeat split.
  - intros ->. now rewrite String.eqb_refl.
  - intros Hne. apply String.eqb_neq in Hne. now rewrite Hne.
  - intros Hne Hno. apply String.eqb_neq in Hne. rewrite Hne.
    unfold match_by_file. now rewrite Hno.
Qed.

Lemma match_files_class_rule_witness :
  row_get Examples.row_class_c "ClassNames" = Some (VStr "pkg.Foo") /\
  row_get Examples.row_class_d "class" = Some (VStr "pkg.Foo") /\
  match_files Examples.row_class_c Examples.row_class_d = Some true.
Proof.
  split; [reflexivity|]. split; [reflexivity|].
  apply (proj1 (@match_files_class_rule Examples.row_class_c
                  Examples.row_class_d "pkg.Foo" "pkg.Foo"
                  eq_refl eq_refl)).
  reflexivity.
Defined.

(* ================================================================== *)
(** * The claims on the merge engine *)

Lemma wf_base3 : wf Examples.base3.
Proof. repeat constructor. Qed.

Lemma merge_base3 :
  merge_csvs Examples.base3 Examples.override3 (Some ["New"])
  = Some Examples.merged3.
Proof. vm_compute. reflexivity. Qed.

Lemma matcher_total_base3 :
  matcher_total Examples.base3 Examples.override3.
Proof.
  intros i j Hi Hj. simpl in Hi, Hj.
  destruct i as [|[|[|i]]]; try lia;
    destruct j as [|[|[|j]]]; try lia; vm_compute; discriminate.
Qed.

(** C1, as stated, fails: with an empty [Name] cell in the base table
    and a [file] column in the override table the matcher raises, and
    the merge returns no table. *)
Lemma merge_csvs_raises_on_empty_name :
  wf Examples.base_nan /\
  ~ (exists res,
       merge_csvs Examples.base_nan Examples.override_file None = Some res /\
       nrows res = nrows Examples.base_nan).
Proof.
  split; [repeat constructor|].
  intros [res [H _]]. vm_compute in H. discriminate.
Qed.

(** C1, amended: for every base table, override table and add-column
    list on which the matcher raises for no pair of rows, the merge
    returns a table with exactly the rows of the base table, every
    column holding one cell per base row, and its row at each position is
    the merged row of the base row at that position. *)
Theorem merge_csvs_row_count_and_order
  (base_df override_df : DataFrame) (add_columns : option (list string)) :
  wf base_df ->
  matcher_total base_df override_df ->
  exists res,
    merge_csvs base_df override_df add_columns = Some res /\
    nrows res = nrows base_df /\
    wf res /\
    (forall i, i < nrows base_df ->
       row_at res i = spec_merged_row base_df override_df add_columns i).
Proof.
  intros Hwf Htot.
  destruct (merge_csvs_rows add_columns Hwf Htot) as (res & Hm & Hw & [Hn _] & Hr).
  exists res. repeat split; auto.
  rewrite Hn. apply add_new_columns_nrows.
Qed.

Lemma merge_csvs_row_count_and_order_witness :
  wf Examples.base3 /\
  matcher_total Examples.base3 Examples.override3 /\
  exists res,
    merge_csvs Examples.base3 Examples.override3 (Some ["New"]) = Some res /\
    nrows res = 3 /\
    wf res /\
    (forall i, i < 3 ->
       row_at res i =
         spec_merged_row Examples.base3 Examples.override3 (Some ["New"]) i).
Proof.
  split; [exact wf_base3|]. split; [exact matcher_total_base3|].
  exact (@merge_csvs_row_count_and_order Examples.base3 Examples.override3
           (Some ["New"]) wf_base3 matcher_total_base3).
Defined.

Lemma row_at_keys (df : DataFrame) (i : nat) :
  map fst (row_at df i) = columns df.
Proof.
  unfold row_at, cells_at, columns. rewrite map_map. reflexivity.
Qed.

Lemma first_match_of_scan (base_df override_df : DataFrame) (i j : nat) :
  j < nrows override_df ->
  match_files (row_at base_df i) (row_at override_df j) = Some true ->
  (forall j', j' < j ->
     match_files (row_at base_df i) (row_at override_df j') = Some false) ->
  spec_first_match base_df override_df i = Some j.
Proof.
  intros Hj Ht Hf. unfold spec_first_match. apply find_first.
  - lia.
  - unfold is_match. now rewrite Ht.
  - intros j' Hj'. unfold is_match. rewrite Hf; [reflexivity | lia].
Qed.

(** C3: for a base row [i] whose first matching override row is [j]
    (the matcher says no on every row before [j] and yes on [j]), the
    scan of the override rows is the scan of the rows up to [j] alone,
    whatever follows, and row [i] of the merged table is the base row
    overridden by row [j]. *)
Theorem merge_uses_first_match
  (base_df override_df : DataFrame) (add_columns : option (list string))
  (res : DataFrame) (i j : nat) :
  wf base_df ->
  merge_csvs base_df override_df add_columns = Some res ->
  i < nrows base_df -> j < nrows override_df ->
  match_files (row_at base_df i) (row_at override_df j) = Some true ->
  (forall j', j' < j ->
     match_files (row_at base_df i) (row_at override_df j') = Some false) ->
  (forall st,
     scan_override base_df override_df add_columns i (row_at base_df i)
                   (seq 0 (nrows override_df)) st
     = scan_override base_df override_df add_columns i (row_at base_df i)
                     (seq 0 (S j)) st) /\
  row_at res i =
    spec_override_row base_df add_columns (row_at override_df j)
      (columns override_df)
      (row_at (add_new_columns override_df add_columns base_df) i).
Proof.
  intros Hwf Hm Hi Hj Ht Hf. split.
  - intros st.
    assert (Hsplit : seq 0 (nrows override_df)
                     = (seq 0 j ++ j :: seq (S j) (nrows override_df - S j))%list).
    { assert (Hn : nrows override_df = j + S (nrows override_df - S j)) by lia.
      rewrite Hn at 1. now rewrite seq_app. }
    rewrite Hsplit, seq_S. simpl (0 + j).
    apply scan_stops; auto.
    intros j' Hin. apply Hf. apply in_seq in Hin. lia.
  - destruct (@merge_csvs_sound base_df override_df add_columns Hwf res Hm) as (_ & _ & Hr).
    rewrite (Hr i Hi). unfold spec_merged_row.
    now rewrite (first_match_of_scan base_df override_df i Hj Ht Hf).
Qed.

Lemma merge_uses_first_match_witness :
  match_files (row_at Examples.base3 0) (row_at Examples.override3 1)
    = Some true /\
  row_at Examples.merged3 0 =
    spec_override_row Examples.base3 (Some ["New"])
      (row_at Examples.override3 0) (columns Examples.override3)
      (row_at (add_new_columns Examples.override3 (Some ["New"])
                 Examples.base3) 0).
Proof.
  split; [reflexivity|].
  apply (@merge_uses_first_match Examples.base3 Examples.override3
           (Some ["New"]) Examples.merged3 0 0 wf_base3 merge_base3).
  - simpl; lia.
  - simpl; lia.
  - reflexivity.
  - intros j' Hj'. lia.
Defined.

Lemma merged_row_of_first_match
  (base_df override_df : DataFrame) (add_columns : option (list string))
  (res : DataFrame) (i j : nat) :
  wf base_df ->
  merge_csvs base_df override_df add_columns = Some res ->
  i < nrows base_df ->
  spec_first_match base_df override_df i = Some j ->
  row_at res i =
    spec_override_row base_df add_columns (row_at override_df j)
      (columns override_df)
      (row_at (add_new_columns override_df add_columns base_df) i).
Proof.
  intros Hwf Hm Hi Hf.
  destruct (@merge_csvs_sound base_df override_df add_columns Hwf res Hm)
    as (_ & _ & Hr).
  rewrite (Hr i Hi). unfold spec_merged_row. now rewrite Hf.
Qed.




Lemma merge_base3_other :
  merge_csvs Examples.base3 Examples.override_other (Some ["New"])
  = Some Examples.merged_other.
Proof. vm_compute. reflexivity. Qed.

(** C9: in a merged table, the row of every base row that no override
    row matches is the base row, cell for cell, followed by an empty
    cell in each added column; and when the matcher says no on every
    pair of rows, the merged table is the base table followed by its
    added columns, all empty. *)
Theorem merge_keeps_unmatched_rows
  (base_df override_df : DataFrame) (add_columns : option (list string))
  (res : DataFrame) :
  wf base_df ->
  merge_csvs base_df override_df add_columns = Some res ->
  (forall i, i < nrows base_df ->
     (forall j, j < nrows override_df ->
        match_files (row_at base_df i) (row_at override_df j) <> Some true) ->
     row_at res i =
       (row_at base_df i ++
        map (fun c => (c, VNA))
            (spec_added_columns base_df override_df add_columns))%list) /\
  ((forall i j, i < nrows base_df -> j < nrows override_df ->
      match_files (row_at base_df i) (row_at override_df j) = Some false) ->
   res = spec_base_with_added base_df override_df add_columns).
Proof.
  intros Hwf Hm. split.
  - intros i Hi Hno.
    destruct (@merge_csvs_sound base_df override_df add_columns Hwf res Hm)
      as (_ & _ & Hr).
    rewrite (Hr i Hi). unfold spec_merged_row, spec_first_match.
    rewrite find_none.
    + now apply row_at_start.
    + intros j Hin. apply in_seq in Hin. unfold is_match.
      specialize (Hno j ltac:(lia)).
      destruct (match_files (row_at base_df i) (row_at override_df j))
        as [[|]|]; congruence.
  - intros Hno. unfold merge_csvs, merge_state in Hm.
    rewrite merge_rows_no_match in Hm.
    + simpl in Hm. injection Hm as <-. apply add_new_columns_spec.
    + intros i j Hin Hj. apply Hno; auto. apply in_seq in Hin. lia.
Qed.

Lemma merge_keeps_unmatched_rows_witness :
  row_at Examples.merged3 1
  = [("Name", VStr "Bar.java"); ("DCC", num 7); ("New", VNA)] /\
  Examples.merged_other
  = spec_base_with_added Examples.base3 Examples.override_other (Some ["New"]).
Proof.
  split.
  - refine (proj1 (@merge_keeps_unmatched_rows Examples.base3
                     Examples.override3 (Some ["New"]) Examples.merged3
                     wf_base3 merge_base3) 1 _ _).
    + simpl; lia.
    + intros j Hj. simpl in Hj.
      destruct j as [|[|[|j]]]; try lia; vm_compute; discriminate.
  - refine (proj2 (@merge_keeps_unmatched_rows Examples.base3
                     Examples.override_other (Some ["New"])
                     Examples.merged_other wf_base3 merge_base3_other) _).
    intros i j Hi Hj. simpl in Hi, Hj.
    destruct i as [|[|[|i]]]; try lia;
      destruct j as [|[|j]]; try lia; reflexivity.
Defined.

(* ================================================================== *)
(** * The metric recalculator *)

(** ** One metric at a time *)

Section Recalc.

Lemma col_get_put_same (cs : list (string * list value)) k vs :
  col_get (cols_put cs k vs) k = Some vs.
Proof.
  induction cs as [|[c old] cs IH]; simpl.
  - now rewrite String.eqb_refl.
  - destruct (String.eqb c k) eqn:E; simpl; now rewrite E.
Qed.

Lemma col_get_put_other (cs : list (string * list value)) k c vs :
  c <> k -> col_get (cols_put cs k vs) c = col_get cs c.
Proof.
  intros Hne. induction cs as [|[c0 old] cs IH]; simpl.
  - assert (String.eqb k c = false) as -> by (apply String.eqb_neq; congruence).
    reflexivity.
  - destruct (String.eqb c0 k) eqn:E; simpl.
    + apply String.eqb_eq in E. subst c0.
      assert (String.eqb k c = false) as -> by (apply String.eqb_neq; congruence).
      reflexivity.
    + now rewrite IH.
Qed.

Lemma col_get_mem (cs : list (string * list value)) k :
  mem k (map fst cs) = match col_get cs k with Some _ => true | None => false end.
Proof.
  induction cs as [|[c old] cs IH]; simpl; auto.
  rewrite String.eqb_sym. destruct (String.eqb c k); simpl; auto.
Qed.

Lemma col_get_In (cs : list (string * list value)) k vs :
  col_get cs k = Some vs -> In k (map fst cs).
Proof.
  intros H. apply mem_In. rewrite col_get_mem. now rewrite H.
Qed.

Variable df : DataFrame.

(** The column a turn of the loop leaves for its metric, given the
    column [old] the result frame had for it. *)
Let turn_column (old : option (list value)) (formula : string) : list value :=
  match py_eval df (build_expr (columns df) formula) with
  | Some (PSeries vs) => vs
  | Some (PScalar x) => repeat x (nrows df)
  | Some PFrame | None =>
      match old with
      | Some o => o
      | None => zeros (nrows df)
      end
  end.

Lemma recalc_metric_spec (res : DataFrame) (metric formula : string) :
  nrows res = nrows df ->
  let res' := recalc_metric df res (metric, formula) in
  nrows res' = nrows df /\
  col_get (cols res') metric
    = Some (turn_column (col_get (cols res) metric) formula) /\
  (forall c, c <> metric -> col_get (cols res') c = col_get (cols res) c).
Proof.
  intros Hn. unfold recalc_metric, try_metric, turn_column. simpl.
  destruct (py_eval df (build_expr (columns df) formula)) as [[|vs|x]|];
    simpl; unfold on_error, columns.
  1, 4: rewrite col_get_mem;
    destruct (col_get (cols res) metric) as [o|] eqn:Eo; simpl;
    [ now rewrite Eo
    | rewrite col_get_put_same, Hn; repeat split; auto;
      intros c Hc; now apply col_get_put_other ].
  - rewrite col_get_put_same. repeat split; auto.
    intros c Hc. now apply col_get_put_other.
  - rewrite col_get_put_same, Hn. repeat split; auto.
    intros c Hc. now apply col_get_put_other.
Qed.

(** The loop over a table of formulas whose metric names differ. *)
Lemma recalc_fold_spec (formulas : list (string * string)) : forall res,
  NoDup (map fst formulas) ->
  nrows res = nrows df ->
  let res' := fold_left (recalc_metric df) formulas res in
  nrows res' = nrows df /\
  (forall metric formula, In (metric, formula) formulas ->
     col_get (cols res') metric
       = Some (turn_column (col_get (cols res) metric) formula)) /\
  (forall c, ~ In c (map fst formulas) ->
     col_get (cols res') c = col_get (cols res) c).
Proof.
  induction formulas as [|[m f] rest IH]; intros res Hnd Hn; simpl.
  - repeat split; auto. intros ? ? [].
  - inversion Hnd as [|? ? Hni Hnd']; subst.
    destruct (@recalc_metric_spec res m f Hn) as (Hn1 & Hm1 & Ho1).
    destruct (IH (recalc_metric df res (m, f)) Hnd' Hn1) as (Hn2 & Hm2 & Ho2).
    split; [assumption|]. split.
    + intros metric formula [[= <- <-]|Hin].
      * rewrite Ho2 by assumption. exact Hm1.
      * rewrite (Hm2 metric formula Hin). f_equal. f_equal.
        apply Ho1. intros ->. apply Hni.
        change m with (fst (m, formula)). now apply in_map.
    + intros c Hc. simpl in Hc. rewrite Ho2 by tauto. apply Ho1.
      intros ->. tauto.
Qed.

End Recalc.

Lemma QMOOD_names : map fst QMOOD_FORMULAS = QMOOD_METRICS.
Proof. reflexivity. Qed.

Lemma QMOOD_names_NoDup : NoDup (map fst QMOOD_FORMULAS).
Proof.
  rewrite QMOOD_names. unfold QMOOD_METRICS.
  repeat (constructor; [simpl; intuition discriminate|]). constructor.
Qed.

(** The recalculated table, column by column. *)
Lemma recalculate_columns (df : DataFrame) :
  nrows (recalculate_qmood_metrics df) = nrows df /\
  (forall metric formula, In (metric, formula) QMOOD_FORMULAS ->
     col_get (cols (recalculate_qmood_metrics df)) metric
       = Some (spec_metric_column df metric formula)) /\
  (forall c, ~ In c QMOOD_METRICS ->
     col_get (cols (recalculate_qmood_metrics df)) c = col_get (cols df) c).
Proof.
  rewrite <- QMOOD_names.
  exact (@recalc_fold_spec df QMOOD_FORMULAS df QMOOD_names_NoDup eq_refl).
Qed.

(* ================================================================== *)
(** * The claims on the metric recalculator *)

(** C10: the recalculated table has a column for each of the six
    metrics, and that column is the value of the metric's formula, or,
    when the formula cannot be evaluated, the column the input had for
    the metric, or zeros when it had none. *)
Theorem recalculate_has_all_metrics (df : DataFrame) (metric : string) :
  In metric QMOOD_METRICS ->
  In metric (columns (recalculate_qmood_metrics df)) /\
  exists formula column,
    In (metric, formula) QMOOD_FORMULAS /\
    col_get (cols (recalculate_qmood_metrics df)) metric = Some column /\
    ((exists vs, py_eval df (build_expr (columns df) formula) = Some (PSeries vs)
                 /\ column = vs) \/
     (exists x, py_eval df (build_expr (columns df) formula) = Some (PScalar x)
                /\ column = repeat x (nrows df)) \/
     (try_raises df formula = true /\
      col_get (cols df) metric = Some column) \/
     (try_raises df formula = true /\
      col_get (cols df) metric = None /\ column = zeros (nrows df))).
Proof.
  intros Hin. rewrite <- QMOOD_names in Hin.
  apply in_map_iff in Hin. destruct Hin as [[m f] [Hm Hin]]. simpl in Hm. subst m.
  destruct (recalculate_columns df) as (_ & Hc & _).
  specialize (Hc metric f Hin). split.
  - now apply col_get_In in Hc.
  - exists f, (spec_metric_column df metric f).
    split; [assumption|]. split; [assumption|].
    unfold spec_metric_column, spec_fallback, try_raises.
    destruct (py_eval df (build_expr (columns df) f)) as [[|vs|x]|].
    2: left; eauto.
    2: right; left; eauto.
    all: right; right; destruct (col_get (cols df) metric); auto.
Qed.

Lemma recalculate_has_all_metrics_witness :
  In "Understandability"
     (columns (recalculate_qmood_metrics Examples.base3)).
Proof.
  apply (@recalculate_has_all_metrics Examples.base3 "Understandability").
  simpl; auto.
Defined.

(** C5: when the expression of a metric cannot be evaluated, the
    recalculated table keeps the column the input had for that metric,
    or holds zeros for it when the input had none; the columns of the
    other metrics are what their own formulas give, and no other column
    changes. *)
Theorem recalculate_failure_fallback
  (df : DataFrame) (metric formula : string) :
  In (metric, formula) QMOOD_FORMULAS ->
  py_eval df (build_expr (columns df) formula) = None ->
  (forall old, col_get (cols df) metric = Some old ->
     col_get (cols (recalculate_qmood_metrics df)) metric = Some old) /\
  (col_get (cols df) metric = None ->
     col_get (cols (recalculate_qmood_metrics df)) metric
       = Some (repeat (VNum 0%float) (nrows df))) /\
  (forall metric' formula',
     In (metric', formula') QMOOD_FORMULAS -> metric' <> metric ->
     col_get (cols (recalculate_qmood_metrics df)) metric'
       = Some (spec_metric_column df metric' formula')) /\
  (forall c, ~ In c QMOOD_METRICS ->
     col_get (cols (recalculate_qmood_metrics df)) c = col_get (cols df) c).
Proof.
  intros Hin Hfail.
  destruct (recalculate_columns df) as (_ & Hc & Ho).
  pose proof (Hc metric formula Hin) as Hm.
  unfold spec_metric_column, spec_fallback in Hm. rewrite Hfail in Hm.
  repeat split.
  - intros old Hold. now rewrite Hold in Hm.
  - intros Hnone. now rewrite Hnone in Hm.
  - intros metric' formula' Hin' _. now apply Hc.
  - exact Ho.
Qed.

Lemma recalculate_failure_fallback_witness :
  col_get (cols (recalculate_qmood_metrics Examples.base3)) "Reusability"
  = Some (repeat (VNum 0%float) 3).
Proof.
  refine (proj1 (proj2
    (@recalculate_failure_fallback Examples.base3 "Reusability"
       "-0.25 * DCC + 0.25 * lcc + 0.5 * CIS + 0.5 * DSC" _ _)) _).
  - simpl; auto.
  - vm_compute. reflexivity.
  - reflexivity.
Defined.

(** ** Substitution never brings in the letters of a metric name *)

Section PlainTexts.

Lemma plain_app (a b : string) : plain (a ++ b) = andb (plain a) (plain b).
Proof.
  induction a as [|c a IH]; simpl; auto. rewrite IH. now rewrite andb_assoc.
Qed.

Lemma plain_startswith (p : string) : forall s,
  PyStr.startswith p s = true -> plain s = true -> plain p = true.
Proof.
  induction p as [|a p IH]; intros [|b s]; simpl; auto; try discriminate.
  intros H1 H2. apply andb_prop in H1. destruct H1 as [Hab Hp].
  apply andb_prop in H2. destruct H2 as [Hb Hs].
  apply Ascii.eqb_eq in Hab. subst b. rewrite Hb. simpl. now apply (IH s).
Qed.

Lemma plain_contains (p s : string) :
  PyStr.contains p s = true -> plain s = true -> plain p = true.
Proof.
  induction s as [|b s IH]; simpl.
  - intros H _. now apply (plain_startswith p EmptyString).
  - intros H Hs. apply orb_prop in H. destruct H as [H|H].
    + now apply (plain_startswith p (String b s)).
    + apply IH; auto. apply andb_prop in Hs. tauto.
Qed.

Lemma plain_sub_go (p repl : string) : plain repl = true ->
  forall s prev skip, plain s = true ->
    plain (PyRe.sub_go p repl prev skip s) = true.
Proof.
  intros Hr. induction s as [|c s IH]; intros prev skip Hs; simpl.
  - now destruct (andb _ _).
  - apply andb_prop in Hs. destruct Hs as [Hc Hs].
    destruct skip as [|k]; [|now apply IH].
    destruct (PyRe.matches_at p prev (String c s)).
    + destruct (String.length p); rewrite plain_app, Hr; simpl.
      * rewrite Hc. now apply IH.
      * now apply IH.
    + simpl. rewrite Hc. now apply IH.
Qed.

Lemma plain_substitute_step (expr col : string) :
  plain expr = true -> plain (substitute_step expr col) = true.
Proof.
  intros He. unfold substitute_step.
  destruct (PyStr.contains col expr) eqn:Ec; auto.
  unfold PyRe.sub. apply plain_sub_go; auto.
  unfold PyRe.reference. rewrite !plain_app.
  now rewrite (plain_contains col expr Ec He).
Qed.

Lemma plain_build_expr (cs : list string) : forall formula,
  plain formula = true -> plain (build_expr cs formula) = true.
Proof.
  unfold build_expr. induction cs as [|c cs IH]; intros f Hf; simpl; auto.
  apply IH. now apply plain_substitute_step.
Qed.

(** A metric name leaves a plain expression as it is. *)
Lemma substitute_step_metric (expr metric : string) :
  plain expr = true -> In metric QMOOD_METRICS ->
  substitute_step expr metric = expr.
Proof.
  intros He Hin. unfold substitute_step.
  destruct (PyStr.contains metric expr) eqn:Ec; auto.
  pose proof (plain_contains metric expr Ec He) as Hp.
  simpl in Hin.
  repeat (destruct Hin as [<-|Hin]; [discriminate Hp|]). destruct Hin.
Qed.

Lemma build_expr_metrics (ms : list string) : forall expr,
  plain expr = true -> Forall (fun m => In m QMOOD_METRICS) ms ->
  fold_left substitute_step ms expr = expr.
Proof.
  induction ms as [|m ms IH]; intros expr He Hms; simpl; auto.
  inversion Hms; subst. rewrite substitute_step_metric; auto.
Qed.

Lemma QMOOD_FORMULAS_plain :
  Forall (fun mf => plain (snd mf) = true) QMOOD_FORMULAS.
Proof. repeat constructor. Qed.

End PlainTexts.

(** ** Lexing and parsing keep a plain text plain *)

Section PlainParse.

Let plain_tokens (ts : list PyEval.token) : bool := forallb plain_token ts.

Lemma plain_chars_rev (l : list ascii) :
  plain_chars (List.rev l) = plain_chars l.
Proof.
  unfold plain_chars. destruct (forallb _ l) eqn:E.
  - apply forallb_forall. intros x Hx. apply in_rev in Hx.
    now apply (proj1 (forallb_forall _ l) E).
  - destruct (forallb _ (List.rev l)) eqn:E'; auto.
    rewrite <- E. symmetry. apply forallb_forall. intros x Hx.
    apply (proj1 (forallb_forall _ (List.rev l)) E'). now apply in_rev in Hx.
Qed.

Lemma plain_of_list (l : list ascii) :
  plain (string_of_list_ascii l) = plain_chars l.
Proof. induction l as [|c l IH]; simpl; auto. now rewrite IH. Qed.

Lemma plain_str_of (acc : list ascii) :
  plain (PyEval.str_of acc) = plain_chars acc.
Proof. unfold PyEval.str_of. now rewrite plain_of_list, plain_chars_rev. Qed.

Lemma plain_lex_idle c out st' out' :
  metric_letter c = false -> plain_tokens out = true ->
  PyEval.lex_idle c out = Some (st', out') ->
  plain_state st' = true /\ plain_tokens out' = true.
Proof.
  intros Hc Ho. unfold PyEval.lex_idle.
  repeat match goal with
         | |- context [if ?b then _ else _] => destruct b
         end;
    intros [= <- <-]; simpl; rewrite ?Hc; auto.
Qed.

Lemma plain_lex_step st out c st' out' :
  metric_letter c = false ->
  plain_state st = true -> plain_tokens out = true ->
  PyEval.lex_step st out c = Some (st', out') ->
  plain_state st' = true /\ plain_tokens out' = true.
Proof.
  intros Hc Hs Ho. destruct st as [|acc dot|acc|acc]; simpl.
  - now apply plain_lex_idle.
  - repeat match goal with
           | |- context [if ?b then _ else _] => destruct b
           end; try discriminate; try (intros [= <- <-]; auto).
    destruct (PyEval.number_of_literal _); [|discriminate].
    apply plain_lex_idle; auto.
  - destruct (PyRe.is_word c).
    + intros [= <- <-]. simpl in *. now rewrite Hc.
    + apply plain_lex_idle; auto. simpl in *. now rewrite plain_str_of, Hs.
  - repeat match goal with
           | |- context [if ?b then _ else _] => destruct b
           end; try discriminate; intros [= <- <-]; simpl in *.
    + now rewrite plain_str_of, Hs.
    + now rewrite Hc.
Qed.

Lemma plain_lex_go (s : string) : forall st out ts,
  plain s = true -> plain_state st = true -> plain_tokens out = true ->
  PyEval.lex_go st out s = Some ts -> plain_tokens ts = true.
Proof.
  assert (Hrev : forall l, plain_tokens l = true ->
                           plain_tokens (List.rev l) = true).
  { intros l Hl. apply forallb_forall. intros x Hx. apply in_rev in Hx.
    now apply (proj1 (forallb_forall _ l) Hl). }
  induction s as [|c s IH]; intros st out ts Hp Hs Ho; simpl.
  - destruct st as [|acc dot|acc|acc]; try discriminate.
    + intros [= <-]. now apply Hrev.
    + destruct (PyEval.number_of_literal _) as [q|]; [|discriminate].
      intros [= <-]. now apply (Hrev (PyEval.TNum q :: out)).
    + intros [= <-]. apply (Hrev (PyEval.TName (PyEval.str_of acc) :: out)).
      simpl in *. now rewrite plain_str_of, Hs.
  - simpl in Hp. apply andb_prop in Hp. destruct Hp as [Hc Hp].
    apply negb_true_iff in Hc.
    destruct (PyEval.lex_step st out c) as [[st' out']|] eqn:E; [|discriminate].
    destruct (plain_lex_step st out c Hc Hs Ho E) as [Hs' Ho'].
    now apply IH.
Qed.

Lemma plain_join_strings (ts : list PyEval.token) :
  plain_tokens ts = true -> plain_tokens (PyEval.join_strings ts) = true.
Proof.
  induction ts as [|t ts IH]; simpl; auto.
  intros H. apply andb_prop in H. destruct H as [Ht Hts].
  specialize (IH Hts).
  destruct t; simpl in *; try (now rewrite IH).
  - now rewrite Ht, IH.
  - destruct (PyEval.join_strings ts) as [|[] r]; simpl in *;
      rewrite ?Ht; auto.
    apply andb_prop in IH. destruct IH as [Hb Hr].
    now rewrite plain_app, Ht, Hb.
Qed.

Lemma plain_tokenize (s : string) (ts : list PyEval.token) :
  plain s = true -> PyEval.tokenize s = Some ts -> plain_tokens ts = true.
Proof.
  intros Hp. unfold PyEval.tokenize.
  destruct (PyEval.lex_go PyEval.LIdle [] s) as [l|] eqn:E; [|discriminate].
  intros [= <-]. apply plain_join_strings.
  now apply (plain_lex_go s PyEval.LIdle [] Hp).
Qed.

End PlainParse.

Section PlainParser.

Let pt (ts : list PyEval.token) : Prop := forallb plain_token ts = true.

Let ok (res : option (PyEval.expr * list PyEval.token)) : Prop :=
  match res with
  | Some (e, r) => plain_expr e = true /\ pt r
  | None => True
  end.

Lemma plain_parse_atom ts : pt ts -> ok (PyEval.parse_atom ts).
Proof.
  unfold pt, ok. destruct ts as [|[] r]; simpl; auto;
    intros H; apply andb_prop in H; tauto.
Qed.

Lemma pt_tail t ts : pt (t :: ts) -> pt ts.
Proof. unfold pt. simpl. intros H. apply andb_prop in H. tauto. Qed.

Lemma plain_parser (fuel : nat) :
  (forall ts, pt ts -> ok (PyEval.parse_sum fuel ts)) /\
  (forall e ts, plain_expr e = true -> pt ts ->
     ok (PyEval.sum_tail fuel e ts)) /\
  (forall ts, pt ts -> ok (PyEval.parse_term fuel ts)) /\
  (forall e ts, plain_expr e = true -> pt ts ->
     ok (PyEval.term_tail fuel e ts)) /\
  (forall ts, pt ts -> ok (PyEval.parse_factor fuel ts)) /\
  (forall e ts, plain_expr e = true -> pt ts ->
     ok (PyEval.index_tail fuel e ts)).
Proof.
  induction fuel as [|f (IHsum & IHst & IHterm & IHtt & IHfac & IHit)].
  - repeat split; intros; exact I.
  - repeat split.
    + intros ts Hts. simpl.
      pose proof (IHterm ts Hts) as H.
      destruct (PyEval.parse_term f ts) as [[e r]|]; [|exact I].
      destruct H. now apply IHst.
    + intros e ts He Hts. simpl.
      destruct ts as [|t r]; [now split|].
      pose proof (pt_tail Hts) as Hr.
      destruct t; try (now split).
      * pose proof (IHterm r Hr) as H.
        destruct (PyEval.parse_term f r) as [[e2 r2]|]; [|exact I].
        destruct H as [H1 H2]. apply IHst; auto. simpl. now rewrite He, H1.
      * pose proof (IHterm r Hr) as H.
        destruct (PyEval.parse_term f r) as [[e2 r2]|]; [|exact I].
        destruct H as [H1 H2]. apply IHst; auto. simpl. now rewrite He, H1.
    + intros ts Hts. simpl.
      pose proof (IHfac ts Hts) as H.
      destruct (PyEval.parse_factor f ts) as [[e r]|]; [|exact I].
      destruct H. now apply IHtt.
    + intros e ts He Hts. simpl.
      destruct ts as [|t r]; [now split|].
      pose proof (pt_tail Hts) as Hr.
      destruct t; try (now split).
      pose proof (IHfac r Hr) as H.
      destruct (PyEval.parse_factor f r) as [[e2 r2]|]; [|exact I].
      destruct H as [H1 H2]. apply IHtt; auto. simpl. now rewrite He, H1.
    + intros ts Hts. simpl.
      assert (Hatom : ok match PyEval.parse_atom ts with
                         | Some (e, r) => PyEval.index_tail f e r
                         | None => None
                         end).
      { pose proof (@plain_parse_atom ts Hts) as H.
        destruct (PyEval.parse_atom ts) as [[e r]|]; [|exact I].
        destruct H. now apply IHit. }
      destruct ts as [|t r]; [exact Hatom|].
      pose proof (pt_tail Hts) as Hr.
      destruct t; try exact Hatom.
      * pose proof (IHfac r Hr) as H.
        destruct (PyEval.parse_factor f r) as [[e2 r2]|]; [|exact I].
        exact H.
      * pose proof (IHfac r Hr) as H.
        destruct (PyEval.parse_factor f r) as [[e2 r2]|]; [|exact I].
        exact H.
    + intros e ts He Hts. simpl.
      destruct ts as [|t r]; [now split|].
      pose proof (pt_tail Hts) as Hr.
      destruct t; try (now split).
      pose proof (IHsum r Hr) as H.
      destruct (PyEval.parse_sum f r) as [[k r2]|]; [|exact I].
      destruct H as [H1 H2].
      destruct r2 as [|t2 r3]; [exact I|].
      destruct t2; try exact I.
      apply IHit; [|now apply (pt_tail H2)]. simpl. now rewrite He, H1.
Qed.

Lemma plain_parse (s : string) (e : PyEval.expr) :
  plain s = true -> PyEval.parse s = Some e -> plain_expr e = true.
Proof.
  intros Hp. unfold PyEval.parse.
  destruct (PyEval.tokenize s) as [ts|] eqn:Et; [|discriminate].
  pose proof (@plain_tokenize s ts Hp Et) as Hts.
  pose proof (proj1 (plain_parser (8 * List.length ts + 8)) ts Hts) as H.
  destruct (PyEval.parse_sum _ ts) as [[e' r]|]; [|discriminate].
  destruct r; [|discriminate]. intros [= <-]. apply H.
Qed.

End PlainParser.

(** ** Evaluation does not look at the metric columns *)

Section EvalFrame.

Lemma eval_expr_string (df : DataFrame) (e : PyEval.expr) (s : string) :
  eval_expr df e = Some (PScalar (VStr s)) -> e = PyEval.EStr s.
Proof.
  assert (Hun : forall f v, (forall a b, f a = Some (VStr b) -> False) ->
            unop f v = Some (PScalar (VStr s)) -> False).
  { intros f [|vs|x] Hf; simpl; try discriminate.
    - destruct (map_opt f vs); discriminate.
    - destruct (f x) as [y|] eqn:E; [|discriminate].
      intros [= ->]. eauto. }
  assert (Hbin : forall op a b, binop (arith op) a b = Some (PScalar (VStr s))
                                -> False).
  { intros op [|xs|x] [|ys|y]; simpl; try discriminate.
    - destruct (zip_opt _ xs ys); discriminate.
    - destruct (map_opt _ xs); discriminate.
    - destruct (map_opt _ ys); discriminate.
    - destruct x, y; simpl; discriminate. }
  destruct e; simpl.
  - discriminate.
  - destruct (String.eqb s0 "df"); discriminate.
  - now intros [= ->].
  - destruct (eval_expr df e1) as [[|vs|x]|]; try discriminate;
      destruct (eval_expr df e2) as [[|ws|y]|]; try discriminate.
    simpl. destruct y; try discriminate.
    destruct (col_get (cols df) s0); discriminate.
  - destruct (eval_expr df e); [|discriminate]. intros H. exfalso.
    apply (Hun v_neg p); auto. intros [] b; simpl; discriminate.
  - destruct (eval_expr df e); [|discriminate]. intros H. exfalso.
    apply (Hun v_pos p); auto. intros [] b; simpl; discriminate.
  - destruct (eval_expr df e1); [|discriminate].
    destruct (eval_expr df e2); [|discriminate].
    intros H. exfalso. exact (Hbin _ _ _ H).
  - destruct (eval_expr df e1); [|discriminate].
    destruct (eval_expr df e2); [|discriminate].
    intros H. exfalso. exact (Hbin _ _ _ H).
  - destruct (eval_expr df e1); [|discriminate].
    destruct (eval_expr df e2); [|discriminate].
    intros H. exfalso. exact (Hbin _ _ _ H).
Qed.

Variables d1 d2 : DataFrame.
Hypothesis Hagree :
  forall k, plain k = true -> col_get (cols d1) k = col_get (cols d2) k.

Lemma eval_expr_agree (e : PyEval.expr) :
  plain_expr e = true -> eval_expr d1 e = eval_expr d2 e.
Proof.
  induction e; simpl; intros Hp; auto;
    try (apply andb_prop in Hp; destruct Hp as [Hp1 Hp2];
         rewrite IHe1, IHe2 by assumption);
    try (rewrite IHe by assumption); auto.
  destruct (eval_expr d2 e1) as [[|vs|x]|] eqn:E1; auto.
  destruct (eval_expr d2 e2) as [[|ws|y]|] eqn:E2; auto.
  destruct y; auto. simpl.
  apply eval_expr_string in E2. subst e2. simpl in Hp2.
  now rewrite Hagree.
Qed.

Lemma py_eval_agree (s : string) :
  plain s = true -> py_eval d1 s = py_eval d2 s.
Proof.
  intros Hp. unfold py_eval.
  destruct (PyEval.parse s) as [e|] eqn:E; auto.
  apply eval_expr_agree. now apply (@plain_parse s e).
Qed.

End EvalFrame.

(** ** A second recalculation computes the same columns *)

Section Idempotence.

Variable df : DataFrame.

Lemma cols_put_same (cs : list (string * list value)) k vs :
  col_get cs k = Some vs -> cols_put cs k vs = cs.
Proof.
  induction cs as [|[c old] cs IH]; simpl; [discriminate|].
  destruct (String.eqb c k) eqn:E.
  - now intros [= ->].
  - intros H. now rewrite IH.
Qed.

Lemma metric_not_plain (m : string) :
  In m QMOOD_METRICS -> plain m = false.
Proof.
  simpl. intros H.
  repeat (destruct H as [<-|H]; [reflexivity|]). destruct H.
Qed.

Lemma recalc_metric_columns (d res : DataFrame) (m f : string) :
  columns (recalc_metric d res (m, f)) = columns res \/
  columns (recalc_metric d res (m, f)) = (columns res ++ [m])%list.
Proof.
  assert (Hput : forall vs,
            map fst (cols_put (cols res) m vs) = map fst (cols res) \/
            map fst (cols_put (cols res) m vs) = (map fst (cols res) ++ [m])%list).
  { intros vs. destruct (in_dec string_dec m (map fst (cols res))).
    - left. now apply cols_put_names_in.
    - right. now apply cols_put_names_new. }
  unfold recalc_metric, try_metric, on_error. simpl.
  destruct (py_eval d (build_expr (columns d) f)) as [[|vs|x]|]; simpl;
    try apply Hput;
    destruct (mem m (columns res)); auto; apply Hput.
Qed.

Lemma recalc_fold_columns (d : DataFrame) (formulas : list (string * string)) :
  forall res,
  exists ms,
    columns (fold_left (recalc_metric d) formulas res)
      = (columns res ++ ms)%list /\
    Forall (fun m => In m (map fst formulas)) ms.
Proof.
  induction formulas as [|[m f] rest IH]; intros res; simpl.
  - exists []. now rewrite app_nil_r.
  - destruct (IH (recalc_metric d res (m, f))) as (ms & Hc & Hms).
    assert (Hms' : Forall (fun m0 => m = m0 \/ In m0 (map fst rest)) ms).
    { eapply Forall_impl; [|exact Hms]. simpl. auto. }
    destruct (recalc_metric_columns d res m f) as [E|E]; rewrite E in Hc.
    + exists ms. split; assumption.
    + exists (m :: ms). rewrite <- app_assoc in Hc. split; [assumption|].
      constructor; auto.
Qed.

Let res1 : DataFrame := recalculate_qmood_metrics df.

Lemma recalculated_agrees (k : string) :
  plain k = true -> col_get (cols res1) k = col_get (cols df) k.
Proof.
  intros Hk. apply (proj2 (proj2 (recalculate_columns df))).
  intros Hin. apply metric_not_plain in Hin. congruence.
Qed.

Lemma recalculated_expr (formula : string) :
  plain formula = true ->
  build_expr (columns res1) formula = build_expr (columns df) formula.
Proof.
  intros Hp.
  destruct (recalc_fold_columns df QMOOD_FORMULAS df) as (ms & Hc & Hms).
  unfold res1, recalculate_qmood_metrics. rewrite Hc.
  unfold build_expr. rewrite fold_left_app.
  apply build_expr_metrics.
  - now apply plain_build_expr.
  - now rewrite QMOOD_names in Hms.
Qed.

Lemma recalculated_turn (metric formula : string) :
  In (metric, formula) QMOOD_FORMULAS ->
  recalc_metric res1 res1 (metric, formula) = res1.
Proof.
  intros Hin.
  assert (Hp : plain formula = true)
    by (apply (proj1 (Forall_forall _ _) QMOOD_FORMULAS_plain _ Hin)).
  destruct (recalculate_columns df) as (Hn & Hc & _).
  specialize (Hc metric formula Hin). fold res1 in Hc, Hn.
  unfold recalc_metric, try_metric. simpl.
  rewrite (@recalculated_expr formula Hp).
  rewrite (@py_eval_agree res1 df recalculated_agrees
             (build_expr (columns df) formula))
    by (now apply plain_build_expr).
  unfold spec_metric_column in Hc.
  assert (Hid : forall vs, col_get (cols res1) metric = Some vs ->
                           set_col res1 metric vs = res1).
  { intros vs H. unfold set_col. rewrite (cols_put_same _ _ H).
    now destruct res1. }
  assert (Herr : on_error res1 metric = res1).
  { unfold on_error, columns. rewrite col_get_mem. now rewrite Hc. }
  destruct (py_eval df (build_expr (columns df) formula)) as [[|vs|x]|];
    simpl; auto.
  unfold set_col_scalar. rewrite Hn. auto.
Qed.

Lemma recalculated_fixed :
  recalculate_qmood_metrics res1 = res1.
Proof.
  unfold recalculate_qmood_metrics at 1.
  assert (H : forall l, (forall mf, In mf l -> In mf QMOOD_FORMULAS) ->
                        fold_left (recalc_metric res1) l res1 = res1).
  { induction l as [|[m f] l IH]; intros Hl; simpl; auto.
    rewrite recalculated_turn by (apply Hl; simpl; auto).
    apply IH. intros mf Hmf. apply Hl. simpl; auto. }
  apply H. auto.
Qed.

End Idempotence.

(** C8: recalculating a recalculated table changes nothing.  This holds
    for every table, so in particular for the tables in which all the
    columns the six formulas need are present with numeric values. *)
Theorem recalculate_idempotent (df : DataFrame) :
  recalculate_qmood_metrics (recalculate_qmood_metrics df)
  = recalculate_qmood_metrics df.
Proof. apply recalculated_fixed. Qed.

(* ================================================================== *)
(** * Substitution replaces whole words *)

Section WholeWords.

Lemma append_assoc (a b c : string) : ((a ++ b) ++ c = a ++ (b ++ c))%string.
Proof. induction a as [|x a IH]; simpl; congruence. Qed.

Lemma append_nil_r (a : string) : (a ++ "" = a)%string.
Proof. induction a as [|x a IH]; simpl; congruence. Qed.

Lemma flatten_app (ps qs : list piece) :
  flatten (ps ++ qs) = (flatten ps ++ flatten qs)%string.
Proof.
  induction ps as [|p ps IH]; simpl; auto. now rewrite IH, append_assoc.
Qed.

Lemma startswith_app (p rest : string) :
  PyStr.startswith p (p ++ rest) = true.
Proof.
  induction p as [|a p IH]; simpl; auto. now rewrite Ascii.eqb_refl.
Qed.

Lemma after_app (p rest : string) : PyRe.after p (p ++ rest) = PyRe.head rest.
Proof. induction p as [|a p IH]; simpl; auto. Qed.

Lemma last_char_word (p : string) : forall prev,
  is_word_string p = true -> PyRe.word_opt (PyRe.last_char prev p) = true.
Proof.
  unfold is_word_string. induction p as [|a p IH]; intros prev; simpl.
  - discriminate.
  - intros H. apply andb_prop in H. destruct H as [Ha Hp].
    destruct p as [|b p]; [exact Ha|]. apply IH. exact Hp.
Qed.

Lemma last_char_separator (s : string) : forall prev,
  is_separator s = true -> PyRe.word_opt (PyRe.last_char prev s) = false.
Proof.
  unfold is_separator. induction s as [|a s IH]; intros prev; simpl.
  - discriminate.
  - intros H. apply andb_prop in H. destruct H as [Ha Hs].
    destruct s as [|b s]; [now apply negb_true_iff in Ha|]. apply IH. exact Hs.
Qed.

(** A word that starts the text [w ++ rest] and ends at a boundary is
    the whole word [w]. *)
Lemma prefix_word_eq (col : string) : forall w rest,
  all_chars PyRe.is_word col = true ->
  all_chars PyRe.is_word w = true ->
  PyRe.word_opt (PyRe.head rest) = false ->
  PyStr.startswith col (w ++ rest) = true ->
  PyRe.word_opt (PyRe.after col (w ++ rest)) = false ->
  col = w.
Proof.
  induction col as [|a col IH]; intros w rest Hc Hw Hr Hs Ha.
  - destruct w as [|c w]; auto. simpl in Ha, Hw.
    apply andb_prop in Hw. destruct Hw as [Hcw _]. congruence.
  - simpl in Hc. apply andb_prop in Hc. destruct Hc as [Haw Hc].
    destruct w as [|c w]; simpl in Hs.
    + destruct rest as [|b rest]; [discriminate|].
      apply andb_prop in Hs. destruct Hs as [Hab _].
      apply Ascii.eqb_eq in Hab. subst b. simpl in Hr. congruence.
    + apply andb_prop in Hs. destruct Hs as [Hac Hs].
      apply Ascii.eqb_eq in Hac. subst c.
      simpl in Hw. apply andb_prop in Hw. destruct Hw as [_ Hw].
      f_equal. apply (IH w rest); auto.
Qed.

Variables col repl : string.
Hypothesis Hcol : is_word_string col = true.

Lemma sub_go_end (prev : option ascii) :
  PyRe.sub_go col repl prev 0 "" = "".
Proof.
  simpl. unfold PyRe.matches_at.
  destruct col; [discriminate|]. simpl. now rewrite andb_false_r.
Qed.

Lemma sub_go_separator (s : string) : forall prev rest,
  all_chars (fun c => negb (PyRe.is_word c)) s = true ->
  PyRe.sub_go col repl prev 0 (s ++ rest)
  = (s ++ PyRe.sub_go col repl (PyRe.last_char prev s) 0 rest)%string.
Proof.
  induction s as [|c s IH]; intros prev rest Hs; simpl; auto.
  simpl in Hs. apply andb_prop in Hs. destruct Hs as [Hc Hs].
  assert (Hno : PyRe.matches_at col prev (String c (s ++ rest)) = false).
  { unfold PyRe.matches_at. destruct col as [|a p]; [discriminate|].
    unfold is_word_string in Hcol. simpl in Hcol.
    apply andb_prop in Hcol. destruct Hcol as [Ha _].
    simpl. destruct (Ascii.eqb a c) eqn:E.
    - apply Ascii.eqb_eq in E. subst c. rewrite Ha in Hc. discriminate.
    - simpl. now rewrite andb_false_r. }
  rewrite Hno. f_equal. now apply IH.
Qed.

Lemma sub_go_skip (s : string) : forall prev rest,
  PyRe.sub_go col repl prev (String.length s) (s ++ rest)
  = PyRe.sub_go col repl (PyRe.last_char prev s) 0 rest.
Proof.
  induction s as [|c s IH]; intros prev rest; simpl; auto.
Qed.

Lemma sub_go_inside_word (w : string) : forall prev rest,
  PyRe.word_opt prev = true ->
  all_chars PyRe.is_word w = true ->
  PyRe.sub_go col repl prev 0 (w ++ rest)
  = (w ++ PyRe.sub_go col repl (PyRe.last_char prev w) 0 rest)%string.
Proof.
  induction w as [|c w IH]; intros prev rest Hp Hw; simpl; auto.
  simpl in Hw. apply andb_prop in Hw. destruct Hw as [Hc Hw].
  unfold PyRe.matches_at, PyRe.boundary. simpl. rewrite Hp, Hc. simpl.
  f_equal. now apply IH.
Qed.

(** The word [col], between separators, is replaced. *)
Lemma sub_go_word_hit (prev : option ascii) (rest : string) :
  PyRe.word_opt prev = false ->
  PyRe.word_opt (PyRe.head rest) = false ->
  PyRe.sub_go col repl prev 0 (col ++ rest)
  = (repl ++ PyRe.sub_go col repl (PyRe.last_char prev col) 0 rest)%string.
Proof.
  intros Hp Hr.
  assert (Hm : PyRe.matches_at col prev (col ++ rest) = true).
  { unfold PyRe.matches_at, PyRe.boundary.
    rewrite startswith_app, after_app, Hp, Hr.
    rewrite (last_char_word col prev Hcol).
    destruct col as [|a p]; [discriminate|].
    unfold is_word_string in Hcol. simpl in Hcol.
    apply andb_prop in Hcol. destruct Hcol as [Ha _].
    simpl. now rewrite Ha. }
  destruct col as [|a p] eqn:Ecol; [discriminate|].
  change (String a p ++ rest)%string with (String a (p ++ rest)) in *.
  cbn [PyRe.sub_go]. rewrite Hm. cbn [String.length].
  f_equal. rewrite <- Ecol. rewrite sub_go_skip. now rewrite Ecol.
Qed.

(** Any other word is kept. *)
Lemma sub_go_word_miss (w : string) (prev : option ascii) (rest : string) :
  is_word_string w = true -> w <> col ->
  PyRe.word_opt prev = false ->
  PyRe.word_opt (PyRe.head rest) = false ->
  PyRe.sub_go col repl prev 0 (w ++ rest)
  = (w ++ PyRe.sub_go col repl (PyRe.last_char prev w) 0 rest)%string.
Proof.
  intros Hw Hne Hp Hr.
  assert (Hm : PyRe.matches_at col prev (w ++ rest) = false).
  { unfold PyRe.matches_at, PyRe.boundary.
    destruct (PyStr.startswith col (w ++ rest)) eqn:Es;
      [|now rewrite andb_false_r].
    rewrite (last_char_word col prev Hcol). simpl.
    destruct (PyRe.word_opt (PyRe.after col (w ++ rest))) eqn:Ea;
      [now rewrite andb_false_r|].
    exfalso. apply Hne. symmetry.
    unfold is_word_string in Hcol, Hw.
    apply andb_prop in Hcol. apply andb_prop in Hw.
    apply (prefix_word_eq col w rest); tauto. }
  destruct w as [|c w']; [discriminate|].
  unfold is_word_string in Hw. simpl in Hw.
  apply andb_prop in Hw. destruct Hw as [Hc Hw'].
  change (String c w' ++ rest)%string with (String c (w' ++ rest)) in *.
  cbn [PyRe.sub_go]. rewrite Hm.
  change (String c w' ++ ?x)%string with (String c (w' ++ x)).
  f_equal. cbn [PyRe.last_char].
  apply sub_go_inside_word; auto.
Qed.

End WholeWords.

Lemma head_after_word (ps : list piece) :
  segmented true ps = true -> PyRe.word_opt (PyRe.head (flatten ps)) = false.
Proof.
  destruct ps as [|[w|s] r]; simpl; auto; [discriminate|].
  intros H. apply andb_prop in H. destruct H as [Hs _].
  unfold is_separator in Hs. destruct s as [|c s]; [discriminate|].
  simpl in *. apply andb_prop in Hs. destruct Hs as [Hc _].
  now apply negb_true_iff in Hc.
Qed.

Lemma flatten_reference (col : string) :
  flatten (reference_pieces col) = PyRe.reference col.
Proof. reflexivity. Qed.

Lemma sub_go_pieces (col : string) (Hcol : is_word_string col = true)
  (ps : list piece) : forall prev after_word,
  segmented after_word ps = true ->
  PyRe.word_opt prev = after_word ->
  PyRe.sub_go col (PyRe.reference col) prev 0 (flatten ps)
  = flatten (spec_substitute col ps).
Proof.
  induction ps as [|[w|s] r IH]; intros prev aw Hseg Hprev.
  - now apply sub_go_end.
  - cbn [segmented] in Hseg.
    apply andb_prop in Hseg. destruct Hseg as [Haw Hseg].
    apply andb_prop in Hseg. destruct Hseg as [Hw Hr].
    apply negb_true_iff in Haw. subst aw.
    pose proof (head_after_word r Hr) as Hhead.
    cbn [flatten piece_text spec_substitute flat_map spec_substitute_piece].
    destruct (String.eqb w col) eqn:E.
    + apply String.eqb_eq in E. subst w.
      rewrite (@sub_go_word_hit col (PyRe.reference col) Hcol prev
                 (flatten r) Hprev Hhead).
      rewrite flatten_app, flatten_reference. f_equal.
      apply (IH _ true); auto. now apply last_char_word.
    + apply String.eqb_neq in E.
      rewrite (@sub_go_word_miss col (PyRe.reference col) Hcol w prev
                 (flatten r) Hw E Hprev Hhead).
      cbn [app flatten piece_text]. f_equal.
      apply (IH _ true); auto. now apply last_char_word.
  - cbn [segmented] in Hseg.
    apply andb_prop in Hseg. destruct Hseg as [Hs Hr].
    cbn [flatten piece_text spec_substitute flat_map spec_substitute_piece].
    rewrite (@sub_go_separator col (PyRe.reference col) Hcol s prev
               (flatten r)).
    + cbn [app flatten piece_text]. f_equal.
      apply (IH _ false); auto. now apply last_char_separator.
    + unfold is_separator in Hs. apply andb_prop in Hs. tauto.
Qed.

(** [re.sub] on a text cut into its words and separators: the words
    equal to the column name are replaced, nothing else. *)
Lemma sub_whole_words (col : string) (ps : list piece) :
  is_word_string col = true -> segmented false ps = true ->
  PyRe.sub col (flatten ps) = flatten (spec_substitute col ps).
Proof.
  intros Hcol Hseg. unfold PyRe.sub.
  now apply (@sub_go_pieces col Hcol ps None false).
Qed.

(** ** Rendering: the text after several substitutions *)

Section Rendering.

Lemma all_chars_app (f : ascii -> bool) (a b : string) :
  all_chars f (a ++ b) = andb (all_chars f a) (all_chars f b).
Proof.
  induction a as [|c a IH]; simpl; auto. rewrite IH. now rewrite andb_assoc.
Qed.

Lemma all_chars_startswith (f : ascii -> bool) (p : string) : forall s,
  PyStr.startswith p s = true -> all_chars f s = true -> all_chars f p = true.
Proof.
  induction p as [|a p IH]; intros [|b s]; simpl; auto; try discriminate.
  intros H1 H2. apply andb_prop in H1. destruct H1 as [Hab Hp].
  apply andb_prop in H2. destruct H2 as [Hb Hs].
  apply Ascii.eqb_eq in Hab. subst b. rewrite Hb. simpl. now apply (IH s).
Qed.

Lemma all_chars_contains (f : ascii -> bool) (p s : string) :
  PyStr.contains p s = true -> all_chars f s = true -> all_chars f p = true.
Proof.
  induction s as [|b s IH]; simpl.
  - intros H _. now apply (all_chars_startswith f p EmptyString).
  - intros H Hs. apply orb_prop in H. destruct H as [H|H].
    + now apply (all_chars_startswith f p (String b s)).
    + apply IH; auto. apply andb_prop in Hs. tauto.
Qed.

Lemma contains_prefix (p rest : string) : PyStr.contains p (p ++ rest) = true.
Proof.
  destruct (p ++ rest)%string as [|c r] eqn:E; simpl.
  - destruct p; [reflexivity | discriminate].
  - rewrite <- E. now rewrite startswith_app.
Qed.

Lemma contains_app_r (p pre s : string) :
  PyStr.contains p s = true -> PyStr.contains p (pre ++ s) = true.
Proof.
  intros H. induction pre as [|c pre IH]; simpl; auto.
  rewrite IH. apply orb_true_r.
Qed.

Lemma segmented_weaken (ps : list piece) :
  segmented true ps = true -> segmented false ps = true.
Proof. destruct ps as [|[w|s] r]; simpl; auto; discriminate. Qed.

Variable chosen : string -> bool.

Lemma segmented_render (ps : list piece) : forall after_word,
  segmented after_word ps = true ->
  segmented after_word (spec_render chosen ps) = true.
Proof.
  induction ps as [|[w|s] r IH]; intros aw H; simpl in *; auto.
  - apply andb_prop in H. destruct H as [Haw H].
    apply andb_prop in H. destruct H as [Hw Hr].
    destruct (chosen w); simpl.
    + rewrite Haw, Hw. simpl. apply IH. now apply segmented_weaken.
    + rewrite Haw, Hw. simpl. now apply IH.
  - apply andb_prop in H. destruct H as [Hs Hr].
    rewrite Hs. simpl. now apply IH.
Qed.

Lemma alphabet_render (ps : list piece) :
  all_chars in_alphabet (flatten ps) = true ->
  all_chars in_alphabet (flatten (spec_render chosen ps)) = true.
Proof.
  induction ps as [|[w|s] r IH]; simpl; auto;
    rewrite all_chars_app; intros H; apply andb_prop in H;
    destruct H as [H1 H2].
  - destruct (chosen w); simpl.
    + rewrite all_chars_app, H1. simpl. now apply IH.
    + rewrite all_chars_app, H1. simpl. now apply IH.
  - rewrite all_chars_app, H1. simpl. now apply IH.
Qed.

Lemma contains_render (c : string) (ps : list piece) :
  In (W c) ps -> chosen c = false ->
  PyStr.contains c (flatten (spec_render chosen ps)) = true.
Proof.
  intros Hin Hc. induction ps as [|p r IH]; [destruct Hin|].
  unfold spec_render. cbn [flat_map]. rewrite flatten_app.
  destruct Hin as [->|Hin].
  - cbn [spec_render_piece]. rewrite Hc. simpl.
    rewrite append_nil_r. apply contains_prefix.
  - apply contains_app_r. now apply IH.
Qed.

Lemma render_ext (other : string -> bool) (ps : list piece) :
  (forall w, In (W w) ps -> chosen w = other w) ->
  spec_render chosen ps = spec_render other ps.
Proof.
  induction ps as [|[w|s] r IH]; intros H; simpl; auto.
  - rewrite (H w) by (simpl; auto). f_equal.
    apply IH. intros w' Hin. apply H. simpl; auto.
  - f_equal. apply IH. intros w' Hin. apply H. simpl; auto.
Qed.

(** One more substitution, on whole words. *)
Lemma substitute_render (c : string) (ps : list piece) :
  chosen c = false -> c <> "df" ->
  spec_substitute c (spec_render chosen ps)
  = spec_render (fun w => orb (String.eqb w c) (chosen w)) ps.
Proof.
  intros Hc Hdf. unfold spec_substitute, spec_render.
  assert (Hdfc : String.eqb "df" c = false)
    by (apply String.eqb_neq; congruence).
  induction ps as [|[w|s] r IH]; cbn [flat_map]; auto.
  - rewrite flat_map_app, IH. f_equal.
    cbn [spec_render_piece].
    destruct (chosen w) eqn:Ew.
    + assert (String.eqb w c = false) as Hwc.
      { apply String.eqb_neq. intros ->. congruence. }
      rewrite Hwc. unfold reference_pieces.
      cbn [flat_map spec_substitute_piece]. rewrite Hdfc, Hwc. reflexivity.
    + rewrite orb_false_r. cbn [flat_map spec_substitute_piece].
      destruct (String.eqb w c) eqn:E.
      * apply String.eqb_eq in E. subst w. now rewrite app_nil_r.
      * reflexivity.
  - rewrite flat_map_app, IH. reflexivity.
Qed.

End Rendering.

Lemma render_nothing (qs : list piece) :
  spec_render (fun _ => false) qs = qs.
Proof.
  unfold spec_render. induction qs as [|[w|s] r IH]; simpl; congruence.
Qed.

Section BuildExpr.

Variable ps : list piece.
Hypothesis Hseg : segmented false ps = true.
Hypothesis Halpha : all_chars in_alphabet (flatten ps) = true.

Lemma identifier_word (c : string) :
  is_identifier c = true -> is_word_string c = true.
Proof.
  unfold is_identifier. destruct c; [discriminate|].
  intros H. apply andb_prop in H. tauto.
Qed.

Lemma substitute_step_render (chosen : string -> bool) (c : string) :
  harmless c = true -> chosen c = false ->
  substitute_step (flatten (spec_render chosen ps)) c
  = flatten (spec_render (fun w => orb (String.eqb w c) (chosen w)) ps).
Proof.
  intros Hh Hc. unfold substitute_step.
  destruct (PyStr.contains c (flatten (spec_render chosen ps))) eqn:Ec.
  - pose proof (all_chars_contains in_alphabet c _ Ec
                  (alphabet_render chosen ps Halpha)) as Ha.
    unfold harmless in Hh. rewrite Ha in Hh. simpl in Hh.
    rewrite orb_false_r in Hh. apply andb_prop in Hh. destruct Hh as [Hid Hdf].
    apply negb_true_iff, String.eqb_neq in Hdf.
    rewrite sub_whole_words.
    + now rewrite substitute_render.
    + now apply identifier_word.
    + now apply segmented_render.
  - f_equal. apply render_ext. intros w Hin.
    destruct (String.eqb w c) eqn:E; auto.
    apply String.eqb_eq in E. subst w.
    rewrite (contains_render chosen c ps Hin Hc) in Ec. discriminate.
Qed.

Lemma build_expr_render (cs : list string) : forall chosen,
  NoDup cs -> Forall (fun c => harmless c = true) cs ->
  (forall c, In c cs -> chosen c = false) ->
  fold_left substitute_step cs (flatten (spec_render chosen ps))
  = flatten (spec_render (fun w => orb (mem w cs) (chosen w)) ps).
Proof.
  induction cs as [|c cs IH]; intros chosen Hnd Hh Hc; simpl.
  - reflexivity.
  - inversion Hnd as [|? ? Hni Hnd']; subst.
    inversion Hh as [|? ? Hhc Hh']; subst.
    rewrite substitute_step_render by (auto; apply Hc; simpl; auto).
    rewrite IH; auto.
    + f_equal. apply render_ext. intros w _.
      now rewrite orb_assoc, (orb_comm (mem w cs)).
    + intros c' Hin. rewrite (Hc c') by (simpl; auto).
      rewrite orb_false_r. apply String.eqb_neq. intros ->. contradiction.
Qed.

(** The expression built over the columns [cs]: the words of the formula
    that are columns have become references. *)
Lemma build_expr_spec (cs : list string) :
  NoDup cs -> Forall (fun c => harmless c = true) cs ->
  build_expr cs (flatten ps)
  = flatten (spec_render (fun w => mem w cs) ps).
Proof.
  intros Hnd Hh. unfold build_expr.
  rewrite <- (render_nothing ps) at 1.
  rewrite build_expr_render; auto.
  f_equal. apply render_ext. intros w _. apply orb_false_r.
Qed.

End BuildExpr.

(* ================================================================== *)
(** * Evaluation over numeric columns *)

Section Tabulated.

Lemma map_opt_seq (g : value -> option value) (f h : nat -> value) :
  (forall i, g (f i) = Some (h i)) ->
  forall len start,
    map_opt g (map f (seq start len)) = Some (map h (seq start len)).
Proof.
  intros H. induction len as [|len IH]; intros start; simpl; auto.
  now rewrite H, IH.
Qed.

Lemma zip_opt_seq (op : value -> value -> option value)
  (f g h : nat -> value) :
  (forall i, op (f i) (g i) = Some (h i)) ->
  forall len start,
    zip_opt op (map f (seq start len)) (map g (seq start len))
    = Some (map h (seq start len)).
Proof.
  intros H. induction len as [|len IH]; intros start; simpl; auto.
  now rewrite H, IH.
Qed.

Lemma column_tabulate (qs : list float) :
  map VNum qs
  = tabulate (fun i => VNum (nth i qs 0%float)) (List.length qs).
Proof.
  unfold tabulate.
  assert (H : forall start,
            map VNum qs
            = map (fun i => VNum (nth (i - start) qs 0%float))
                  (seq start (List.length qs))).
  { induction qs as [|q qs IH]; intros start; simpl; auto.
    rewrite Nat.sub_diag. f_equal.
    rewrite (IH (S start)). apply map_ext_in.
    intros i Hi. apply in_seq in Hi.
    replace (i - start) with (S (i - S start)) by lia. reflexivity. }
  rewrite (H 0). apply map_ext. intros i. now rewrite Nat.sub_0_r.
Qed.

Lemma tabulate_nth (f : nat -> value) (n i : nat) :
  i < n -> nth i (tabulate f n) VNaN = f i.
Proof.
  intros Hi. unfold tabulate.
  rewrite (nth_indep _ VNaN (f 0)) by (now rewrite length_map, length_seq).
  rewrite (map_nth f (seq 0 n) 0 i). now rewrite seq_nth.
Qed.

Lemma tabulate_length (f : nat -> value) (n : nat) :
  List.length (tabulate f n) = n.
Proof. unfold tabulate. now rewrite length_map, length_seq. Qed.

Lemma binop_pack (opq : float -> float -> float) (ha hb : bool) (A B : nat -> float)
  (n : nat) :
  (ha = false -> forall i, A i = A 0) ->
  (hb = false -> forall i, B i = B 0) ->
  binop (arith opq) (pack ha A n) (pack hb B n)
  = Some (pack (orb ha hb) (fun i => opq (A i) (B i)) n).
Proof.
  intros HA HB. unfold pack, tabulate.
  destruct ha, hb; simpl.
  - now rewrite (zip_opt_seq (arith opq) _ _
                   (fun i => VNum (opq (A i) (B i)))).
  - rewrite (map_opt_seq _ _ (fun i => VNum (opq (A i) (B i)))); auto.
    intros i. simpl. now rewrite (HB eq_refl i).
  - rewrite (map_opt_seq _ _ (fun i => VNum (opq (A i) (B i)))); auto.
    intros i. simpl. now rewrite (HA eq_refl i).
  - reflexivity.
Qed.

Lemma unop_pack (f : value -> option value) (fq : float -> float) (h : bool)
  (A : nat -> float) (n : nat) :
  (forall q, f (VNum q) = Some (VNum (fq q))) ->
  unop f (pack h A n) = Some (pack h (fun i => fq (A i)) n).
Proof.
  intros Hf. unfold pack, tabulate. destruct h; simpl.
  - now rewrite (map_opt_seq f _ (fun i => VNum (fq (A i)))).
  - now rewrite Hf.
Qed.

End Tabulated.

Section NumericEval.

Variable df : DataFrame.
Variable numcol : string -> list float.

Let env (i : nat) (c : string) : float := nth i (numcol c) 0%float.

Lemma row_value_const (e : PyEval.expr) (env1 env2 : string -> float) :
  linear e = true -> has_column e = false ->
  row_value env1 e = row_value env2 e.
Proof.
  unfold has_column.
  induction e; simpl; intros Hl Hc; auto; try discriminate.
  - destruct e1; try discriminate. destruct e2; discriminate.
  - now rewrite IHe.
  - apply andb_prop in Hl. destruct Hl as [H1 H2].
    destruct (column_refs e1); [|discriminate].
    now rewrite IHe1, IHe2.
  - apply andb_prop in Hl. destruct Hl as [H1 H2].
    destruct (column_refs e1); [|discriminate].
    now rewrite IHe1, IHe2.
  - apply andb_prop in Hl. destruct Hl as [H1 H2].
    destruct (column_refs e1); [|discriminate].
    now rewrite IHe1, IHe2.
Qed.

Lemma has_column_app (a b : PyEval.expr) :
  match (column_refs a ++ column_refs b)%list with
  | [] => false
  | _ :: _ => true
  end = orb (has_column a) (has_column b).
Proof.
  unfold has_column. destruct (column_refs a); simpl; auto.
Qed.

Lemma eval_linear (e : PyEval.expr) :
  linear e = true ->
  (forall c, In c (column_refs e) -> numeric_column df c (numcol c)) ->
  eval_expr df e
  = Some (pack (has_column e) (fun i => row_value (env i) e) (nrows df)).
Proof.
  assert (Hbin : forall opq a b,
            linear a = true -> linear b = true ->
            eval_expr df a
              = Some (pack (has_column a) (fun i => row_value (env i) a)
                           (nrows df)) ->
            eval_expr df b
              = Some (pack (has_column b) (fun i => row_value (env i) b)
                           (nrows df)) ->
            match eval_expr df a, eval_expr df b with
            | Some x, Some y => binop (arith opq) x y
            | _, _ => None
            end
            = Some (pack (orb (has_column a) (has_column b))
                      (fun i => opq (row_value (env i) a)
                                    (row_value (env i) b))
                      (nrows df))).
  { intros opq a b La Lb -> ->. apply binop_pack.
    - intros H i. now apply row_value_const.
    - intros H i. now apply row_value_const. }
  induction e; simpl; intros Hl Hc; try discriminate.
  - reflexivity.
  - destruct e1; try discriminate. destruct e2; try discriminate.
    apply String.eqb_eq in Hl. subst s. simpl.
    destruct (Hc s0 (or_introl eq_refl)) as [Hget Hlen].
    rewrite Hget. simpl. unfold pack, has_column. simpl.
    rewrite column_tabulate, Hlen. reflexivity.
  - rewrite IHe by assumption.
    apply (unop_pack v_neg PrimFloat.opp). reflexivity.
  - rewrite IHe by assumption.
    apply (unop_pack v_pos (fun q => q)). reflexivity.
  - apply andb_prop in Hl. destruct Hl as [H1 H2].
    unfold has_column. simpl. rewrite has_column_app.
    apply (Hbin PrimFloat.add); auto.
    + apply IHe1; auto. intros c Hin. apply Hc. apply in_or_app. auto.
    + apply IHe2; auto. intros c Hin. apply Hc. apply in_or_app. auto.
  - apply andb_prop in Hl. destruct Hl as [H1 H2].
    unfold has_column. simpl. rewrite has_column_app.
    apply (Hbin PrimFloat.sub); auto.
    + apply IHe1; auto. intros c Hin. apply Hc. apply in_or_app. auto.
    + apply IHe2; auto. intros c Hin. apply Hc. apply in_or_app. auto.
  - apply andb_prop in Hl. destruct Hl as [H1 H2].
    unfold has_column. simpl. rewrite has_column_app.
    apply (Hbin PrimFloat.mul); auto.
    + apply IHe1; auto. intros c Hin. apply Hc. apply in_or_app. auto.
    + apply IHe2; auto. intros c Hin. apply Hc. apply in_or_app. auto.
Qed.

End NumericEval.

(* ================================================================== *)
(** * The expression of a formula, turn by turn *)

Lemma formulas_segmented :
  Forall (fun mf =>
            segmented false (split_words (snd mf)) = true /\
            flatten (split_words (snd mf)) = snd mf /\
            all_chars in_alphabet (snd mf) = true /\
            words_start_no_metric (split_words (snd mf)) = true)
         QMOOD_FORMULAS.
Proof. repeat constructor. Qed.

Lemma longer_name_no_metric (w suffix : string) :
  starts_no_metric w = true -> ~ In (w ++ suffix)%string QMOOD_METRICS.
Proof.
  unfold starts_no_metric. intros H Hin.
  pose proof (proj1 (forallb_forall _ _) H _ Hin) as Hs.
  cbv beta in Hs. now rewrite startswith_app in Hs.
Qed.

Lemma flatten_split_words (s : string) : flatten (split_words s) = s.
Proof.
  induction s as [|c s IH]; simpl; auto.
  destruct (PyRe.is_word c), (split_words s) as [|[w|t] ps];
    simpl in *; congruence.
Qed.

Lemma segmented_split_words (s : string) :
  segmented false (split_words s) = true.
Proof.
  induction s as [|c s IH]; simpl; auto.
  destruct (PyRe.is_word c) eqn:Ec, (split_words s) as [|[w|t] ps];
    simpl in *; unfold is_word_string, is_separator in *; simpl;
    rewrite ?Ec; simpl; auto.
  - apply andb_prop in IH. destruct IH as [IH1 IH2].
    apply andb_prop in IH1. destruct IH1 as [_ IH1]. now rewrite IH1, IH2.
  - apply andb_prop in IH. destruct IH as [IH1 IH2].
    apply andb_prop in IH1. destruct IH1 as [_ IH1]. now rewrite IH1, IH2.
Qed.

Lemma word_of_segmented (col : string) (ps : list piece) : forall b,
  segmented b ps = true -> In (W col) ps -> is_word_string col = true.
Proof.
  induction ps as [|[w|s] r IH]; intros b Hs []; simpl in Hs.
  - injection H as ->.
    apply andb_prop in Hs. destruct Hs as [_ Hs].
    apply andb_prop in Hs. tauto.
  - apply andb_prop in Hs. destruct Hs as [_ Hs].
    apply andb_prop in Hs. destruct Hs as [_ Hs]. now apply (IH true).
  - discriminate.
  - apply andb_prop in Hs. destruct Hs as [_ Hs]. now apply (IH false).
Qed.

Lemma longer_name_differs (col suffix : string) :
  suffix <> EmptyString -> String.eqb (col ++ suffix) col = false.
Proof.
  intros Hsuf. apply String.eqb_neq. intros E. apply Hsuf.
  induction col as [|a c IH]; simpl in E; auto.
  injection E as E. auto.
Qed.

(** The expression of a metric over a table with distinct harmless
    column names: the formula in which each word that is a column has
    become the reference to that column. *)
Lemma build_expr_formula (df : DataFrame) (metric formula : string) :
  In (metric, formula) QMOOD_FORMULAS ->
  NoDup (columns df) ->
  Forall (fun c => harmless c = true) (columns df) ->
  build_expr (columns df) formula
  = flatten (spec_render (fun w => mem w (columns df))
                         (split_words formula)).
Proof.
  intros Hin Hnd Hh.
  pose proof (proj1 (Forall_forall _ _) formulas_segmented _ Hin)
    as (Hseg & Hflat & Halpha & _). simpl in *.
  rewrite <- Hflat at 1. apply build_expr_spec; auto. now rewrite Hflat.
Qed.

Lemma formula_column_word (formula c : string) :
  In c (formula_columns formula) -> In (W c) (split_words formula).
Proof.
  unfold formula_columns. intros H. apply in_flat_map in H.
  destruct H as ([w|s] & Hin & Hc); [|destruct Hc].
  destruct (is_identifier w); [|destruct Hc].
  destruct Hc as [->|[]]. exact Hin.
Qed.

Lemma mem_snoc (w c : string) (l : list string) :
  mem w (l ++ [c]) = orb (mem w l) (String.eqb w c).
Proof.
  unfold mem. rewrite existsb_app. simpl. now rewrite orb_false_r.
Qed.

Section Turns.

Variable formula : string.
Hypothesis Halpha : all_chars in_alphabet formula = true.
Hypothesis Hfc :
  Forall (fun c => harmless c = true) (formula_columns formula).

Lemma expr_after_ext (before1 before2 : list string) :
  (forall w, In w (formula_columns formula) ->
     mem w before1 = mem w before2) ->
  expr_after formula before1 = expr_after formula before2.
Proof.
  intros H. unfold expr_after. f_equal. apply render_ext. intros w _.
  destruct (mem w (formula_columns formula)) eqn:E.
  - apply mem_In in E. now rewrite (H w E).
  - now rewrite !andb_false_r.
Qed.

Lemma expr_after_nil : expr_after formula [] = formula.
Proof.
  unfold expr_after.
  rewrite (@render_ext _ (fun _ => false)) by reflexivity.
  rewrite render_nothing. apply flatten_split_words.
Qed.

(** The turn of a column of the formula, met for the first time. *)
Lemma turn_formula_column (before : list string) (c : string) :
  mem c (formula_columns formula) = true -> mem c before = false ->
  substitute_step (expr_after formula before) c
  = expr_after formula (before ++ [c]).
Proof.
  intros Hc Hb. unfold expr_after.
  rewrite (@substitute_step_render (split_words formula)
             (segmented_split_words formula)).
  - f_equal. apply render_ext. intros w _. rewrite mem_snoc.
    destruct (String.eqb w c) eqn:E.
    + apply String.eqb_eq in E. subst w. rewrite Hc, Hb. reflexivity.
    + now rewrite orb_false_r.
  - now rewrite flatten_split_words.
  - apply mem_In in Hc. exact (proj1 (Forall_forall _ _) Hfc c Hc).
  - now rewrite Hb.
Qed.

(** A column that is none of the formula does not count. *)
Lemma turn_other (before : list string) (c : string) :
  mem c (formula_columns formula) = false ->
  expr_after formula (before ++ [c]) = expr_after formula before.
Proof.
  intros Hc. apply expr_after_ext. intros w Hw. rewrite mem_snoc.
  destruct (String.eqb w c) eqn:E; [|apply orb_false_r].
  apply String.eqb_eq in E. subst w. apply mem_In in Hw. congruence.
Qed.

Lemma build_turns (cs : list string) : forall before,
  NoDup (before ++ cs) ->
  (forall pre c post, cs = (pre ++ c :: post)%list ->
     turn_keeps formula (before ++ pre) c) ->
  fold_left substitute_step cs (expr_after formula before)
  = expr_after formula (before ++ cs).
Proof.
  induction cs as [|c cs IH]; intros before Hnd Hturn; simpl.
  - now rewrite app_nil_r.
  - assert (Hstep : substitute_step (expr_after formula before) c
                    = expr_after formula (before ++ [c])).
    { destruct (mem c (formula_columns formula)) eqn:Ec.
      - apply turn_formula_column; auto.
        destruct (mem c before) eqn:Eb; auto.
        apply mem_In in Eb. apply NoDup_remove_2 in Hnd.
        exfalso. apply Hnd. apply in_or_app. auto.
      - rewrite (turn_other before c Ec).
        pose proof (Hturn [] c cs eq_refl) as Hk.
        rewrite app_nil_r in Hk. now apply Hk. }
    rewrite Hstep.
    replace (before ++ c :: cs)%list with ((before ++ [c]) ++ cs)%list
      by (now rewrite <- app_assoc).
    apply IH.
    + now rewrite <- app_assoc.
    + intros pre c' post E. rewrite <- app_assoc. simpl.
      apply (Hturn (c :: pre) c' post). now rewrite E.
Qed.

(** The expression built over the columns [cs], when those that are no
    columns of the formula leave it as it is, each at its turn: the
    columns of the formula that are in [cs] have become references. *)
Lemma build_expr_turns (cs : list string) :
  NoDup cs ->
  (forall pre c post, cs = (pre ++ c :: post)%list ->
     turn_keeps formula pre c) ->
  build_expr cs formula = expr_after formula cs.
Proof.
  intros Hnd Hturn. unfold build_expr.
  rewrite <- expr_after_nil at 1.
  now rewrite (@build_turns cs [] Hnd Hturn).
Qed.

Lemma undisturbed_turns (cs : list string) : forall before,
  undisturbed_from formula before cs = true ->
  forall pre c post, cs = (pre ++ c :: post)%list ->
    turn_keeps formula (before ++ pre) c.
Proof.
  induction cs as [|x cs IH]; intros before H pre c post E.
  - destruct pre; discriminate.
  - simpl in H. apply andb_prop in H. destruct H as [Hx Hr].
    destruct pre as [|y pre]; simpl in E; injection E as <- E.
    + rewrite app_nil_r. intros Hc. rewrite Hc in Hx. simpl in Hx.
      now apply String.eqb_eq in Hx.
    + replace (before ++ x :: pre)%list with ((before ++ [x]) ++ pre)%list
        by (now rewrite <- app_assoc).
      now apply (IH (before ++ [x])%list Hr pre c post).
Qed.

(** A longer name is no word of the expression, whichever columns are
    substituted: its turn changes nothing. *)
Lemma longer_turn (col suffix : string) (before : list string) :
  In col (formula_columns formula) ->
  no_extension formula col = true ->
  suffix <> EmptyString ->
  is_word_string (col ++ suffix) = true ->
  substitute_step (expr_after formula before) (col ++ suffix)
  = expr_after formula before.
Proof.
  intros Hcol Hext Hsuf Hword.
  unfold no_extension in Hext. apply andb_prop in Hext.
  destruct Hext as [Hdf Hwords]. apply negb_true_iff in Hdf.
  assert (Hnw : forall w, In (W w) (split_words formula) ->
                  String.eqb w (col ++ suffix) = false).
  { intros w Hw. apply String.eqb_neq. intros ->.
    pose proof (proj1 (forallb_forall _ _) Hwords _ Hw) as H.
    cbv beta iota in H. rewrite startswith_app in H. simpl in H.
    now rewrite (longer_name_differs col Hsuf) in H. }
  unfold substitute_step.
  destruct (PyStr.contains _ _); auto.
  unfold expr_after.
  rewrite sub_whole_words; auto.
  - rewrite substitute_render.
    + f_equal. apply render_ext. intros w Hw. now rewrite (Hnw w Hw).
    + cbv beta.
      destruct (mem (col ++ suffix) (formula_columns formula)) eqn:E;
        [|apply andb_false_r].
      apply mem_In, formula_column_word in E.
      pose proof (Hnw _ E) as Hn. now rewrite String.eqb_refl in Hn.
    + intros E. rewrite <- E, startswith_app in Hdf. discriminate.
  - apply segmented_render. apply segmented_split_words.
Qed.

End Turns.

Lemma undisturbed_keeps (formula : string) (cs : list string) :
  undisturbed formula cs = true ->
  forall pre c post, cs = (pre ++ c :: post)%list ->
    turn_keeps formula pre c.
Proof.
  intros H pre c post E.
  exact (@undisturbed_turns formula cs [] H pre c post E).
Qed.

(** What is checked on the formulas, by computation: their columns are
    identifiers other than [df]; no word extends one of them; with all
    its columns substituted a formula parses to an expression of
    numbers and columns under [+ - *] that refers to its columns. *)
Lemma formulas_static :
  Forall (fun mf =>
            Forall (fun c => harmless c = true) (formula_columns (snd mf)) /\
            forallb (no_extension (snd mf)) (formula_columns (snd mf)) = true /\
            Forall (fun c => PyEval.parse (PyRe.reference c)
                             = Some (column c))
                   (formula_columns (snd mf)) /\
            exists ast,
              formula_expr (snd mf) = Some ast /\
              linear ast = true /\ has_column ast = true /\
              column_refs ast = formula_columns (snd mf))
         QMOOD_FORMULAS.
Proof.
  repeat (apply Forall_cons;
          [split; [repeat constructor|];
           split; [vm_compute; reflexivity|];
           split; [repeat (apply Forall_cons; [vm_compute; reflexivity|]);
                   apply Forall_nil|];
           eexists; split; [vm_compute; reflexivity|];
           repeat split; reflexivity|]).
  apply Forall_nil.
Qed.

(* ================================================================== *)
(** * The value of a metric over numeric columns *)

Section MetricValue.

Variable df : DataFrame.
Variable numcol : string -> list float.
Variables (metric formula : string).

Hypothesis Hformula : In (metric, formula) QMOOD_FORMULAS.
Hypothesis Hnodup : NoDup (columns df).
Hypothesis Hturns :
  forall pre c post, columns df = (pre ++ c :: post)%list ->
    turn_keeps formula pre c.
Hypothesis Hnumeric :
  forall c, In c (formula_columns formula) -> numeric_column df c (numcol c).

Lemma built_expression :
  build_expr (columns df) formula
  = expr_after formula (formula_columns formula).
Proof.
  pose proof (proj1 (Forall_forall _ _) formulas_segmented _ Hformula)
    as (_ & _ & Halpha & _).
  pose proof (proj1 (Forall_forall _ _) formulas_static _ Hformula)
    as (Hfc & _). simpl in *.
  rewrite (@build_expr_turns formula Halpha Hfc (columns df) Hnodup Hturns).
  apply expr_after_ext. intros w Hw.
  destruct (Hnumeric w Hw) as [Hget _]. apply col_get_In in Hget.
  change (In w (columns df)) in Hget.
  apply mem_In in Hget. apply mem_In in Hw. now rewrite Hget, Hw.
Qed.

Lemma metric_value :
  exists ast,
    PyEval.parse (build_expr (columns df) formula) = Some ast /\
    formula_expr formula = Some ast /\
    column_refs ast = formula_columns formula /\
    col_get (cols (recalculate_qmood_metrics df)) metric
    = Some (tabulate
              (fun i => VNum (row_value
                                (fun c => nth i (numcol c) 0%float) ast))
              (nrows df)).
Proof.
  pose proof (proj1 (Forall_forall _ _) formulas_static _ Hformula)
    as (_ & _ & _ & ast & Hparse & Hlinear & Hseries & Hrefs).
  simpl in *.
  exists ast. rewrite built_expression.
  split; [exact Hparse|]. split; [exact Hparse|]. split; [exact Hrefs|].
  destruct (recalculate_columns df) as (_ & Hc & _).
  rewrite (Hc metric formula Hformula).
  unfold spec_metric_column, py_eval.
  rewrite built_expression. unfold formula_expr in Hparse. rewrite Hparse.
  rewrite (@eval_linear df numcol ast Hlinear).
  - rewrite Hseries. reflexivity.
  - intros c Hin. apply Hnumeric. now rewrite <- Hrefs.
Qed.

End MetricValue.

(** The value of a metric, row by row, from [metric_value]: [ast] is the
    expression of the formula and [value] the formula on the numbers of
    a row. *)
Ltac metric_value_of df numcol metric ast :=
  let H := fresh "H" in
  let a := fresh "ast" in
  let Hp := fresh "Hp" in
  let Hv := fresh "Hv" in
  let E := fresh "E" in
  destruct (@metric_value df numcol metric (formula_of QMOOD_FORMULAS metric))
    as (a & _ & Hp & _ & Hv);
  [ simpl; auto 10
  | assumption
  | now apply undisturbed_keeps
  | assumption
  | assert (E : formula_expr (formula_of QMOOD_FORMULAS metric) = Some ast)
      by (vm_compute; reflexivity);
    rewrite E in Hp; injection Hp as <-;
    eexists; split; [exact Hv|]; split;
    [ apply tabulate_length
    | let i := fresh "i" in let Hi := fresh "Hi" in
      intros i Hi; rewrite tabulate_nth by assumption; reflexivity ] ].

(* ================================================================== *)
(** * The claims on the formulas *)

(** C6, as stated, fails: a table with the seven numeric columns and
    one more numeric column named [0].  The name [0] is a whole word of
    the formula (in [0.33]), so it is substituted too, the expression
    [-df['0'].33 * df['ANA'] ...] is no Python expression, and
    Understandability falls back to [0.0] where the formula gives
    [-0.33]. *)
Lemma understandability_broken_by_column_named_0 :
  (forall c, In c understandability_columns ->
     numeric_column MetricExamples.seven_and_zero c
                    (MetricExamples.seven_numbers c)) /\
  build_expr (columns MetricExamples.seven_and_zero)
             (formula_of QMOOD_FORMULAS "Understandability")
  = "-df['0'].33 * df['ANA'] + df['0'].33 * df['DAM'] - df['0'].33 * df['DCC'] + df['0'].33 * df['lcc'] - df['0'].33 * df['NOP'] - df['0'].33 * df['WMC'] + - df['0'].33 * df['DSC']" /\
  col_get (cols (recalculate_qmood_metrics MetricExamples.seven_and_zero))
          "Understandability"
  = Some [VNum 0%float] /\
  spec_understandability 1 0 0 0 0 0 0 <> 0%float.
Proof.
  split; [|split; [|split]].
  - intros c Hin. simpl in Hin.
    repeat (destruct Hin as [<-|Hin]; [split; reflexivity|]). destruct Hin.
  - vm_compute. reflexivity.
  - vm_compute. reflexivity.
  - intros H. apply (f_equal (fun x => PrimFloat.eqb x 0)) in H.
    vm_compute in H. discriminate.
Qed.

(** C6, amended: for every table whose column names are distinct, in
    which every column other than the seven leaves the expression of
    Understandability as it is at its turn (its name is not met as a
    whole word of the expression), and which has numeric columns ANA,
    DAM, DCC, lcc, NOP, WMC and DSC: the expression evaluated is the
    formula with the seven names turned into references, and the
    recalculated Understandability of each row is the binary64 value of
    -0.33 ANA + 0.33 DAM - 0.33 DCC + 0.33 lcc - 0.33 NOP - 0.33 WMC
    + (-0.33) DSC, computed from left to right on the values of that
    row. *)
Theorem understandability_value
  (df : DataFrame) (numcol : string -> list float) :
  NoDup (columns df) ->
  undisturbed (formula_of QMOOD_FORMULAS "Understandability") (columns df)
  = true ->
  (forall c, In c understandability_columns ->
     numeric_column df c (numcol c)) ->
  build_expr (columns df) (formula_of QMOOD_FORMULAS "Understandability")
  = "-0.33 * df['ANA'] + 0.33 * df['DAM'] - 0.33 * df['DCC'] + 0.33 * df['lcc'] - 0.33 * df['NOP'] - 0.33 * df['WMC'] + - 0.33 * df['DSC']" /\
  exists vs,
    col_get (cols (recalculate_qmood_metrics df)) "Understandability"
      = Some vs /\
    List.length vs = nrows df /\
    forall i, i < nrows df ->
      nth i vs VNaN
      = VNum (spec_understandability
                (nth i (numcol "ANA") 0%float) (nth i (numcol "DAM") 0%float)
                (nth i (numcol "DCC") 0%float) (nth i (numcol "lcc") 0%float)
                (nth i (numcol "NOP") 0%float) (nth i (numcol "WMC") 0%float)
                (nth i (numcol "DSC") 0%float)).
Proof.
  intros Hnd Hu Hnum. split.
  - rewrite (@built_expression df numcol "Understandability"
               (formula_of QMOOD_FORMULAS "Understandability")); auto.
    + simpl; auto 10.
    + now apply undisturbed_keeps.
  - metric_value_of df numcol "Understandability" understandability_expr.
Qed.

Lemma understandability_value_witness :
  build_expr (columns TurnExamples.seven_among_others)
             (formula_of QMOOD_FORMULAS "Understandability")
  = "-0.33 * df['ANA'] + 0.33 * df['DAM'] - 0.33 * df['DCC'] + 0.33 * df['lcc'] - 0.33 * df['NOP'] - 0.33 * df['WMC'] + - 0.33 * df['DSC']" /\
  exists vs,
    col_get (cols (recalculate_qmood_metrics TurnExamples.seven_among_others))
            "Understandability" = Some vs /\
    List.length vs = 1 /\
    forall i, i < 1 ->
      nth i vs VNaN
      = VNum (spec_understandability
                (nth i [0%float] 0%float) (nth i [0%float] 0%float)
                (nth i [0%float] 0%float) (nth i [3%float] 0%float)
                (nth i [0%float] 0%float) (nth i [1%float] 0%float)
                (nth i [2%float] 0%float)).
Proof.
  apply (@understandability_value TurnExamples.seven_among_others
           TurnExamples.seven_among_others_numbers).
  - repeat (constructor; [simpl; intuition discriminate|]). constructor.
  - vm_compute. reflexivity.
  - intros c Hin. simpl in Hin.
    repeat (destruct Hin as [<-|Hin]; [split; reflexivity|]). destruct Hin.
Defined.

(** The rounding of binary64 shows: on the row ANA = DAM = DCC = NOP = 0,
    lcc = 3, WMC = 1, DSC = 2 the exact value of the formula is [0] and
    the value computed, and stored, is [-2^-53]. *)
Lemma understandability_rounding :
  spec_understandability 0 0 0 3 0 1 2 = (-0x1p-53)%float /\
  col_get (cols (recalculate_qmood_metrics TurnExamples.seven_among_others))
          "Understandability"
  = Some [VNum (-0x1p-53)%float].
Proof. split; vm_compute; reflexivity. Qed.

(** A longer name is none of the words of the formula. *)
Lemma longer_no_word (formula col suffix w : string) :
  no_extension formula col = true ->
  suffix <> EmptyString ->
  In (W w) (split_words formula) ->
  w <> (col ++ suffix)%string.
Proof.
  intros Hext Hsuf Hw ->.
  unfold no_extension in Hext. apply andb_prop in Hext.
  destruct Hext as [_ Hwords].
  pose proof (proj1 (forallb_forall _ _) Hwords _ Hw) as H.
  cbv beta iota in H. rewrite startswith_app in H. simpl in H.
  now rewrite (longer_name_differs col Hsuf) in H.
Qed.

(** C7: for a column [col] of a formula and a longer name
    [col ++ suffix] (a word too), in every table:
    substituting [col] in any ASCII text replaces the words of the text
    that are equal to [col] by the reference to the column [col], and
    nothing else; the longer word is kept where it occurs; the turn of the
    longer column leaves the expression of the formula as it is,
    whichever columns were met before; the reference [df['col']]
    evaluates to the cells of the column [col]; and the recalculation
    leaves the column of the longer name as it is.
    When moreover the column names are distinct, the columns other than
    the longer one that are no columns of the formula leave the
    expression as it is at their turn, and the columns of the formula
    are numeric: the expression built is the formula with its columns
    turned into references, it refers to [col] and not to the longer
    column, and the metric is its value on the numbers of the columns
    of the formula, row by row. *)
Theorem substitution_whole_words_only
  (df : DataFrame) (numcol : string -> list float)
  (metric formula col suffix : string) :
  In (metric, formula) QMOOD_FORMULAS ->
  In col (formula_columns formula) ->
  suffix <> EmptyString ->
  is_word_string (col ++ suffix) = true ->
  (forall expr, is_ascii expr = true ->
     PyRe.sub col expr = flatten (spec_substitute col (split_words expr))) /\
  (forall before after,
     spec_substitute col (before ++ W (col ++ suffix)%string :: after)
     = (spec_substitute col before ++
        W (col ++ suffix)%string :: spec_substitute col after)%list) /\
  (forall before,
     substitute_step (expr_after formula before) (col ++ suffix)
     = expr_after formula before) /\
  (forall vs, col_get (cols df) col = Some vs ->
     py_eval df (PyRe.reference col) = Some (PSeries vs)) /\
  col_get (cols (recalculate_qmood_metrics df)) (col ++ suffix)
    = col_get (cols df) (col ++ suffix) /\
  (NoDup (columns df) ->
   (forall before c after,
      columns df = (before ++ c :: after)%list ->
      c <> (col ++ suffix)%string -> turn_keeps formula before c) ->
   (forall c, In c (formula_columns formula) ->
      numeric_column df c (numcol c)) ->
   build_expr (columns df) formula
   = expr_after formula (formula_columns formula) /\
   exists ast,
     PyEval.parse (build_expr (columns df) formula) = Some ast /\
     In col (column_refs ast) /\
     ~ In (col ++ suffix)%string (column_refs ast) /\
     col_get (cols (recalculate_qmood_metrics df)) metric
     = Some (tabulate
               (fun i => VNum (row_value
                                 (fun c => nth i (numcol c) 0%float) ast))
               (nrows df))).
Proof.
  intros Hin Hc Hsuf Hlong.
  pose proof (proj1 (Forall_forall _ _) formulas_segmented _ Hin)
    as (Hseg & Hflat & Halpha & Hnm).
  pose proof (proj1 (Forall_forall _ _) formulas_static _ Hin)
    as (Hfc & Hext & Hrefer & _). simpl in *.
  pose proof (formula_column_word formula col Hc) as Hw.
  pose proof (word_of_segmented col _ false Hseg Hw) as Hcol.
  assert (Hextc : no_extension formula col = true)
    by exact (proj1 (forallb_forall _ _) Hext col Hc).
  assert (Hturn : forall before,
            substitute_step (expr_after formula before) (col ++ suffix)
            = expr_after formula before).
  { intros before. now apply longer_turn. }
  split; [|split; [|split; [|split; [|split]]]].
  - intros expr _. rewrite <- (flatten_split_words expr) at 1.
    apply sub_whole_words; auto. apply segmented_split_words.
  - intros before after. unfold spec_substitute.
    rewrite flat_map_app. cbn [flat_map spec_substitute_piece].
    now rewrite (longer_name_differs col Hsuf).
  - exact Hturn.
  - intros vs Hget. unfold py_eval.
    rewrite (proj1 (Forall_forall _ _) Hrefer col Hc).
    unfold column. cbn [eval_expr]. rewrite String.eqb_refl.
    cbn [index]. now rewrite Hget.
  - apply (proj2 (proj2 (recalculate_columns df))).
    apply longer_name_no_metric.
    apply (proj1 (forallb_forall _ _) Hnm (W col) Hw).
  - intros Hnd Hothers Hnum.
    assert (Hturns : forall pre c post,
              columns df = (pre ++ c :: post)%list ->
              turn_keeps formula pre c).
    { intros pre c post E.
      destruct (string_dec c (col ++ suffix)) as [->|Hne].
      - intros _. apply Hturn.
      - now apply (Hothers pre c post). }
    split.
    + now apply (@built_expression df numcol metric formula).
    + destruct (@metric_value df numcol metric formula Hin Hnd Hturns Hnum)
        as (ast & Hp & _ & Hrefs & Hv).
      exists ast. split; [exact Hp|]. rewrite Hrefs.
      split; [exact Hc|]. split; [|exact Hv].
      intros Hl. apply formula_column_word in Hl.
      now apply (longer_no_word formula col Hextc Hsuf Hl).
Qed.

Lemma substitution_whole_words_only_witness :
  PyRe.sub "MOA" "0.5 * MOA2 + 0.5 * MOA" = "0.5 * MOA2 + 0.5 * df['MOA']" /\
  py_eval MetricExamples.moa "df['MOA']" = Some (PSeries [num 2; num 6]) /\
  col_get (cols (recalculate_qmood_metrics MetricExamples.moa)) "MOA2"
  = Some [num 100; num 200] /\
  build_expr (columns MetricExamples.moa)
             (formula_of QMOOD_FORMULAS "Flexibility")
  = "0.25 * df['DAM'] - 0.25 * df['DCC'] + 0.5 * df['MOA'] + 0.5 * df['NOP']" /\
  col_get (cols (recalculate_qmood_metrics MetricExamples.moa)) "Flexibility"
  = Some [VNum 2%float; VNum 3%float].
Proof.
  assert (Hin : In ("Flexibility", formula_of QMOOD_FORMULAS "Flexibility")
                   QMOOD_FORMULAS).
  { simpl; auto. }
  assert (Hc : In "MOA"
                  (formula_columns (formula_of QMOOD_FORMULAS "Flexibility"))).
  { simpl; auto. }
  assert (Hs : "2" <> "") by discriminate.
  destruct (@substitution_whole_words_only MetricExamples.moa
              MetricExamples.moa_numbers "Flexibility"
              (formula_of QMOOD_FORMULAS "Flexibility") "MOA" "2"
              Hin Hc Hs eq_refl) as (H1 & _ & _ & H4 & H5 & H6).
  destruct H6 as (Hb & ast & Hp & _ & _ & Hv).
  - repeat (constructor; [simpl; intuition discriminate|]). constructor.
  - intros before c after E Hne Hm.
    assert (Hcs : In c (columns MetricExamples.moa))
      by (rewrite E; apply in_elt).
    simpl in Hcs.
    repeat (destruct Hcs as [<-|Hcs];
            [try discriminate Hm; now elim Hne|]).
    destruct Hcs.
  - intros c Hcs. simpl in Hcs.
    repeat (destruct Hcs as [<-|Hcs]; [split; reflexivity|]). destruct Hcs.
  - split; [exact (H1 "0.5 * MOA2 + 0.5 * MOA" eq_refl)|].
    split; [exact (H4 _ eq_refl)|].
    split; [exact H5|].
    split; [rewrite Hb; reflexivity|].
    rewrite Hv. rewrite Hb in Hp. vm_compute in Hp. injection Hp as <-.
    vm_compute. reflexivity.
Defined.

(* ================================================================== *)
(** * Further properties of the recalculator *)

(** ** The other metrics over numeric columns *)

Lemma full_columns_distinct : NoDup (columns MoreExamples.full).
Proof.
  repeat (constructor; [simpl; intuition discriminate|]). constructor.
Qed.

Lemma full_numeric (c : string) :
  In c ["ANA"; "DAM"; "DCC"; "lcc"; "CIS"; "DSC"; "MOA"; "MFA"; "NOP";
        "NOH"; "WMC"] ->
  numeric_column MoreExamples.full c (numbers_of MoreExamples.full c).
Proof.
  intros Hin. simpl in Hin.
  repeat (destruct Hin as [<-|Hin]; [split; reflexivity|]). destruct Hin.
Qed.

(** X1: For a table with distinct column names in which every column that
    is none of DCC, lcc, CIS and DSC leaves the expression of Reusability
    as it is at its turn, and in which these four columns are numeric,
    the recalculated Reusability of each row is the binary64 value of
    -0.25 DCC + 0.25 lcc + 0.5 CIS + 0.5 DSC, computed from left to
    right on the values of the row. *)
Theorem reusability_value (df : DataFrame) (numcol : string -> list float) :
  NoDup (columns df) ->
  undisturbed (formula_of QMOOD_FORMULAS "Reusability") (columns df) = true ->
  (forall c, In c reusability_columns -> numeric_column df c (numcol c)) ->
  exists vs,
    col_get (cols (recalculate_qmood_metrics df)) "Reusability" = Some vs /\
    List.length vs = nrows df /\
    forall i, i < nrows df ->
      nth i vs VNaN
      = VNum (spec_reusability
                (nth i (numcol "DCC") 0%float) (nth i (numcol "lcc") 0%float)
                (nth i (numcol "CIS") 0%float) (nth i (numcol "DSC") 0%float)).
Proof.
  intros Hnd Hu Hnum.
  metric_value_of df numcol "Reusability" reusability_expr.
Qed.

Lemma reusability_value_witness :
  exists vs,
    col_get (cols (recalculate_qmood_metrics MoreExamples.full)) "Reusability"
      = Some vs /\
    List.length vs = 2 /\
    forall i, i < 2 ->
      nth i vs VNaN
      = VNum (spec_reusability
                (nth i (numbers_of MoreExamples.full "DCC") 0%float)
                (nth i (numbers_of MoreExamples.full "lcc") 0%float)
                (nth i (numbers_of MoreExamples.full "CIS") 0%float)
                (nth i (numbers_of MoreExamples.full "DSC") 0%float)).
Proof.
  apply (@reusability_value MoreExamples.full (numbers_of MoreExamples.full)
           full_columns_distinct).
  - vm_compute. reflexivity.
  - intros c Hin. apply full_numeric. simpl in *. intuition.
Defined.

(** X2: For a table with distinct column names in which every column that
    is none of DAM, DCC, MOA and NOP leaves the expression of Flexibility
    as it is at its turn, and in which these four columns are numeric,
    the recalculated Flexibility of each row is the binary64 value of
    0.25 DAM - 0.25 DCC + 0.5 MOA + 0.5 NOP, computed from left to right
    on the values of the row. *)
Theorem flexibility_value (df : DataFrame) (numcol : string -> list float) :
  NoDup (columns df) ->
  undisturbed (formula_of QMOOD_FORMULAS "Flexibility") (columns df) = true ->
  (forall c, In c flexibility_columns -> numeric_column df c (numcol c)) ->
  exists vs,
    col_get (cols (recalculate_qmood_metrics df)) "Flexibility" = Some vs /\
    List.length vs = nrows df /\
    forall i, i < nrows df ->
      nth i vs VNaN
      = VNum (spec_flexibility
                (nth i (numcol "DAM") 0%float) (nth i (numcol "DCC") 0%float)
                (nth i (numcol "MOA") 0%float) (nth i (numcol "NOP") 0%float)).
Proof.
  intros Hnd Hu Hnum.
  metric_value_of df numcol "Flexibility" flexibility_expr.
Qed.

Lemma flexibility_value_witness :
  exists vs,
    col_get (cols (recalculate_qmood_metrics MoreExamples.full))
            "Flexibility" = Some vs /\
    List.length vs = 2 /\
    forall i, i < 2 ->
      nth i vs VNaN
      = VNum (spec_flexibility
                (nth i (numbers_of MoreExamples.full "DAM") 0%float)
                (nth i (numbers_of MoreExamples.full "DCC") 0%float)
                (nth i (numbers_of MoreExamples.full "MOA") 0%float)
                (nth i (numbers_of MoreExamples.full "NOP") 0%float)).
Proof.
  apply (@flexibility_value MoreExamples.full (numbers_of MoreExamples.full)
           full_columns_distinct).
  - vm_compute. reflexivity.
  - intros c Hin. apply full_numeric. simpl in *. intuition.
Defined.

(** X3: For a table with distinct column names in which every column that
    is none of lcc, NOP, CIS, DSC and NOH leaves the expression of
    Functionality as it is at its turn, and in which these five columns
    are numeric, the recalculated Functionality of each row is the
    binary64 value of 0.12 lcc + 0.22 NOP + 0.22 CIS + 0.22 DSC
    + 0.22 NOH, computed from left to right on the values of the row. *)
Theorem functionality_value (df : DataFrame) (numcol : string -> list float) :
  NoDup (columns df) ->
  undisturbed (formula_of QMOOD_FORMULAS "Functionality") (columns df)
  = true ->
  (forall c, In c functionality_columns -> numeric_column df c (numcol c)) ->
  exists vs,
    col_get (cols (recalculate_qmood_metrics df)) "Functionality" = Some vs /\
    List.length vs = nrows df /\
    forall i, i < nrows df ->
      nth i vs VNaN
      = VNum (spec_functionality
                (nth i (numcol "lcc") 0%float) (nth i (numcol "NOP") 0%float)
                (nth i (numcol "CIS") 0%float) (nth i (numcol "DSC") 0%float)
                (nth i (numcol "NOH") 0%float)).
Proof.
  intros Hnd Hu Hnum.
  metric_value_of df numcol "Functionality" functionality_expr.
Qed.

Lemma functionality_value_witness :
  exists vs,
    col_get (cols (recalculate_qmood_metrics MoreExamples.full))
            "Functionality" = Some vs /\
    List.length vs = 2 /\
    forall i, i < 2 ->
      nth i vs VNaN
      = VNum (spec_functionality
                (nth i (numbers_of MoreExamples.full "lcc") 0%float)
                (nth i (numbers_of MoreExamples.full "NOP") 0%float)
                (nth i (numbers_of MoreExamples.full "CIS") 0%float)
                (nth i (numbers_of MoreExamples.full "DSC") 0%float)
                (nth i (numbers_of MoreExamples.full "NOH") 0%float)).
Proof.
  apply (@functionality_value MoreExamples.full (numbers_of MoreExamples.full)
           full_columns_distinct).
  - vm_compute. reflexivity.
  - intros c Hin. apply full_numeric. simpl in *. intuition.
Defined.

(** X4: For a table with distinct column names in which every column that
    is none of ANA, DCC, MFA and NOP leaves the expression of
    Extendibility as it is at its turn, and in which these four columns
    are numeric, the recalculated Extendibility of each row is the
    binary64 value of 0.5 ANA - 0.5 DCC + 0.5 MFA + 0.5 NOP, computed
    from left to right on the values of the row. *)
Theorem extendibility_value (df : DataFrame) (numcol : string -> list float) :
  NoDup (columns df) ->
  undisturbed (formula_of QMOOD_FORMULAS "Extendibility") (columns df)
  = true ->
  (forall c, In c extendibility_columns -> numeric_column df c (numcol c)) ->
  exists vs,
    col_get (cols (recalculate_qmood_metrics df)) "Extendibility" = Some vs /\
    List.length vs = nrows df /\
    forall i, i < nrows df ->
      nth i vs VNaN
      = VNum (spec_extendibility
                (nth i (numcol "ANA") 0%float) (nth i (numcol "DCC") 0%float)
                (nth i (numcol "MFA") 0%float) (nth i (numcol "NOP") 0%float)).
Proof.
  intros Hnd Hu Hnum.
  metric_value_of df numcol "Extendibility" extendibility_expr.
Qed.

Lemma extendibility_value_witness :
  exists vs,
    col_get (cols (recalculate_qmood_metrics MoreExamples.full))
            "Extendibility" = Some vs /\
    List.length vs = 2 /\
    forall i, i < 2 ->
      nth i vs VNaN
      = VNum (spec_extendibility
                (nth i (numbers_of MoreExamples.full "ANA") 0%float)
                (nth i (numbers_of MoreExamples.full "DCC") 0%float)
                (nth i (numbers_of MoreExamples.full "MFA") 0%float)
                (nth i (numbers_of MoreExamples.full "NOP") 0%float)).
Proof.
  apply (@extendibility_value MoreExamples.full (numbers_of MoreExamples.full)
           full_columns_distinct).
  - vm_compute. reflexivity.
  - intros c Hin. apply full_numeric. simpl in *. intuition.
Defined.

(** X5: For a table with distinct column names in which every column that
    is none of ANA, DAM, MOA, MFA and NOP leaves the expression of
    Effectiveness as it is at its turn, and in which these five columns
    are numeric, the recalculated Effectiveness of each row is the
    binary64 value of 0.2 ANA + 0.2 DAM + 0.2 MOA + 0.2 MFA + 0.2 NOP,
    computed from left to right on the values of the row. *)
Theorem effectiveness_value (df : DataFrame) (numcol : string -> list float) :
  NoDup (columns df) ->
  undisturbed (formula_of QMOOD_FORMULAS "Effectiveness") (columns df)
  = true ->
  (forall c, In c effectiveness_columns -> numeric_column df c (numcol c)) ->
  exists vs,
    col_get (cols (recalculate_qmood_metrics df)) "Effectiveness" = Some vs /\
    List.length vs = nrows df /\
    forall i, i < nrows df ->
      nth i vs VNaN
      = VNum (spec_effectiveness
                (nth i (numcol "ANA") 0%float) (nth i (numcol "DAM") 0%float)
                (nth i (numcol "MOA") 0%float) (nth i (numcol "MFA") 0%float)
                (nth i (numcol "NOP") 0%float)).
Proof.
  intros Hnd Hu Hnum.
  metric_value_of df numcol "Effectiveness" effectiveness_expr.
Qed.

Lemma effectiveness_value_witness :
  exists vs,
    col_get (cols (recalculate_qmood_metrics MoreExamples.full))
            "Effectiveness" = Some vs /\
    List.length vs = 2 /\
    forall i, i < 2 ->
      nth i vs VNaN
      = VNum (spec_effectiveness
                (nth i (numbers_of MoreExamples.full "ANA") 0%float)
                (nth i (numbers_of MoreExamples.full "DAM") 0%float)
                (nth i (numbers_of MoreExamples.full "MOA") 0%float)
                (nth i (numbers_of MoreExamples.full "MFA") 0%float)
                (nth i (numbers_of MoreExamples.full "NOP") 0%float)).
Proof.
  apply (@effectiveness_value MoreExamples.full (numbers_of MoreExamples.full)
           full_columns_distinct).
  - vm_compute. reflexivity.
  - intros c Hin. apply full_numeric. simpl in *. intuition.
Defined.

(** ** A missing column *)

Section MissingColumn.

Lemma eval_unbound (df : DataFrame) (e : PyEval.expr) :
  unbound e = true -> eval_expr df e = None.
Proof.
  unfold unbound. induction e; simpl; intros H; try discriminate.
  - rewrite orb_false_r in H. apply negb_true_iff in H. now rewrite H.
  - rewrite existsb_app in H. apply orb_prop in H. destruct H as [H|H].
    + now rewrite IHe1.
    + rewrite IHe2 by assumption. now destruct (eval_expr df e1).
  - now rewrite IHe.
  - now rewrite IHe.
  - rewrite existsb_app in H. apply orb_prop in H. destruct H as [H|H].
    + now rewrite IHe1.
    + rewrite IHe2 by assumption. now destruct (eval_expr df e1).
  - rewrite existsb_app in H. apply orb_prop in H. destruct H as [H|H].
    + now rewrite IHe1.
    + rewrite IHe2 by assumption. now destruct (eval_expr df e1).
  - rewrite existsb_app in H. apply orb_prop in H. destruct H as [H|H].
    + now rewrite IHe1.
    + rewrite IHe2 by assumption. now destruct (eval_expr df e1).
Qed.

Lemma filter_in_subsets (f : string -> bool) (l : list string) :
  In (filter f l) (subsets l).
Proof.
  induction l as [|x l IH]; simpl; auto.
  apply in_or_app. destruct (f x).
  - left. now apply in_map.
  - now right.
Qed.

Lemma mem_filter (f : string -> bool) (w : string) (l : list string) :
  mem w (filter f l) = andb (mem w l) (f w).
Proof.
  induction l as [|x l IH]; simpl; auto.
  destruct (f x) eqn:Ex; simpl; rewrite IH.
  - destruct (String.eqb w x) eqn:E; simpl; auto.
    apply String.eqb_eq in E. subst x. now rewrite Ex.
  - destruct (String.eqb w x) eqn:E; simpl; auto.
    apply String.eqb_eq in E. subst x. rewrite Ex.
    now rewrite andb_false_r.
Qed.

Lemma formulas_checked :
  Forall (fun mf =>
            words_accounted (formula_columns (snd mf))
                            (split_words (snd mf)) = true /\
            raises_unless_complete (snd mf) = true)
         QMOOD_FORMULAS.
Proof. repeat constructor; vm_compute; reflexivity. Qed.

End MissingColumn.

(** X6: When a table with distinct harmless column names lacks a column that
    the formula of a metric refers to, the formula does not evaluate:
    the metric keeps the column the table had for it, or is set to
    zeros when it had none. *)
Theorem missing_column_fallback
  (df : DataFrame) (metric formula c : string) :
  In (metric, formula) QMOOD_FORMULAS ->
  NoDup (columns df) ->
  Forall (fun c => harmless c = true) (columns df) ->
  In c (formula_columns formula) ->
  ~ In c (columns df) ->
  py_eval df (build_expr (columns df) formula) = None /\
  col_get (cols (recalculate_qmood_metrics df)) metric
    = Some (spec_fallback df metric).
Proof.
  intros Hin Hnd Hh Hc Hmiss.
  pose proof (proj1 (Forall_forall _ _) formulas_checked _ Hin)
    as (Hwords & Hraise). simpl in *.
  set (present := filter (fun w => mem w (columns df))
                         (formula_columns formula)).
  assert (Hexpr : build_expr (columns df) formula
                  = flatten (spec_render (fun w => mem w present)
                                         (split_words formula))).
  { rewrite (build_expr_formula df Hin Hnd Hh). f_equal.
    apply render_ext. intros w Hw. unfold present. rewrite mem_filter.
    pose proof (proj1 (forallb_forall _ _) Hwords (W w) Hw) as Ha.
    simpl in Ha.
    destruct (mem w (formula_columns formula)); simpl; auto.
    simpl in Ha. apply negb_true_iff in Ha.
    destruct (mem w (columns df)) eqn:E; auto.
    apply mem_In in E.
    pose proof (proj1 (Forall_forall _ _) Hh w E) as Hw'.
    simpl in Hw'. congruence. }
  assert (Hnone : py_eval df (build_expr (columns df) formula) = None).
  { rewrite Hexpr. unfold raises_unless_complete in Hraise.
    pose proof (proj1 (forallb_forall _ _) Hraise present
                  (filter_in_subsets _ _)) as Hp.
    cbv beta in Hp. apply orb_prop in Hp. destruct Hp as [Hall|Hr].
    - exfalso. apply mem_In in Hc.
      pose proof (proj1 (forallb_forall _ _) Hall c
                    (proj1 (mem_In _ _) Hc)) as Hcp.
      cbv beta in Hcp. unfold present in Hcp. rewrite mem_filter in Hcp.
      apply andb_prop in Hcp. destruct Hcp as [_ Hcp].
      apply mem_In in Hcp. contradiction.
    - unfold raises_with in Hr. unfold py_eval.
      destruct (PyEval.parse _) as [e|]; auto.
      now apply eval_unbound. }
  split; [assumption|].
  destruct (recalculate_columns df) as (_ & Hcols & _).
  rewrite (Hcols metric formula Hin). unfold spec_metric_column.
  now rewrite Hnone.
Qed.

Lemma missing_column_fallback_witness :
  col_get (cols (recalculate_qmood_metrics Examples.base3)) "Reusability"
  = Some (spec_fallback Examples.base3 "Reusability").
Proof.
  refine (proj2 (@missing_column_fallback Examples.base3 "Reusability"
                   (formula_of QMOOD_FORMULAS "Reusability") "lcc"
                   _ _ _ _ _)).
  - simpl; auto.
  - repeat (constructor; [simpl; intuition discriminate|]). constructor.
  - repeat constructor.
  - simpl; auto.
  - simpl. intuition discriminate.
Defined.

(** ** Harmless names are undisturbed *)

(** The condition of the theorems on the values of the metrics holds in
    particular when every column name is harmless: an identifier other
    than [df], or a name with a character that no expression
    contains. *)
Lemma harmless_undisturbed (metric formula : string) (cs : list string) :
  In (metric, formula) QMOOD_FORMULAS ->
  Forall (fun c => harmless c = true) cs ->
  undisturbed formula cs = true.
Proof.
  intros Hin Hh.
  pose proof (proj1 (Forall_forall _ _) formulas_segmented _ Hin)
    as (_ & _ & Halpha & _).
  pose proof (proj1 (Forall_forall _ _) formulas_checked _ Hin)
    as (Hwords & _). simpl in *.
  unfold undisturbed. generalize (@nil string) as before.
  induction Hh as [|c cs Hc _ IH]; intros before; simpl; auto.
  rewrite IH, andb_true_r.
  destruct (mem c (formula_columns formula)) eqn:Ec; auto. simpl.
  apply String.eqb_eq. unfold expr_after.
  rewrite (@substitute_step_render (split_words formula)
             (segmented_split_words formula)); auto.
  - f_equal. apply render_ext. intros w Hw.
    destruct (String.eqb w c) eqn:E; auto.
    apply String.eqb_eq in E. subst w.
    pose proof (proj1 (forallb_forall _ _) Hwords _ Hw) as Ha.
    cbv beta iota in Ha. rewrite Ec, Hc in Ha. discriminate.
  - now rewrite flatten_split_words.
  - now rewrite Ec, andb_false_r.
Qed.

(** ** The shape of the recalculated table *)

Section RecalcShape.

Lemma mem_app (w : string) (l1 l2 : list string) :
  mem w (l1 ++ l2) = orb (mem w l1) (mem w l2).
Proof. unfold mem. apply existsb_app. Qed.

Lemma recalc_metric_columns_exact (d res : DataFrame) (m f : string) :
  columns (recalc_metric d res (m, f))
  = if mem m (columns res) then columns res else (columns res ++ [m])%list.
Proof.
  assert (Hput : forall vs,
            columns (set_col res m vs)
            = if mem m (columns res) then columns res
              else (columns res ++ [m])%list).
  { intros vs. unfold set_col, columns at 1. cbn [cols].
    destruct (mem m (columns res)) eqn:E.
    - apply cols_put_names_in. now apply mem_In.
    - apply cols_put_names_new. intros Hin. apply mem_In in Hin.
      unfold columns in E. congruence. }
  assert (Herr : columns (on_error res m)
                 = if mem m (columns res) then columns res
                   else (columns res ++ [m])%list).
  { unfold on_error. destruct (mem m (columns res)) eqn:E; auto.
    unfold set_col_scalar. now rewrite Hput. }
  unfold recalc_metric, try_metric. cbn [fst snd].
  destruct (py_eval d (build_expr (columns d) f)) as [[|vs|x]|];
    cbn [assign]; auto.
  unfold set_col_scalar. apply Hput.
Qed.

Lemma recalc_fold_columns_exact (d : DataFrame)
  (formulas : list (string * string)) : forall res,
  NoDup (map fst formulas) ->
  columns (fold_left (recalc_metric d) formulas res)
  = (columns res ++
     filter (fun m => negb (mem m (columns res))) (map fst formulas))%list.
Proof.
  induction formulas as [|[m f] rest IH]; intros res Hnd; simpl.
  - now rewrite app_nil_r.
  - inversion Hnd as [|? ? Hni Hnd']; subst.
    rewrite IH by assumption. rewrite recalc_metric_columns_exact.
    destruct (mem m (columns res)) eqn:E; simpl; auto.
    rewrite <- app_assoc. simpl. f_equal. f_equal.
    apply filter_ext_in. intros m' Hin. rewrite mem_app. simpl.
    assert (String.eqb m' m = false) as ->.
    { apply String.eqb_neq. intros ->. contradiction. }
    now rewrite !orb_false_r.
Qed.

Lemma map_opt_length (f : value -> option value) (l : list value) :
  forall r, map_opt f l = Some r -> List.length r = List.length l.
Proof.
  induction l as [|x l IH]; simpl; intros r.
  - now intros [= <-].
  - destruct (f x); [|discriminate].
    destruct (map_opt f l) as [r'|]; [|discriminate].
    intros [= <-]. simpl. now rewrite (IH r').
Qed.

Lemma zip_opt_length (f : value -> value -> option value) (l1 : list value) :
  forall l2 r, zip_opt f l1 l2 = Some r -> List.length r = List.length l1.
Proof.
  induction l1 as [|x l1 IH]; intros [|y l2] r; simpl; try discriminate.
  - now intros [= <-].
  - destruct (f x y); [|discriminate].
    destruct (zip_opt f l1 l2) as [r'|] eqn:E; [|discriminate].
    intros [= <-]. simpl. now rewrite (IH l2 r').
Qed.

Variable df : DataFrame.
Hypothesis Hwf : wf df.

Lemma col_get_length (k : string) (vs : list value) :
  col_get (cols df) k = Some vs -> List.length vs = nrows df.
Proof.
  unfold wf in Hwf. induction Hwf as [|[c old] cs Hc Hcs IH]; simpl.
  - discriminate.
  - destruct (String.eqb c k); auto. now intros [= <-].
Qed.

(** A Series computed over [df] has one cell per row. *)
Lemma eval_expr_length (e : PyEval.expr) (vs : list value) :
  eval_expr df e = Some (PSeries vs) -> List.length vs = nrows df.
Proof.
  assert (Hun : forall f a r,
            (forall ws, a = PSeries ws -> List.length ws = nrows df) ->
            unop f a = Some (PSeries r) -> List.length r = nrows df).
  { intros f [|ws|x] r Ha; simpl; try discriminate.
    - destruct (map_opt f ws) as [r'|] eqn:E; [|discriminate].
      intros [= <-]. rewrite (map_opt_length _ _ E). now apply Ha.
    - destruct (f x); discriminate. }
  assert (Hbin : forall f a b r,
            (forall ws, a = PSeries ws -> List.length ws = nrows df) ->
            (forall ws, b = PSeries ws -> List.length ws = nrows df) ->
            binop f a b = Some (PSeries r) -> List.length r = nrows df).
  { intros f [|xs|x] [|ys|y] r Ha Hb; simpl; try discriminate.
    - destruct (zip_opt f xs ys) as [r'|] eqn:E; [|discriminate].
      intros [= <-]. rewrite (zip_opt_length _ _ _ E). now apply Ha.
    - destruct (map_opt _ xs) as [r'|] eqn:E; [|discriminate].
      intros [= <-]. rewrite (map_opt_length _ _ E). now apply Ha.
    - destruct (map_opt _ ys) as [r'|] eqn:E; [|discriminate].
      intros [= <-]. rewrite (map_opt_length _ _ E). now apply Hb.
    - destruct (f x y); discriminate. }
  revert vs. induction e; intros vs; simpl; try discriminate.
  - destruct (String.eqb s "df"); discriminate.
  - destruct (eval_expr df e1) as [[|ws|x]|]; try discriminate;
      destruct (eval_expr df e2) as [[|ws'|y]|]; try discriminate.
    simpl. destruct y; try discriminate.
    destruct (col_get (cols df) s) as [c|] eqn:E; [|discriminate].
    intros [= <-]. now apply (col_get_length s).
  - destruct (eval_expr df e) as [a|]; [|discriminate].
    apply Hun. intros ws ->. now apply IHe.
  - destruct (eval_expr df e) as [a|]; [|discriminate].
    apply Hun. intros ws ->. now apply IHe.
  - destruct (eval_expr df e1) as [a|]; [|discriminate].
    destruct (eval_expr df e2) as [b|]; [|discriminate].
    apply Hbin; intros ws ->; auto.
  - destruct (eval_expr df e1) as [a|]; [|discriminate].
    destruct (eval_expr df e2) as [b|]; [|discriminate].
    apply Hbin; intros ws ->; auto.
  - destruct (eval_expr df e1) as [a|]; [|discriminate].
    destruct (eval_expr df e2) as [b|]; [|discriminate].
    apply Hbin; intros ws ->; auto.
Qed.

Lemma recalc_metric_wf (res : DataFrame) (mf : string * string) :
  wf res -> nrows res = nrows df ->
  wf (recalc_metric df res mf) /\ nrows (recalc_metric df res mf) = nrows df.
Proof.
  intros Hres Hn. unfold recalc_metric, try_metric, on_error, py_eval.
  destruct (PyEval.parse (build_expr (columns df) (snd mf))) as [e|].
  - destruct (eval_expr df e) as [[|vs|x]|] eqn:E; simpl.
    + destruct (mem (fst mf) (columns res)); auto.
      split; auto. now apply set_col_scalar_wf.
    + split; auto. apply set_col_wf; auto.
      rewrite Hn. now apply (eval_expr_length e).
    + split; auto. now apply set_col_scalar_wf.
    + destruct (mem (fst mf) (columns res)); auto.
      split; auto. now apply set_col_scalar_wf.
  - destruct (mem (fst mf) (columns res)); auto.
    split; auto. now apply set_col_scalar_wf.
Qed.

Lemma recalc_fold_wf (formulas : list (string * string)) : forall res,
  wf res -> nrows res = nrows df ->
  wf (fold_left (recalc_metric df) formulas res).
Proof.
  induction formulas as [|mf rest IH]; intros res Hres Hn; simpl; auto.
  destruct (recalc_metric_wf mf Hres Hn) as [H1 H2]. now apply IH.
Qed.

End RecalcShape.

(** X7: The recalculated table has the columns of the input, in their
    order, followed by the metrics the input lacks, in the order of the
    formulas; and as many rows as the input. *)
Theorem recalculate_columns_order (df : DataFrame) :
  columns (recalculate_qmood_metrics df)
  = (columns df ++
     filter (fun m => negb (mem m (columns df))) QMOOD_METRICS)%list /\
  nrows (recalculate_qmood_metrics df) = nrows df.
Proof.
  split.
  - rewrite <- QMOOD_names.
    apply recalc_fold_columns_exact. apply QMOOD_names_NoDup.
  - apply (recalculate_columns df).
Qed.

(** X8: Recalculation keeps a table well formed: when every column of the
    input has one cell per row, so has every column of the result. *)
Theorem recalculate_keeps_wf (df : DataFrame) :
  wf df -> wf (recalculate_qmood_metrics df).
Proof.
  intros Hwf. unfold recalculate_qmood_metrics.
  now apply recalc_fold_wf.
Qed.

Lemma recalculate_keeps_wf_witness :
  wf (recalculate_qmood_metrics MoreExamples.full).
Proof.
  apply (@recalculate_keeps_wf MoreExamples.full). repeat constructor.
Defined.

(* ================================================================== *)
(** * Further properties of the merge engine *)

(** ** Which columns are added *)

Section AddedColumnsFacts.

Variables (base_df override_df : DataFrame).

Let add (acc : list string) (col : string) : list string :=
  if andb (mem col (columns override_df))
          (negb (mem col (columns base_df ++ acc)))
  then (acc ++ [col])%list else acc.

Lemma added_fold_in (l : list string) : forall acc c,
  In c (fold_left add l acc) <->
  In c acc \/
  (In c l /\ In c (columns override_df) /\ ~ In c (columns base_df)).
Proof.
  induction l as [|x l IH]; intros acc c; simpl.
  - tauto.
  - rewrite IH. unfold add.
    destruct (mem x (columns override_df)) eqn:Eo; simpl.
    + destruct (mem x (columns base_df ++ acc)) eqn:Eb; simpl.
      * apply mem_In in Eb. apply in_app_or in Eb. apply mem_In in Eo.
        split; [tauto|].
        intros [H|[[E|H] H']]; try tauto.
        subst x. destruct Eb as [Eb|Eb]; tauto.
      * assert (Hx : ~ In x (columns base_df ++ acc)).
        { intros H. apply mem_In in H. congruence. }
        apply mem_In in Eo. rewrite in_app_iff. simpl.
        split.
        -- intros [[H|[E|[]]]|H]; try tauto.
           subst x. right. split; [auto|]. split; [assumption|].
           intros Hb. apply Hx. apply in_or_app. auto.
        -- intros [H|[[E|H] H']]; tauto.
    + split; [tauto|].
      intros [H|[[E|H] H']]; try tauto.
      subst x. destruct H' as [H' _]. apply mem_In in H'. congruence.
Qed.

Lemma added_fold_nodup (l : list string) : forall acc,
  NoDup acc -> NoDup (fold_left add l acc).
Proof.
  induction l as [|x l IH]; intros acc Hnd; simpl; auto.
  apply IH. unfold add.
  destruct (andb _ _) eqn:E; auto.
  apply andb_prop in E. destruct E as [_ E]. apply negb_true_iff in E.
  apply NoDup_app; auto.
  - repeat constructor. intros [].
  - intros a Ha [E'|[]]. subst a.
    assert (mem x (columns base_df ++ acc) = true) as H.
    { apply mem_In. apply in_or_app. auto. }
    congruence.
Qed.

End AddedColumnsFacts.

(** X10: The columns of the merged table are those of the base table, in
    their order, followed by the added columns; a column is added exactly
    when it is requested, the override table has it and the base table
    does not (a requested column the override table lacks is skipped),
    and no column is added twice. *)
Theorem merge_csvs_columns
  (base_df override_df : DataFrame) (add_columns : option (list string))
  (res : DataFrame) :
  wf base_df ->
  merge_csvs base_df override_df add_columns = Some res ->
  columns res
  = (columns base_df
     ++ spec_added_columns base_df override_df add_columns)%list /\
  NoDup (spec_added_columns base_df override_df add_columns) /\
  (forall c,
     In c (spec_added_columns base_df override_df add_columns) <->
     in_add_columns add_columns c = true /\
     In c (columns override_df) /\ ~ In c (columns base_df)).
Proof.
  intros Hwf Hm.
  destruct (@merge_csvs_sound base_df override_df add_columns Hwf res Hm)
    as (_ & [_ Hc] & _).
  split; [|split].
  - rewrite Hc, add_new_columns_spec.
    unfold spec_base_with_added, columns. simpl.
    now rewrite map_app, names_empty_columns.
  - unfold spec_added_columns. destruct add_columns as [l|].
    + apply added_fold_nodup. constructor.
    + constructor.
  - intros c. unfold spec_added_columns, in_add_columns.
    destruct add_columns as [l|].
    + rewrite added_fold_in. rewrite mem_In. simpl. tauto.
    + simpl. split; [tauto|]. intros [H _]. discriminate.
Qed.

Lemma merge_csvs_columns_witness :
  columns Examples.merged3 = ["Name"; "DCC"; "New"].
Proof.
  exact (proj1 (@merge_csvs_columns Examples.base3 Examples.override3
                  (Some ["New"]) Examples.merged3 wf_base3 merge_base3)).
Defined.

(** ** Columns the override table does not touch *)

Lemma row_get_app_l (r1 r2 : Row) (c : string) :
  In c (map fst r1) -> row_get (r1 ++ r2)%list c = row_get r1 c.
Proof.
  induction r1 as [|[k v] r1 IH]; simpl; [tauto|].
  intros Hin. destruct (String.eqb k c) eqn:E; auto.
  apply IH. destruct Hin as [->|]; auto.
  now rewrite String.eqb_refl in E.
Qed.

(** X11: A base column that no override column is written to (it is the
    target column, [target_col], of none of them) keeps all its cells in
    the merged table. *)
Theorem merge_keeps_other_columns
  (base_df override_df : DataFrame) (add_columns : option (list string))
  (res : DataFrame) (i : nat) (c : string) :
  wf base_df ->
  merge_csvs base_df override_df add_columns = Some res ->
  i < nrows base_df ->
  In c (columns base_df) ->
  (forall col, In col (columns override_df) ->
     target_col base_df add_columns col <> Some c) ->
  row_get (row_at res i) c = row_get (row_at base_df i) c.
Proof.
  intros Hwf Hm Hi Hc Hno.
  destruct (@merge_csvs_sound base_df override_df add_columns Hwf res Hm)
    as (_ & _ & Hr).
  rewrite (Hr i Hi). unfold spec_merged_row.
  assert (Hstart : row_get (row_at (add_new_columns override_df add_columns
                                      base_df) i) c
                   = row_get (row_at base_df i) c).
  { rewrite row_at_start by assumption.
    apply row_get_app_l. now rewrite row_at_keys. }
  destruct (spec_first_match base_df override_df i) as [j|]; [|exact Hstart].
  rewrite spec_override_row_untouched; [exact Hstart|].
  exact Hno.
Qed.

Lemma merge_keeps_other_columns_witness :
  row_get (row_at Examples.merged3 0) "Name"
  = row_get (row_at Examples.base3 0) "Name".
Proof.
  apply (@merge_keeps_other_columns Examples.base3 Examples.override3
           (Some ["New"]) Examples.merged3 0 "Name" wf_base3 merge_base3).
  - simpl; lia.
  - simpl; auto.
  - intros col [<-|[<-|[<-|[]]]]; discriminate.
Defined.

(** ** The override rows reported as not matched *)

Section UsedRows.

Variables (base_df override_df : DataFrame).
Variable add_columns : option (list string).

Lemma set_add_In (x j : nat) (s : list nat) :
  In x (set_add j s) <-> x = j \/ In x s.
Proof.
  unfold set_add. destruct (existsb (Nat.eqb j) s) eqn:E; simpl.
  - split; auto. intros [->|H]; auto.
    apply existsb_exists in E. destruct E as [y [Hy Ey]].
    apply Nat.eqb_eq in Ey. now subst y.
  - split; intros [H|H]; auto.
Qed.

Lemma scan_override_used (i : nat) (r : Row) (js : list nat) :
  forall st st',
  scan_override base_df override_df add_columns i r js st = Some st' ->
  snd st' = match find (fun j => is_match r (row_at override_df j)) js with
            | Some j => set_add j (snd st)
            | None => snd st
            end.
Proof.
  induction js as [|j js IH]; intros st st'; simpl.
  - now intros [= <-].
  - unfold is_match at 1.
    destruct (match_files r (row_at override_df j)) as [[|]|];
      [| apply IH | discriminate].
    destruct (copy_columns _ _ _ _ _ _); [|discriminate].
    now intros [= <-].
Qed.

Lemma merge_rows_used (rows : list nat) : forall st st',
  merge_rows base_df override_df add_columns rows st = Some st' ->
  forall j,
    In j (snd st') <->
    In j (snd st) \/
    exists i, In i rows /\ spec_first_match base_df override_df i = Some j.
Proof.
  induction rows as [|i rows IH]; intros st st'; simpl.
  - intros [= <-] j. split; auto. intros [H|[i [[] _]]]; auto.
  - destruct (scan_override base_df override_df add_columns i
                (row_at base_df i) (seq 0 (nrows override_df)) st)
      as [st1|] eqn:Es; [|discriminate].
    intros Hm j. rewrite (IH st1 st' Hm j).
    rewrite (scan_override_used _ _ _ _ Es).
    fold (spec_first_match base_df override_df i).
    destruct (spec_first_match base_df override_df i) as [j0|] eqn:Ef.
    + rewrite set_add_In. split.
      * intros [[->|H]|[i' [Hi' Hf]]]; eauto.
      * intros [H|[i' [[<-|Hi'] Hf]]]; eauto.
        rewrite Ef in Hf. injection Hf as ->. auto.
    + split.
      * intros [H|[i' [Hi' Hf]]]; eauto.
      * intros [H|[i' [[<-|Hi'] Hf]]]; eauto. congruence.
Qed.

End UsedRows.

(** X12: The override rows reported as not matched are exactly those that
    are the first match of no base row: an override row that matches
    only base rows already served by an earlier override row is
    reported too. *)
Theorem unused_rows_spec
  (base_df override_df : DataFrame) (add_columns : option (list string))
  (res : DataFrame) (used : list nat) (j : nat) :
  merge_state base_df override_df add_columns = Some (res, used) ->
  (In j (unused_rows override_df used) <->
   j < nrows override_df /\
   forall i, i < nrows base_df ->
     spec_first_match base_df override_df i <> Some j).
Proof.
  intros Hm. unfold merge_state in Hm.
  pose proof (merge_rows_used _ _ _ _ _ Hm j) as Hu. simpl in Hu.
  unfold unused_rows. rewrite filter_In, in_seq, negb_true_iff.
  split.
  - intros [Hj Hn]. split; [lia|].
    intros i Hi Hf.
    assert (Hin : In j used).
    { apply Hu. right. exists i. split; auto. apply in_seq. lia. }
    assert (existsb (Nat.eqb j) used = true) as He.
    { apply existsb_exists. exists j. split; auto. apply Nat.eqb_refl. }
    congruence.
  - intros [Hj Hn]. split; [lia|].
    destruct (existsb (Nat.eqb j) used) eqn:E; auto.
    apply existsb_exists in E. destruct E as [y [Hy Ey]].
    apply Nat.eqb_eq in Ey. subst y.
    apply Hu in Hy. destruct Hy as [[]|[i [Hi Hf]]].
    apply in_seq in Hi. exfalso. apply (Hn i); auto. lia.
Qed.

Lemma unused_rows_spec_witness :
  In 1 (unused_rows Examples.override3 [0]) /\
  match_files (row_at Examples.base3 0) (row_at Examples.override3 1)
  = Some true.
Proof.
  split; [|reflexivity].
  apply (proj2 (@unused_rows_spec Examples.base3 Examples.override3
                  (Some ["New"]) Examples.merged3 [0] 1
                  ltac:(vm_compute; reflexivity))).
  split; [simpl; lia|].
  intros i Hi. simpl in Hi.
  destruct i as [|[|[|i]]]; try lia; vm_compute; discriminate.
Defined.

(* ================================================================== *)
(** * Further properties of the row matcher *)

Lemma py_eq_raises (a b : value) : py_eq a b = None <-> a = VNA \/ b = VNA.
Proof.
  destruct a, b; simpl; split; auto; try discriminate;
    intros [H|H]; discriminate.
Qed.

Lemma match_by_file_raises (row1 row2 : Row) :
  match_by_file row1 row2 = None <->
  exists n f, row_get row1 "Name" = Some n /\ row_get row2 "file" = Some f /\
              (is_str n = false \/ is_str f = false).
Proof.
  unfold match_by_file, row_has.
  destruct (row_get row1 "Name") as [n|]; simpl.
  - destruct (row_get row2 "file") as [f|]; simpl.
    + destruct (is_str n) eqn:En; [destruct (is_str f) eqn:Ef|].
      * destruct n; try discriminate. destruct f; try discriminate. simpl.
        destruct (String.eqb _ _); split; try discriminate;
          intros (n & f & [= <-] & [= <-] & [H|H]); discriminate.
      * split.
        -- intros _. exists n, f. auto.
        -- intros _. destruct n; try discriminate.
           destruct f; try discriminate; reflexivity.
      * split.
        -- intros _. exists n, f. auto.
        -- intros _. destruct n; try discriminate; reflexivity.
    + split; [discriminate|]. intros (n' & f & _ & H & _). discriminate.
  - split; [discriminate|]. intros (n' & f & H & _). discriminate.
Qed.

Lemma match_files_none_cases (row1 row2 : Row) :
  match_files row1 row2 = None <->
  (exists a b, row_get row1 "ClassNames" = Some a /\
               row_get row2 "class" = Some b /\ (a = VNA \/ b = VNA)) \/
  ((forall a b, row_get row1 "ClassNames" = Some a ->
                row_get row2 "class" = Some b -> py_eq a b = Some false) /\
   exists n f, row_get row1 "Name" = Some n /\ row_get row2 "file" = Some f /\
               (is_str n = false \/ is_str f = false)).
Proof.
  unfold match_files, row_has.
  destruct (row_get row1 "ClassNames") as [a|]; simpl.
  - destruct (row_get row2 "class") as [b|]; simpl.
    + destruct (py_eq a b) as [[|]|] eqn:E.
      * split; [discriminate|].
        intros [(a' & b' & [= <-] & [= <-] & H)|[H _]].
        -- apply py_eq_raises in H. congruence.
        -- specialize (H a b eq_refl eq_refl). congruence.
      * rewrite match_by_file_raises. split.
        -- intros H. right. split; auto. intros a' b' [= <-] [= <-]. exact E.
        -- intros [(a' & b' & [= <-] & [= <-] & H)|[_ H]]; auto.
           apply py_eq_raises in H. congruence.
      * split; auto. intros _. left. exists a, b.
        repeat split; auto. now apply py_eq_raises.
    + rewrite match_by_file_raises. split.
      * intros H. right. split; auto. intros a' b' _ H'. discriminate.
      * intros [(a' & b' & _ & H & _)|[_ H]]; auto. discriminate.
  - rewrite match_by_file_raises. split.
    + intros H. right. split; auto. intros a' b' H'. discriminate.
    + intros [(a' & b' & H & _)|[_ H]]; auto. discriminate.
Qed.

(** X16: The matcher raises in two cases only: both class-name fields are
    present and one of them is [pd.NA]; or the class names do not decide
    (a field is absent or they differ), both path fields are present and
    one of them is not a string. *)
Theorem match_files_raises_iff (row1 row2 : Row) :
  match_files row1 row2 = None <->
  (exists a b, row_get row1 "ClassNames" = Some a /\
               row_get row2 "class" = Some b /\ (a = VNA \/ b = VNA)) \/
  ((forall a b, row_get row1 "ClassNames" = Some a ->
                row_get row2 "class" = Some b -> py_eq a b = Some false) /\
   exists n f, row_get row1 "Name" = Some n /\ row_get row2 "file" = Some f /\
               (is_str n = false \/ is_str f = false)).
Proof. apply match_files_none_cases. Qed.

(** ** When the merge returns *)

Lemma row_get_cells_at (cs : list (string * list value)) (i : nat)
  (c : string) :
  row_get (cells_at i cs) c
  = option_map (fun vs => nth i vs VNaN) (col_get cs c).
Proof.
  unfold cells_at. induction cs as [|[k vs] cs IH]; simpl; auto.
  destruct (String.eqb k c); auto.
Qed.

Lemma column_all_cell (p : value -> bool) (df : DataFrame) (c : string)
  (i : nat) (v : value) :
  wf df -> column_all p df c -> i < nrows df ->
  row_get (row_at df i) c = Some v -> p v = true.
Proof.
  intros Hwf Hall Hi. unfold row_at. rewrite row_get_cells_at.
  destruct (col_get (cols df) c) as [vs|] eqn:E; [|discriminate].
  simpl. intros [= <-].
  assert (Hlen : List.length vs = nrows df).
  { now apply (@col_get_length df Hwf c vs). }
  apply (proj1 (Forall_forall _ _) (Hall vs E)).
  apply nth_In. lia.
Qed.

Lemma matcher_total_of_cells (base_df override_df : DataFrame) :
  wf base_df -> wf override_df ->
  column_all is_str base_df "Name" ->
  column_all is_str override_df "file" ->
  column_all not_na base_df "ClassNames" ->
  column_all not_na override_df "class" ->
  matcher_total base_df override_df.
Proof.
  intros Hwb Hwo Hn Hf Hc Hk i j Hi Hj Hnone.
  apply match_files_none_cases in Hnone.
  destruct Hnone as [(a & b & Ha & Hb & [->| ->])
                    |[_ (n & f & Hn' & Hf' & [H|H])]].
  - pose proof (@column_all_cell not_na base_df "ClassNames" i VNA
                  Hwb Hc Hi Ha). discriminate.
  - pose proof (@column_all_cell not_na override_df "class" j VNA
                  Hwo Hk Hj Hb). discriminate.
  - pose proof (@column_all_cell is_str base_df "Name" i n
                  Hwb Hn Hi Hn'). congruence.
  - pose proof (@column_all_cell is_str override_df "file" j f
                  Hwo Hf Hj Hf'). congruence.
Qed.

(** X13: The merge returns a table with the rows of the base table whenever
    the cells the matcher reads are as it expects: every [Name] cell of
    the base table and every [file] cell of the override table is a
    string, and no [ClassNames] or [class] cell is [pd.NA]. *)
Theorem merge_csvs_returns
  (base_df override_df : DataFrame) (add_columns : option (list string)) :
  wf base_df -> wf override_df ->
  column_all is_str base_df "Name" ->
  column_all is_str override_df "file" ->
  column_all not_na base_df "ClassNames" ->
  column_all not_na override_df "class" ->
  exists res,
    merge_csvs base_df override_df add_columns = Some res /\
    nrows res = nrows base_df /\ wf res.
Proof.
  intros Hwb Hwo Hn Hf Hc Hk.
  pose proof (matcher_total_of_cells Hwb Hwo Hn Hf Hc Hk) as Htot.
  destruct (merge_csvs_rows add_columns Hwb Htot)
    as (res & Hm & Hw & [Hnr _] & _).
  exists res. repeat split; auto.
  rewrite Hnr. apply add_new_columns_nrows.
Qed.

Lemma merge_csvs_returns_witness :
  exists res,
    merge_csvs NameExamples.base NameExamples.override None = Some res /\
    nrows res = 2 /\ wf res.
Proof.
  apply (@merge_csvs_returns NameExamples.base NameExamples.override None).
  - repeat constructor.
  - repeat constructor.
  - intros vs [= <-]. repeat constructor.
  - intros vs [= <-]. repeat constructor.
  - intros vs [= <-]. repeat constructor.
  - intros vs [= <-]. repeat constructor.
Defined.

(** ** The class name of a path *)

Section ClassName.

Lemma rev_acc_app (s : string) : forall acc,
  PyStr.rev_acc s acc = (PyStr.rev_acc s "" ++ acc)%string.
Proof.
  induction s as [|c s IH]; intros acc; simpl; auto.
  rewrite (IH (String c acc)), (IH (String c "")).
  now rewrite append_assoc.
Qed.

Lemma rev_app (a b : string) :
  PyStr.rev (a ++ b) = (PyStr.rev b ++ PyStr.rev a)%string.
Proof.
  unfold PyStr.rev. revert b. induction a as [|c a IH]; intros b; simpl.
  - now rewrite append_nil_r.
  - rewrite (rev_acc_app (a ++ b)), IH, (rev_acc_app a (String c "")).
    now rewrite append_assoc.
Qed.

Lemma rev_rev_acc (s : string) : forall acc,
  PyStr.rev (PyStr.rev_acc s acc) = (PyStr.rev acc ++ s)%string.
Proof.
  induction s as [|c s IH]; intros acc; simpl.
  - now rewrite append_nil_r.
  - rewrite IH. unfold PyStr.rev. simpl.
    rewrite (rev_acc_app acc (String c "")). now rewrite append_assoc.
Qed.

Lemma all_chars_rev_acc (f : ascii -> bool) (s : string) : forall acc,
  all_chars f (PyStr.rev_acc s acc) = andb (all_chars f s) (all_chars f acc).
Proof.
  induction s as [|c s IH]; intros acc; simpl; auto.
  rewrite IH. simpl. destruct (f c), (all_chars f s); simpl; auto.
Qed.

Lemma basename_acc_after_slash (a s : string) : forall cur,
  PyStr.basename_acc (a ++ String "/" s) cur = PyStr.basename_acc s "".
Proof.
  induction a as [|c a IH]; intros cur; simpl; auto.
  destruct (Ascii.eqb c "/"); apply IH.
Qed.

Lemma basename_acc_plain (s : string) : forall cur,
  no_slash s = true ->
  PyStr.basename_acc s cur = PyStr.rev (PyStr.rev_acc s cur).
Proof.
  unfold no_slash. induction s as [|c s IH]; intros cur H; simpl; auto.
  simpl in H. apply andb_prop in H. destruct H as [Hc Hs].
  apply negb_true_iff in Hc. rewrite Hc. now apply IH.
Qed.

Lemma basename_plain (s : string) : no_slash s = true -> PyStr.basename s = s.
Proof.
  intros H. unfold PyStr.basename. rewrite basename_acc_plain by assumption.
  now rewrite rev_rev_acc.
Qed.

Lemma basename_acc_no_slash (s : string) : forall cur,
  no_slash cur = true -> no_slash (PyStr.basename_acc s cur) = true.
Proof.
  unfold no_slash. induction s as [|c s IH]; intros cur H; simpl.
  - unfold PyStr.rev. now rewrite all_chars_rev_acc, H.
  - destruct (Ascii.eqb c "/") eqn:E.
    + now apply IH.
    + apply IH. simpl. now rewrite E.
Qed.

Lemma all_chars_substring (f : ascii -> bool) (s : string) : forall n m,
  all_chars f s = true -> all_chars f (substring n m s) = true.
Proof.
  induction s as [|c s IH]; intros n m H; simpl.
  - now destruct n, m.
  - simpl in H. apply andb_prop in H. destruct H as [Hc Hs].
    destruct n as [|n]; [destruct m as [|m]|]; simpl; auto.
    rewrite Hc. simpl. now apply IH.
Qed.

Lemma substring_prefix (a b : string) :
  substring 0 (String.length a) (a ++ b) = a.
Proof.
  induction a as [|c a IH]; simpl.
  - now destruct b.
  - now rewrite IH.
Qed.

Lemma length_append (a b : string) :
  String.length (a ++ b) = String.length a + String.length b.
Proof. induction a as [|c a IH]; simpl; auto. Qed.

Lemma extract_class_name_java (name : string) :
  no_slash name = true ->
  extract_class_name (name ++ ".java") = name.
Proof.
  intros H. unfold extract_class_name.
  assert (Hn : no_slash (name ++ ".java") = true).
  { unfold no_slash in *. now rewrite all_chars_app, H. }
  rewrite (basename_plain _ Hn).
  assert (He : PyStr.endswith ".java" (name ++ ".java") = true).
  { unfold PyStr.endswith. rewrite rev_app. apply startswith_app. }
  rewrite He. unfold PyStr.drop_last. rewrite length_append. simpl.
  replace (String.length name + 5 - 5) with (String.length name) by lia.
  apply substring_prefix.
Qed.

End ClassName.

Lemma extract_class_name_dir (dir file : string) :
  extract_class_name (dir ++ "/" ++ file) = extract_class_name file.
Proof.
  unfold extract_class_name, PyStr.basename.
  change ("/" ++ file)%string with (String "/" file).
  now rewrite basename_acc_after_slash.
Qed.

Lemma extract_class_name_path (dir name : string) :
  no_slash name = true ->
  extract_class_name (dir ++ "/" ++ name ++ ".java") = name.
Proof.
  intros H. rewrite extract_class_name_dir.
  now apply extract_class_name_java.
Qed.

(** X18: The class name of a path is what lies between its last slash and a
    final [.java]: the directory and the extension do not count. *)
Theorem extract_class_name_strips (dir name : string) :
  no_slash name = true ->
  extract_class_name (dir ++ "/" ++ name ++ ".java") = name /\
  extract_class_name (name ++ ".java") = name /\
  extract_class_name (dir ++ "/" ++ name ++ ".java")
  = extract_class_name (name ++ ".java").
Proof.
  intros H. rewrite extract_class_name_path by assumption.
  rewrite extract_class_name_java by assumption. auto.
Qed.

Lemma extract_class_name_strips_witness :
  extract_class_name "src/main/Foo.java" = "Foo".
Proof.
  exact (proj1 (@extract_class_name_strips "src/main" "Foo" eq_refl)).
Defined.

(** X19: The class name of a path never contains a slash. *)
Theorem extract_class_name_no_slash (filepath : string) :
  no_slash (extract_class_name filepath) = true.
Proof.
  unfold extract_class_name.
  assert (H : no_slash (PyStr.basename filepath) = true).
  { unfold PyStr.basename. now apply basename_acc_no_slash. }
  destruct (PyStr.endswith ".java" (PyStr.basename filepath)); auto.
  unfold PyStr.drop_last, no_slash. now apply all_chars_substring.
Qed.

(** X17: When the class names are not both present, two rows match by their
    paths alone: the base [Name] and the override [file], with ASCII
    file names, match exactly when their file names without [.java]
    agree up to the case of the letters, whatever the directories. *)
Theorem match_files_by_path
  (row1 row2 : Row) (dir1 dir2 name1 name2 : string) :
  andb (row_has row1 "ClassNames") (row_has row2 "class") = false ->
  row_get row1 "Name" = Some (VStr (dir1 ++ "/" ++ name1 ++ ".java")) ->
  row_get row2 "file" = Some (VStr (dir2 ++ "/" ++ name2 ++ ".java")) ->
  no_slash name1 = true -> no_slash name2 = true ->
  is_ascii name1 = true -> is_ascii name2 = true ->
  match_files row1 row2
  = Some (String.eqb (PyStr.lower name1) (PyStr.lower name2)).
Proof.
  intros Hc H1 H2 Hn1 Hn2 _ _. unfold match_files. rewrite Hc.
  unfold match_by_file, row_has. rewrite H1, H2.
  cbn [andb extract_class_name_cell].
  rewrite (extract_class_name_path dir1 name1 Hn1).
  rewrite (extract_class_name_path dir2 name2 Hn2).
  now destruct (String.eqb _ _).
Qed.

Lemma match_files_by_path_witness :
  match_files [("Name", VStr "src/Foo.java"); ("DCC", num 2)]
              [("file", VStr "build/out/foo.java"); ("DCC", num 5)]
  = Some true.
Proof.
  exact (@match_files_by_path
           [("Name", VStr "src/Foo.java"); ("DCC", num 2)]
           [("file", VStr "build/out/foo.java"); ("DCC", num 5)]
           "src" "build/out" "Foo" "foo"
           eq_refl eq_refl eq_refl eq_refl eq_refl eq_refl eq_refl).
Defined.

(* ================================================================== *)
(** * Further properties of the substitution *)

Lemma sub_go_absent (p repl : string) (s : string) : forall prev,
  PyStr.contains p s = false -> PyRe.sub_go p repl prev 0 s = s.
Proof.
  induction s as [|c s IH]; intros prev H; simpl in *.
  - unfold PyRe.matches_at. rewrite H. now rewrite andb_false_r.
  - apply orb_false_elim in H. destruct H as [Hs Hc].
    unfold PyRe.matches_at. rewrite Hs. rewrite andb_false_r. simpl.
    f_equal. now apply IH.
Qed.

(** ** The names [re.sub] is called with *)

Section Alphabet.

Lemma alphabet_sub_go (p repl : string) :
  all_chars in_alphabet repl = true ->
  forall s prev skip, all_chars in_alphabet s = true ->
    all_chars in_alphabet (PyRe.sub_go p repl prev skip s) = true.
Proof.
  intros Hr. induction s as [|c s IH]; intros prev skip Hs; simpl.
  - now destruct (andb _ _).
  - apply andb_prop in Hs. destruct Hs as [Hc Hs].
    destruct skip as [|k]; [|now apply IH].
    destruct (PyRe.matches_at p prev (String c s)).
    + destruct (String.length p); rewrite all_chars_app, Hr; simpl.
      * rewrite Hc. now apply IH.
      * now apply IH.
    + simpl. rewrite Hc. now apply IH.
Qed.

Lemma alphabet_substitute_step (expr col : string) :
  all_chars in_alphabet expr = true ->
  all_chars in_alphabet (substitute_step expr col) = true.
Proof.
  intros He. unfold substitute_step.
  destruct (PyStr.contains col expr) eqn:Ec; auto.
  unfold PyRe.sub. apply alphabet_sub_go; auto.
  unfold PyRe.reference. rewrite !all_chars_app.
  now rewrite (all_chars_contains in_alphabet col expr Ec He).
Qed.

Lemma alphabet_build_expr (cs : list string) : forall formula,
  all_chars in_alphabet formula = true ->
  all_chars in_alphabet (build_expr cs formula) = true.
Proof.
  unfold build_expr. induction cs as [|c cs IH]; intros f Hf; simpl; auto.
  apply IH. now apply alphabet_substitute_step.
Qed.

Lemma all_chars_impl (f g : ascii -> bool) (s : string) :
  (forall a, f a = true -> g a = true) ->
  all_chars f s = true -> all_chars g s = true.
Proof.
  intros Hfg. induction s as [|c s IH]; simpl; auto.
  intros H. apply andb_prop in H. destruct H as [Hc Hs].
  now rewrite (Hfg c Hc), IH.
Qed.

(** Whenever the loop calls [re.sub], that is, when the column [c]
    occurs in the expression built over the columns [before] it, the
    name [c] is written with the characters of the formulas and of
    [df['']]: it holds no backslash. *)
Lemma substituted_name_no_backslash
  (metric formula c : string) (before : list string) :
  In (metric, formula) QMOOD_FORMULAS ->
  PyStr.contains c (build_expr before formula) = true ->
  no_backslash c = true.
Proof.
  intros Hin Hc.
  pose proof (proj1 (Forall_forall _ _) formulas_segmented _ Hin)
    as (_ & _ & Halpha & _). simpl in Halpha.
  pose proof (all_chars_contains in_alphabet c _ Hc
                (alphabet_build_expr before formula Halpha)) as Ha.
  unfold no_backslash. apply (all_chars_impl in_alphabet); auto.
  intros a Hia. destruct (Ascii.eqb a "\"%char) eqn:E; auto.
  apply Ascii.eqb_eq in E. subst a. vm_compute in Hia. discriminate.
Qed.

End Alphabet.

(** X20: For a column name without backslash the test [col in expr] before
    [re.sub] changes nothing: on a text that does not contain the column
    name the substitution is the identity, so the turn of the loop is
    the substitution itself. *)
Theorem substitute_step_is_sub (expr col : string) :
  no_backslash col = true ->
  substitute_step expr col = PyRe.sub col expr.
Proof.
  intros _. unfold substitute_step.
  destruct (PyStr.contains col expr) eqn:E; auto.
  unfold PyRe.sub. symmetry. now apply sub_go_absent.
Qed.

Lemma substitute_step_is_sub_witness :
  substitute_step "0.5 * MOA2 + 0.5 * NOP" "MOA"
  = PyRe.sub "MOA" "0.5 * MOA2 + 0.5 * NOP".
Proof.
  exact (@substitute_step_is_sub "0.5 * MOA2 + 0.5 * NOP" "MOA" eq_refl).
Defined.

(* ================================================================== *)
(** * The command line and the whole run *)

Section SplitStrip.

Lemma split_on_plain (x : string) :
  no_comma x = true -> split_on "," x = [x].
Proof.
  unfold no_comma. induction x as [|c x IH]; simpl; auto.
  intros H. apply andb_prop in H. destruct H as [Hc Hx].
  apply negb_true_iff in Hc. rewrite Hc. now rewrite IH.
Qed.

Lemma split_on_cons (x s : string) :
  no_comma x = true ->
  split_on "," (x ++ String "," s) = x :: split_on "," s.
Proof.
  unfold no_comma. induction x as [|c x IH]; simpl; auto.
  intros H. apply andb_prop in H. destruct H as [Hc Hx].
  apply negb_true_iff in Hc. rewrite Hc. now rewrite IH.
Qed.

Lemma split_on_join (l : list string) :
  l <> [] -> Forall (fun x => no_comma x = true) l ->
  split_on "," (join "," l) = l.
Proof.
  induction l as [|x l IH]; intros Hne Hl; [congruence|].
  inversion Hl as [|? ? Hx Hl']; subst.
  destruct l as [|y r].
  - simpl. now apply split_on_plain.
  - change (join "," (x :: y :: r))
      with (x ++ String "," (join "," (y :: r)))%string.
    rewrite split_on_cons by assumption. f_equal.
    apply IH; [discriminate|assumption].
Qed.

Lemma split_on_length (s : string) :
  List.length (split_on "," s)
  = S (List.length (filter (fun c => Ascii.eqb c ","%char)
                           (list_ascii_of_string s))).
Proof.
  induction s as [|c s IH]; simpl; auto.
  destruct (Ascii.eqb c ","); simpl.
  - now rewrite IH.
  - destruct (split_on "," s); simpl in *; [discriminate|assumption].
Qed.

Lemma split_on_no_comma (s : string) :
  Forall (fun x => no_comma x = true) (split_on "," s).
Proof.
  unfold no_comma. induction s as [|c s IH]; simpl.
  - repeat constructor.
  - destruct (Ascii.eqb c ",") eqn:E.
    + constructor; auto.
    + destruct (split_on "," s) as [|h t].
      * repeat constructor. simpl. now rewrite E.
      * inversion IH; subst. constructor; auto. simpl. now rewrite E.
Qed.

Lemma lstrip_spaces (pre x : string) :
  all_chars is_space pre = true -> lstrip (pre ++ x) = lstrip x.
Proof.
  induction pre as [|c pre IH]; simpl; auto.
  intros H. apply andb_prop in H. destruct H as [Hc Hp].
  rewrite Hc. now apply IH.
Qed.

Lemma lstrip_length (s : string) :
  String.length (lstrip s) <= String.length s.
Proof.
  induction s as [|c s IH]; simpl; auto.
  destruct (is_space c); simpl; lia.
Qed.

Lemma lstrip_fixed_head (c : ascii) (s : string) :
  lstrip (String c s) = String c s -> is_space c = false.
Proof.
  simpl. destruct (is_space c); auto.
  intros H. pose proof (lstrip_length s) as Hl. rewrite H in Hl.
  simpl in Hl. lia.
Qed.

Lemma lstrip_fixed_app (n x : string) :
  lstrip n = n -> n <> EmptyString -> lstrip (n ++ x) = (n ++ x)%string.
Proof.
  destruct n as [|c n]; [congruence|].
  intros H _. apply lstrip_fixed_head in H. simpl. now rewrite H.
Qed.

Lemma lstrip_idempotent (s : string) : lstrip (lstrip s) = lstrip s.
Proof.
  induction s as [|c s IH]; simpl; auto.
  destruct (is_space c) eqn:E; auto. simpl. now rewrite E.
Qed.

Lemma lstrip_split (s : string) :
  exists w, s = (w ++ lstrip s)%string /\ all_chars is_space w = true.
Proof.
  induction s as [|c s IH]; simpl.
  - exists EmptyString. auto.
  - destruct (is_space c) eqn:E.
    + destruct IH as (w & Hs & Hw). exists (String c w). simpl.
      rewrite E, Hw. split; auto. now rewrite <- Hs.
    + exists EmptyString. auto.
Qed.

Lemma rev_involutive (s : string) : PyStr.rev (PyStr.rev s) = s.
Proof. unfold PyStr.rev at 2. now rewrite rev_rev_acc. Qed.

Lemma all_chars_rev (f : ascii -> bool) (s : string) :
  all_chars f (PyStr.rev s) = all_chars f s.
Proof.
  unfold PyStr.rev. rewrite all_chars_rev_acc. simpl. apply andb_true_r.
Qed.

Lemma all_chars_lstrip (f : ascii -> bool) (s : string) :
  all_chars f s = true -> all_chars f (lstrip s) = true.
Proof.
  induction s as [|c s IH]; simpl; auto.
  intros H. apply andb_prop in H. destruct H as [Hc Hs].
  destruct (is_space c); simpl; auto. now rewrite Hc, Hs.
Qed.

Lemma strip_padded (item : string * string * string) :
  well_padded item -> strip (padded item) = item_name item.
Proof.
  destruct item as [[pre name] post].
  intros (Hpre & Hpost & [Hl Hr] & _). simpl. unfold strip.
  rewrite lstrip_spaces by assumption.
  destruct name as [|c name].
  - simpl. rewrite <- (append_nil_r post).
    rewrite lstrip_spaces by assumption. reflexivity.
  - rewrite lstrip_fixed_app by (auto; discriminate).
    rewrite rev_app, lstrip_spaces by (now rewrite all_chars_rev).
    rewrite Hr. apply rev_involutive.
Qed.

(** What [strip] returns has no white space at either end. *)
Lemma strip_trimmed (s : string) : trimmed (strip s).
Proof.
  unfold trimmed, strip.
  set (x := lstrip s). set (y := lstrip (PyStr.rev x)).
  split.
  - destruct (lstrip_split (PyStr.rev x)) as (w & Hx & Hw). fold y in Hx.
    assert (Hx' : x = (PyStr.rev y ++ PyStr.rev w)%string).
    { rewrite <- rev_app, <- Hx. now rewrite rev_involutive. }
    assert (Hfix : lstrip x = x) by apply lstrip_idempotent.
    destruct (PyStr.rev y) as [|c r] eqn:Ey; auto.
    rewrite Hx' in Hfix.
    pose proof (@lstrip_fixed_head c (r ++ PyStr.rev w) Hfix) as Hc.
    simpl. now rewrite Hc.
  - rewrite rev_involutive. apply lstrip_idempotent.
Qed.

End SplitStrip.

Lemma space_no_comma (s : string) :
  all_chars is_space s = true -> no_comma s = true.
Proof.
  unfold no_comma. induction s as [|c s IH]; simpl; auto.
  intros H. apply andb_prop in H. destruct H as [Hc Hs].
  rewrite (IH Hs), andb_true_r.
  destruct (Ascii.eqb c ",") eqn:E; auto.
  apply Ascii.eqb_eq in E. subst c. discriminate.
Qed.

Lemma padded_no_comma (item : string * string * string) :
  well_padded item -> no_comma (padded item) = true.
Proof.
  destruct item as [[pre name] post].
  intros (Hpre & Hpost & _ & Hname). simpl. unfold no_comma in *.
  rewrite !all_chars_app, Hname.
  fold (no_comma pre). fold (no_comma post).
  now rewrite !space_no_comma.
Qed.

(** X21: ASCII names written with commas between them and ASCII white space
    around them are read back as they are: the option [--add-columns]
    of a list of trimmed ASCII names without comma gives that list. *)
Theorem parse_add_columns_round_trip
  (items : list (string * string * string)) :
  items <> [] ->
  Forall well_padded items ->
  Forall (fun item => is_ascii (item_name item) = true) items ->
  join "," (map padded items) <> EmptyString ->
  parse_add_columns (Some (join "," (map padded items)))
  = Some (map item_name items).
Proof.
  intros Hne Hitems _ Htext. unfold parse_add_columns.
  destruct (join "," (map padded items)) as [|c r] eqn:E; [congruence|].
  rewrite <- E. f_equal.
  rewrite split_on_join.
  - rewrite map_map. apply map_ext_in. intros item Hin.
    apply strip_padded. now apply (proj1 (Forall_forall _ _) Hitems).
  - destruct items; [congruence|discriminate].
  - apply Forall_forall. intros x Hx. apply in_map_iff in Hx.
    destruct Hx as (item & <- & Hin). apply padded_no_comma.
    now apply (proj1 (Forall_forall _ _) Hitems).
Qed.

Lemma parse_add_columns_round_trip_witness :
  parse_add_columns (Some "NewMetric, lines ,Owner")
  = Some ["NewMetric"; "lines"; "Owner"].
Proof.
  refine (@parse_add_columns_round_trip
            [("", "NewMetric", ""); (" ", "lines", " "); ("", "Owner", "")]
            _ _ _ _).
  - discriminate.
  - repeat constructor.
  - repeat constructor.
  - discriminate.
Defined.

(** X22: The list of columns to add is absent exactly when the option is
    absent or empty; otherwise it has one name more than the option has
    commas, and every name is without comma and without white space at
    either end. *)
Theorem parse_add_columns_pieces (arg : option string) :
  (parse_add_columns arg = None <-> arg = None \/ arg = Some EmptyString) /\
  (forall s l, arg = Some s -> parse_add_columns arg = Some l ->
     List.length l
     = S (List.length (filter (fun c => Ascii.eqb c ","%char)
                              (list_ascii_of_string s))) /\
     Forall (fun n => no_comma n = true /\ trimmed n) l).
Proof.
  split.
  - destruct arg as [[|c s]|]; simpl; split; auto; try discriminate;
      intros [H|H]; discriminate.
  - intros s l -> Hp. unfold parse_add_columns in Hp.
    assert (Hl : l = map strip (split_on "," s))
      by (destruct s; [discriminate | now injection Hp]).
    subst l. split.
    + now rewrite length_map, split_on_length.
    + apply Forall_forall. intros n Hn. apply in_map_iff in Hn.
      destruct Hn as (x & <- & Hx). split; [|apply strip_trimmed].
      pose proof (proj1 (Forall_forall _ _) (split_on_no_comma s) x Hx) as Hc.
      unfold no_comma, strip in *.
      rewrite all_chars_rev. apply all_chars_lstrip.
      rewrite all_chars_rev. now apply all_chars_lstrip.
Qed.

(** ** The whole run *)

(** X23: When the cells the matcher reads are as it expects, the run
    produces a table: it has the rows of the base table, every column
    holds one cell per row, and its columns are those of the base table,
    then the added columns, then the metrics that neither has, so that
    all six metrics are among them. *)
Theorem main_core_shape
  (base_df override_df : DataFrame) (arg : option string) :
  wf base_df -> wf override_df ->
  column_all is_str base_df "Name" ->
  column_all is_str override_df "file" ->
  column_all not_na base_df "ClassNames" ->
  column_all not_na override_df "class" ->
  exists out,
    main_core base_df override_df arg = Some out /\
    nrows out = nrows base_df /\ wf out /\
    columns out
    = ((columns base_df
        ++ spec_added_columns base_df override_df (parse_add_columns arg))
       ++ filter
            (fun m =>
               negb (mem m (columns base_df
                            ++ spec_added_columns base_df override_df
                                 (parse_add_columns arg))))
            QMOOD_METRICS)%list /\
    (forall m, In m QMOOD_METRICS -> In m (columns out)).
Proof.
  intros Hwb Hwo Hn Hf Hc Hk.
  pose proof (matcher_total_of_cells Hwb Hwo Hn Hf Hc Hk) as Htot.
  destruct (merge_csvs_rows (parse_add_columns arg) Hwb Htot)
    as (res & Hm & Hw & [Hnr Hcols] & _).
  assert (Hres : columns res
                 = (columns base_df
                    ++ spec_added_columns base_df override_df
                         (parse_add_columns arg))%list).
  { rewrite Hcols, add_new_columns_spec.
    unfold spec_base_with_added, columns. simpl.
    now rewrite map_app, names_empty_columns. }
  assert (Hout : columns (recalculate_qmood_metrics res)
                 = (columns res
                    ++ filter (fun m => negb (mem m (columns res)))
                              QMOOD_METRICS)%list).
  { rewrite <- QMOOD_names.
    apply recalc_fold_columns_exact. apply QMOOD_names_NoDup. }
  exists (recalculate_qmood_metrics res).
  unfold main_core. rewrite Hm.
  split; [reflexivity|]. split; [|split; [|split]].
  - rewrite (proj1 (recalculate_columns res)), Hnr.
    apply add_new_columns_nrows.
  - unfold recalculate_qmood_metrics. now apply recalc_fold_wf.
  - now rewrite Hout, Hres.
  - intros m Hin. rewrite Hout. apply in_or_app.
    destruct (mem m (columns res)) eqn:E.
    + left. now apply mem_In.
    + right. apply filter_In. split; auto. now rewrite E.
Qed.

Lemma main_core_shape_witness :
  exists out,
    main_core RunExamples.base RunExamples.override None = Some out /\
    nrows out = 1 /\ wf out /\
    columns out
    = ["Name"; "DCC"; "lcc"; "CIS"; "DSC"; "Reusability"; "Flexibility";
       "Understandability"; "Functionality"; "Extendibility";
       "Effectiveness"] /\
    (forall m, In m QMOOD_METRICS -> In m (columns out)).
Proof.
  apply (@main_core_shape RunExamples.base RunExamples.override None).
  - repeat constructor.
  - repeat constructor.
  - intros vs [= <-]. repeat constructor.
  - intros vs [= <-]. repeat constructor.
  - intros vs H. discriminate.
  - intros vs H. discriminate.
Defined.

(** The example of the specification: the override row is matched by
    its file name up to case, DCC becomes 5 and Reusability is
    recomputed as 1. *)
Lemma main_core_example :
  exists out,
    main_core RunExamples.base RunExamples.override None = Some out /\
    col_get (cols out) "DCC" = Some [num 5] /\
    col_get (cols out) "Reusability" = Some [VNum 1%float].
Proof.
  eexists. split; [reflexivity|]. split.
  - vm_compute. reflexivity.
  - vm_compute. reflexivity.
Qed.

(* ================================================================== *)
(** * Edge cases and frames *)

(** X9: Recalculation changes no column other than the six metrics. *)
Theorem recalculate_keeps_inputs (df : DataFrame) (c : string) :
  ~ In c QMOOD_METRICS ->
  col_get (cols (recalculate_qmood_metrics df)) c = col_get (cols df) c.
Proof. apply (recalculate_columns df). Qed.

Lemma recalculate_keeps_inputs_witness :
  col_get (cols (recalculate_qmood_metrics MoreExamples.full)) "DCC"
  = Some [num 5; num 3].
Proof.
  apply (@recalculate_keeps_inputs MoreExamples.full "DCC").
  simpl. intuition discriminate.
Defined.

(** X14: When the base table or the override table has no row, the matcher
    is never called: the merge returns the base table followed by its
    empty added columns, whatever the cells are. *)
Theorem merge_csvs_empty_tables
  (base_df override_df : DataFrame) (add_columns : option (list string)) :
  nrows base_df = 0 \/ nrows override_df = 0 ->
  merge_csvs base_df override_df add_columns
  = Some (spec_base_with_added base_df override_df add_columns).
Proof.
  intros H. unfold merge_csvs, merge_state.
  rewrite merge_rows_no_match.
  - simpl. now rewrite add_new_columns_spec.
  - intros i j Hi Hj. apply in_seq in Hi. lia.
Qed.

Lemma merge_csvs_empty_tables_witness :
  merge_csvs Examples.base_nan (mkDF 0 [("file", []); ("New", [])])
             (Some ["New"])
  = Some (mkDF 1 [("Name", [VNaN]); ("New", [VNA])]).
Proof.
  exact (@merge_csvs_empty_tables Examples.base_nan
           (mkDF 0 [("file", []); ("New", [])]) (Some ["New"])
           (or_intror eq_refl)).
Defined.

Lemma spec_override_row_app
  (base_df : DataFrame) (add_columns : option (list string)) (orow : Row)
  (a b : list string) : forall r,
  spec_override_row base_df add_columns orow (a ++ b) r
  = spec_override_row base_df add_columns orow b
      (spec_override_row base_df add_columns orow a r).
Proof.
  induction a as [|col a IH]; intros r; simpl; auto.
  destruct (target_col base_df add_columns col); auto.
  destruct (row_get orow col); auto.
Qed.

(** X15: When several override columns are written to the same column of the
    result (their names agree with it up to case), the cell of the last
    of them, in the order of the override table, is the one that
    stays. *)
Theorem merge_last_override_column_wins
  (base_df override_df : DataFrame) (add_columns : option (list string))
  (res : DataFrame) (i j : nat) (before after : list string)
  (col t : string) (v : value) :
  wf base_df ->
  merge_csvs base_df override_df add_columns = Some res ->
  i < nrows base_df ->
  spec_first_match base_df override_df i = Some j ->
  columns override_df = (before ++ col :: after)%list ->
  target_col base_df add_columns col = Some t ->
  (forall col', In col' after ->
     target_col base_df add_columns col' <> Some t) ->
  row_get (row_at override_df j) col = Some v ->
  row_get (row_at res i) t = Some v.
Proof.
  intros Hwf Hm Hi Hf Hcols Ht Hafter Hv.
  rewrite (@merged_row_of_first_match base_df override_df add_columns
             res i j Hwf Hm Hi Hf).
  rewrite Hcols, spec_override_row_app. simpl. rewrite Ht, Hv.
  rewrite spec_override_row_untouched by assumption.
  apply row_get_set_same.
  rewrite spec_override_row_keys, row_at_keys.
  apply mem_In.
  apply (target_in_result override_df base_df add_columns col); auto.
  rewrite Hcols. apply in_or_app. simpl. auto.
Qed.

Lemma merge_last_override_column_wins_witness :
  row_get (row_at CaseExamples.merged 0) "DCC" = Some (num 9).
Proof.
  apply (@merge_last_override_column_wins CaseExamples.base
           CaseExamples.override None CaseExamples.merged 0 0
           ["file"; "dcc"] [] "Dcc" "DCC" (num 9)).
  - repeat constructor.
  - vm_compute. reflexivity.
  - simpl; lia.
  - reflexivity.
  - reflexivity.
  - reflexivity.
  - intros col' [].
  - reflexivity.
Defined.
